(** * generate_property_files.py: a shallow embedding of the record generator

    The script builds a corpus of lodging-property records from static
    tables, Python's [random] module and the Faker library, and dumps it as
    indented JSON.  The embedding follows the script top to bottom:

    - Python strings are their UTF-8 bytes ([string]); one-character
      [replace], [in], [join] and f-string concatenation are defined on
      them, [str.lower] is the interpreter's (it follows the Unicode
      tables) and is [ascii_lower] on ASCII text;
    - dictionaries are association lists in insertion order (the script
      iterates over [property_type_features.keys()]);
    - [random] and Faker are external libraries: their generators are the
      interfaces [RandomGen] and [Faker], threaded through a state and
      exception monad; what the script takes from the interpreter (the
      iteration order of a set, [str.lower]) is the interface [Runtime],
      and the leaf encoders of the [json] module are the interface
      [JsonCodec];
    - Python's floats are the interface [PyFloat]: the doubles with the
      rational each stands for, the operations the script applies and
      [round(x, 2)]; [Binary64] is the instance on the kernel's IEEE 754
      doubles, [ExactFloat] the one without rounding error. *)

From Stdlib Require Import List String Ascii Arith ZArith QArith Qround.
From Stdlib Require Import Lia Lqa Permutation Bool DecimalString.
From Stdlib Require Import Floats Uint63.
From Stdlib Require DecimalNat.
Import ListNotations.
Close Scope Q_scope.
Open Scope string_scope.

(** ** Python string operations *)

(** What [str.lower] does to ASCII text: the letters A-Z move to a-z, every
    other character stays. *)
Definition lower_ascii (c : ascii) : ascii :=
  let n := nat_of_ascii c in
  if ((65 <=? n)%nat && (n <=? 90)%nat)%bool then ascii_of_nat (n + 32) else c.

Fixpoint ascii_lower (s : string) : string :=
  match s with
  | EmptyString => EmptyString
  | String c r => String (lower_ascii c) (ascii_lower r)
  end.

(** [s.isascii()] *)
Fixpoint is_ascii (s : string) : bool :=
  match s with
  | EmptyString => true
  | String c r => ((nat_of_ascii c <? 128)%nat && is_ascii r)%bool
  end.

(** [s.replace(old, new)] for a one-character [old], the only form the
    script uses. *)
Fixpoint replace (old : ascii) (new : string) (s : string) : string :=
  match s with
  | EmptyString => EmptyString
  | String c r =>
      if Ascii.eqb c old then new ++ replace old new r
      else String c (replace old new r)
  end.

(** [sub in s] *)
Fixpoint contains (sub s : string) : bool :=
  prefix sub s ||
  match s with
  | EmptyString => false
  | String _ r => contains sub r
  end.

(** [str(n)] for a non-negative integer *)
Definition str_of_nat (n : nat) : string :=
  NilZero.string_of_uint (Nat.to_uint n).

(** The decimal numerals of 2 to 30, as [str] writes them. *)
Definition miles_numerals : list string :=
  [ "2"; "3"; "4"; "5"; "6"; "7"; "8"; "9"; "10"; "11"; "12"; "13"; "14"; "15"; "16";
    "17"; "18"; "19"; "20"; "21"; "22"; "23"; "24"; "25"; "26"; "27"; "28"; "29"; "30" ].

(** [sep.join(l)] *)
Definition join (sep : string) (l : list string) : string :=
  String.concat sep l.

(** ** Dictionaries *)

Fixpoint dict_lookup {V : Type} (d : list (string * V)) (k : string) : option V :=
  match d with
  | [] => None
  | (k', v) :: d' => if String.eqb k' k then Some v else dict_lookup d' k
  end.

(** [d.get(k, default)] *)
Definition dict_get {V : Type} (d : list (string * V)) (k : string) (default : V) : V :=
  match dict_lookup d k with
  | Some v => v
  | None => default
  end.

(** [d.keys()] *)
Definition keys {V : Type} (d : list (string * V)) : list string := map fst d.

(** ** The static tables *)

Definition locations : list string :=
  [ "Beachfront"; "Mountain View"; "Downtown"; "Desert"; "Oceanfront"; "Historic District";
    "Lakeside"; "Countryside"; "City Center"; "Riverside"; "Business District"; "Wine Country";
    "Government District"; "Tech Hub"; "Plains"; "Valley"; "Forest"; "Industrial District";
    "Gulf Coast"; "Bay Area"; "Ranch Land"; "Wilderness"; "Tropical Beach"; "Financial District";
    "Coastal"; "Suburban"; "University District"; "Ski Resort"; "Riverfront"; "Island" ].

Definition location_amenities : list (string * list string) :=
  [ ("Beachfront", ["private beach access"; "ocean views"; "beachside dining"; "water sports equipment"; "sunset terraces"]);
    ("Mountain View", ["hiking trails"; "mountain vistas"; "fireplaces"; "ski access"; "nature walks"]);
    ("Downtown", ["city skyline views"; "rooftop bar"; "business center"; "metro access"; "shopping nearby"]);
    ("Desert", ["desert landscapes"; "stargazing decks"; "spa services"; "golf course"; "pool oasis"]);
    ("Oceanfront", ["panoramic ocean views"; "private balconies"; "seafood restaurant"; "marina access"; "lighthouse views"]);
    ("Historic District", ["heritage architecture"; "antique furnishings"; "guided tours"; "period details"; "cobblestone streets"]);
    ("Lakeside", ["lake views"; "fishing pier"; "boat rentals"; "lakefront dining"; "swimming area"]);
    ("Countryside", ["rolling hills"; "farm-to-table dining"; "horseback riding"; "wine tasting"; "pastoral views"]);
    ("City Center", ["urban sophistication"; "fine dining"; "theater district"; "shopping centers"; "nightlife"]);
    ("Riverside", ["river views"; "kayak rentals"; "riverside trails"; "fishing spots"; "peaceful setting"]);
    ("Business District", ["conference facilities"; "executive services"; "high-speed internet"; "corporate rates"; "meeting rooms"]);
    ("Wine Country", ["vineyard views"; "wine tastings"; "cellar tours"; "gourmet dining"; "harvest experiences"]);
    ("Government District", ["historic landmarks"; "monument views"; "political tours"; "security features"; "diplomatic services"]);
    ("Tech Hub", ["high-tech amenities"; "fast WiFi"; "co-working spaces"; "innovation center"; "startup networking"]);
    ("Plains", ["wide open spaces"; "prairie views"; "outdoor activities"; "peaceful atmosphere"; "starry nights"]);
    ("Valley", ["valley panoramas"; "scenic drives"; "hiking paths"; "fresh air"; "mountain backdrops"]);
    ("Forest", ["forest trails"; "wildlife viewing"; "cabin atmosphere"; "outdoor adventures"; "nature immersion"]);
    ("Industrial District", ["modern design"; "converted warehouses"; "urban loft style"; "art galleries"; "trendy restaurants"]);
    ("Gulf Coast", ["gulf waters"; "seafood cuisine"; "coastal charm"; "fishing charters"; "beach activities"]);
    ("Bay Area", ["bay views"; "maritime culture"; "sailing opportunities"; "waterfront dining"; "harbor tours"]);
    ("Ranch Land", ["ranch experiences"; "horseback riding"; "cattle drives"; "cowboy culture"; "wide open spaces"]);
    ("Wilderness", ["untouched nature"; "wildlife encounters"; "adventure activities"; "eco-tours"; "camping options"]);
    ("Tropical Beach", ["white sand beaches"; "palm trees"; "tropical drinks"; "snorkeling"; "paradise setting"]);
    ("Financial District", ["luxury accommodations"; "business services"; "upscale dining"; "premium location"; "executive floors"]);
    ("Coastal", ["coastal breezes"; "seaside charm"; "lighthouse tours"; "beach walks"; "maritime history"]);
    ("Suburban", ["family-friendly"; "quiet neighborhoods"; "local attractions"; "easy access"; "comfortable setting"]);
    ("University District", ["academic atmosphere"; "student discounts"; "cultural events"; "library access"; "campus tours"]);
    ("Ski Resort", ["ski slopes"; "winter sports"; "alpine dining"; "mountain lodges"; "snow activities"]);
    ("Riverfront", ["riverfront location"; "water activities"; "scenic beauty"; "peaceful setting"; "nature walks"]);
    ("Island", ["island paradise"; "tropical setting"; "water activities"; "secluded beaches"; "resort atmosphere"]) ].

Definition property_type_features : list (string * list string) :=
  [ ("Resort", ["luxury amenities"; "spa services"; "multiple restaurants"; "recreational facilities"; "concierge service"]);
    ("Hotel", ["comfortable rooms"; "room service"; "front desk"; "housekeeping"; "guest services"]);
    ("Lodge", ["rustic charm"; "cozy atmosphere"; "outdoor activities"; "lodge dining"; "nature setting"]);
    ("Inn", ["intimate setting"; "personalized service"; "local charm"; "historic character"; "boutique experience"]);
    ("Suites", ["spacious accommodations"; "separate living areas"; "kitchen facilities"; "extended stay options"; "business amenities"]);
    ("Manor", ["elegant architecture"; "luxurious interiors"; "historic grandeur"; "fine dining"; "exclusive atmosphere"]);
    ("Retreat", ["peaceful environment"; "wellness programs"; "meditation spaces"; "healthy cuisine"; "rejuvenation focus"]);
    ("Cabin", ["rustic accommodations"; "nature immersion"; "outdoor adventures"; "cozy interiors"; "campfire areas"]) ].

Definition location_descriptions : list (string * string) :=
  [ ("Beachfront", "steps away from pristine sandy beaches");
    ("Mountain View", "surrounded by majestic mountain peaks");
    ("Downtown", "in the heart of the bustling city center");
    ("Desert", "amidst stunning desert landscapes");
    ("Oceanfront", "with breathtaking ocean vistas");
    ("Historic District", "steeped in rich cultural heritage");
    ("Lakeside", "overlooking tranquil lake waters");
    ("Countryside", "set in picturesque rural surroundings");
    ("City Center", "at the pulse of urban excitement");
    ("Riverside", "along the peaceful riverbank");
    ("Wine Country", "surrounded by rolling vineyards");
    ("Ski Resort", "at the base of world-class ski slopes");
    ("Island", "on a secluded tropical island") ].

Definition country_closings : list (string * string) :=
  [ ("USA", "making it the perfect choice for your American adventure.");
    ("Canada", "providing an authentic Canadian hospitality experience.");
    ("Mexico", "offering you a taste of Mexico's warm hospitality and vibrant culture.") ].

Definition us_states : list string :=
  [ "Alabama"; "Alaska"; "Arizona"; "Arkansas"; "California"; "Colorado"; "Connecticut";
    "Delaware"; "Florida"; "Georgia"; "Hawaii"; "Idaho"; "Illinois"; "Indiana"; "Iowa";
    "Kansas"; "Kentucky"; "Louisiana"; "Maine"; "Maryland"; "Massachusetts"; "Michigan";
    "Minnesota"; "Mississippi"; "Missouri"; "Montana"; "Nebraska"; "Nevada"; "New Hampshire";
    "New Jersey"; "New Mexico"; "New York"; "North Carolina"; "North Dakota"; "Ohio";
    "Oklahoma"; "Oregon"; "Pennsylvania"; "Rhode Island"; "South Carolina"; "South Dakota";
    "Tennessee"; "Texas"; "Utah"; "Vermont"; "Virginia"; "Washington"; "West Virginia";
    "Wisconsin"; "Wyoming" ].

Definition canadian_provinces : list string :=
  [ "Alberta"; "British Columbia"; "Manitoba"; "New Brunswick"; "Newfoundland and Labrador";
    "Northwest Territories"; "Nova Scotia"; "Nunavut"; "Ontario"; "Prince Edward Island";
    "Quebec"; "Saskatchewan"; "Yukon" ].

Definition mexican_states : list string :=
  [ "Aguascalientes"; "Baja California"; "Baja California Sur"; "Campeche"; "Chiapas";
    "Chihuahua"; "Coahuila"; "Colima"; "Durango"; "Guanajuato"; "Guerrero"; "Hidalgo";
    "Jalisco"; "México"; "Michoacán"; "Morelos"; "Nayarit"; "Nuevo León"; "Oaxaca";
    "Puebla"; "Querétaro"; "Quintana Roo"; "San Luis Potosí"; "Sinaloa"; "Sonora";
    "Tabasco"; "Tamaulipas"; "Tlaxcala"; "Veracruz"; "Yucatán"; "Zacatecas" ].

Definition countries_states : list (string * list string) :=
  [ ("USA", us_states);
    ("Canada", canadian_provinces);
    ("Mexico", mexican_states) ].

Definition countries : list string := keys countries_states.

Definition cancellation_policies : list string :=
  [ "Full refund if cancelled 48 hours prior";
    "50% if cancelled within 48 hours";
    "No penalty if cancelled 72 hours prior";
    "20% penalty if cancelled within 48 hours";
    "25% penalty if cancelled within 24 hours";
    "30% penalty if cancelled within 72 hours";
    "40% penalty if cancelled within 24 hours";
    "10% penalty if cancelled within 24 hours";
    "15% penalty if cancelled within 24 hours" ].

(** The suffix list of [unique_property_names]. *)
Definition name_suffixes : list string :=
  [ "Resort"; "Hotel"; "Lodge"; "Inn"; "Suites"; "Manor"; "Retreat"; "Cabin" ].

(** ** Python's floats *)

(** The floats, as far as the script uses them: the type of the doubles,
    which of them are finite (neither an infinity nor a NaN), the rational
    a finite double stands for, the double that a decimal with two places
    is read as ([cents 7501] is [75.01], [cents 7500] is [75.0], the float
    of the integer 75), the three operations the script applies, each
    rounding its exact result to a double, and [round(x, 2)]. *)
Class PyFloat : Type := {
  float : Type;
  finite : float -> bool;
  value : float -> Q;
  cents : Z -> float;
  fadd : float -> float -> float;
  fsub : float -> float -> float;
  fmul : float -> float -> float;
  round2 : float -> float
}.

(** ** JSON values and [json.dump(data, f, indent=2)] *)

Set Warnings "-register-all".

Inductive json {PF : PyFloat} : Type :=
| JInt (z : Z)
| JFloat (x : float)
| JStr (s : string)
| JList (l : list json)
| JDict (kv : list (string * json)).

Definition str_of_Z (z : Z) : string :=
  match z with
  | Zneg p => "-" ++ str_of_nat (Pos.to_nat p)
  | _ => str_of_nat (Z.to_nat z)
  end.

Fixpoint spaces (n : nat) : string :=
  match n with
  | O => EmptyString
  | S n' => String " " (spaces n')
  end.

Definition newline_indent (indent level : nat) : string :=
  String "010" (spaces (indent * level)).

(** ** The external libraries, as interfaces *)

(** Python's [random] module: [randbelow n] is [Random._randbelow(n)],
    [random] is [Random.random()]; each returns the next generator state. *)
Class RandomGen {PF : PyFloat} : Type := {
  rng : Type;
  randbelow : nat -> rng -> nat * rng;
  random : rng -> float * rng
}.

Inductive locale : Type := en_US | en_CA | es_MX.

(** Faker.  All instances share one seeded generator, so one state serves
    [fake] and every [Faker(locale)] made in the loop.  [unique_company seen]
    is [fake.unique.company()] when the values in [seen] have already been
    handed out; [None] is its [UniquenessException]. *)
Class Faker : Type := {
  fstate : Type;
  unique_company : list string -> fstate -> option (string * fstate);
  city : locale -> fstate -> string * fstate;
  address : locale -> fstate -> string * fstate;
  phone_number : locale -> fstate -> string * fstate
}.

(** What the script takes from the interpreter process: the order in which
    a [set] of strings is iterated (it follows the strings' hashes, which
    CPython salts per process), and [str.lower], which maps each character
    by the interpreter's Unicode tables. *)
Class Runtime : Type := {
  set_iter : list string -> list string;
  lower : string -> string
}.

(** The two leaf encoders of the [json] module, the float writer (it is
    [float.__repr__] on finite floats) and [encode_basestring_ascii], each
    with the scanner by which [json.loads] reads its text back from the
    front of a longer text. *)
Class JsonCodec {PF : PyFloat} : Type := {
  float_repr : float -> string;
  scan_float : string -> option (float * string);
  encode_basestring_ascii : string -> string;
  scan_string : string -> option (string * string)
}.

(** ** Floating-point arithmetic *)

(** Round half to even, to the nearest integer. *)
Definition round_half_even (q : Q) : Z :=
  let f := Qfloor q in
  match Qcompare (q - inject_Z f) (1 # 2) with
  | Lt => f
  | Gt => (f + 1)%Z
  | Eq => if Z.even f then f else (f + 1)%Z
  end.

(** A finite float of magnitude at most a million: sums and products of
    two of them are far from overflow. *)
Definition small {PF : PyFloat} (x : float) : Prop :=
  finite x = true /\ (- (1000000) <= value x)%Q /\ (value x <= 1000000)%Q.

(** What IEEE 754 arithmetic in round-to-nearest and CPython's conversions
    guarantee of small floats:
    - a decimal with two places is read as a finite double within a
      millionth of it, exactly when it is a whole number, and a larger
      decimal is not read as a smaller double;
    - sums, differences and products are finite; adding to a fixed float
      and multiplying a fixed non-negative float are monotone, because the
      exact results are ordered and rounding keeps the order;
      multiplication commutes;
    - adding zero, multiplying by zero and multiplying by one are exact;
    - [round(x, 2)] of a positive float is the double read from the
      decimal that the exact value of [x] rounds to, half to even, at two
      places. *)
Record ieee_laws {PF : PyFloat} : Prop := {
  cents_finite : forall k : Z,
    (- (100000000) <= k <= 100000000)%Z -> finite (cents k) = true;
  cents_near : forall k : Z,
    (- (100000000) <= k <= 100000000)%Z ->
    ((k # 100) - (1 # 1000000) <= value (cents k))%Q /\
    (value (cents k) <= (k # 100) + (1 # 1000000))%Q;
  cents_monotone : forall j k : Z,
    (- (100000000) <= j)%Z -> (j <= k)%Z -> (k <= 100000000)%Z ->
    (value (cents j) <= value (cents k))%Q;
  cents_whole : forall z : Z,
    (- (1000000) <= z <= 1000000)%Z -> (value (cents (100 * z)) == inject_Z z)%Q;
  fadd_finite : forall a b, small a -> small b -> finite (fadd a b) = true;
  fsub_finite : forall a b, small a -> small b -> finite (fsub a b) = true;
  fmul_finite : forall a b, small a -> small b -> finite (fmul a b) = true;
  fadd_monotone : forall a x y, small a -> small x -> small y ->
    (value x <= value y)%Q -> (value (fadd a x) <= value (fadd a y))%Q;
  fmul_monotone : forall a x y, small a -> small x -> small y ->
    (0 <= value a)%Q -> (value x <= value y)%Q ->
    (value (fmul a x) <= value (fmul a y))%Q;
  fmul_comm : forall a b, small a -> small b -> fmul a b = fmul b a;
  fadd_zero : forall a z, small a -> small z ->
    (value z == 0)%Q -> (value (fadd a z) == value a)%Q;
  fmul_zero : forall a z, small a -> small z ->
    (value z == 0)%Q -> (value (fmul a z) == 0)%Q;
  fmul_one : forall a u, small a -> small u ->
    (value u == 1)%Q -> (value (fmul a u) == value a)%Q;
  round2_spec : forall x, small x -> (0 < value x)%Q ->
    round2 x = cents (round_half_even (value x * 100))
}.

(** What the arithmetic gives on the constants of lines 237-238: the float
    difference [750.0 - 75.0] is the integer difference 675 that
    [random.uniform(75, 750)] computes, and [75.0 + 675.0] is 750; the
    width [0.2 - 0.1] of the rate interval lies in the unit interval, and
    [0.1 + (0.2 - 0.1)] is not above [0.2]; [75.0 * 0.1] is not below
    [7.5] and [750.0 * 0.2] not above [150.0]. *)
Record script_constants {PF : PyFloat} : Prop := {
  price_width : (value (fsub (cents 75000) (cents 7500)) == 675)%Q;
  price_top : (value (fadd (cents 7500) (fsub (cents 75000) (cents 7500))) == 750)%Q;
  rate_width : (0 <= value (fsub (cents 20) (cents 10)))%Q /\
               (value (fsub (cents 20) (cents 10)) <= 1)%Q;
  rate_top : (value (fadd (cents 10) (fsub (cents 20) (cents 10))) <= value (cents 20))%Q;
  commission_floor : (value (cents 750) <= value (fmul (cents 7500) (cents 10)))%Q;
  commission_ceiling : (value (fmul (cents 75000) (cents 20)) <= value (cents 15000))%Q
}.

(** ** The property record (the dict literal of the main loop) *)

Record property {PF : PyFloat} : Type := {
  id : Z;
  propertyName : string;
  propertyDescription : string;
  propertyLocation : string;
  propertyCity : string;
  propertyState : string;
  propertyCountry : string;
  propertyAddress : string;
  propertyPhoneNumber : string;
  propertyEmailAddress : string;
  propertyAirportProximity : string;
  propertyPricePerNight : float;
  propertyCommissionAmount : float;
  propertyCancellationPenalty : string
}.

Definition json_of_property {PF : PyFloat} (p : property) : json :=
  JDict
    [ ("id", JInt (id p));
      ("propertyName", JStr (propertyName p));
      ("propertyDescription", JStr (propertyDescription p));
      ("propertyLocation", JStr (propertyLocation p));
      ("propertyCity", JStr (propertyCity p));
      ("propertyState", JStr (propertyState p));
      ("propertyCountry", JStr (propertyCountry p));
      ("propertyAddress", JStr (propertyAddress p));
      ("propertyPhoneNumber", JStr (propertyPhoneNumber p));
      ("propertyEmailAddress", JStr (propertyEmailAddress p));
      ("propertyAirportProximity", JStr (propertyAirportProximity p));
      ("propertyPricePerNight", JFloat (propertyPricePerNight p));
      ("propertyCommissionAmount", JFloat (propertyCommissionAmount p));
      ("propertyCancellationPenalty", JStr (propertyCancellationPenalty p)) ].

(** ** Exceptions and the generator monad *)

Inductive exn : Type :=
| UniquenessException
| IndexError
| KeyError
| ValueError.

(** [OutOfFuel]: the bound put on the [while] loop was reached. *)
Inductive outcome (A : Type) : Type :=
| Ok (a : A)
| Raise (e : exn)
| OutOfFuel.

Arguments Ok {A} a.
Arguments Raise {A} e.
Arguments OutOfFuel {A}.

(** [set.add]: a set is kept as the list of its elements, without repeats. *)
Definition set_add (x : string) (s : list string) : list string :=
  if in_dec string_dec x s then s else s ++ [x].

(** [l[i] = v] for [i] in range. *)
Fixpoint list_set {A : Type} (l : list A) (i : nat) (v : A) : list A :=
  match l, i with
  | [], _ => []
  | _ :: r, O => v :: r
  | x :: r, S i' => x :: list_set r i' v
  end.

(** [n, n - 1, ...], [k] numbers. *)
Fixpoint countdown (n k : nat) : list nat :=
  match k with
  | O => []
  | S k' => n :: countdown (n - 1) k'
  end.

(** What the pool loop of [random.sample] selects from a pool of [n] live
    slots when its draws are [js]: the element at each drawn slot, whose
    place the last live element then takes. *)
Fixpoint pool_pick {A : Type} (pool : list A) (n : nat) (js : list nat) : list A :=
  match js with
  | [] => []
  | j :: js' =>
      match nth_error pool j, nth_error pool (n - 1) with
      | Some x, Some y => x :: pool_pick (list_set pool j y) (n - 1) js'
      | _, _ => []
      end
  end.

(** What [random.shuffle] makes of [x] when its draws for the slots [i],
    [i - 1], ..., 1 are [js]: each slot is swapped with the drawn one. *)
Fixpoint fisher_yates {A : Type} (i : nat) (js : list nat) (x : list A) : list A :=
  match i, js with
  | S i', j :: js' =>
      match nth_error x i, nth_error x j with
      | Some xi, Some xj => fisher_yates i' js' (list_set (list_set x i xj) j xi)
      | _, _ => x
      end
  | _, _ => x
  end.

(** [unique_emails]: the slug and address derived from one name. *)
Definition slug_of {P : Runtime} (name : string) : string :=
  replace "," "" (replace "-" "" (replace "&" "and" (replace " " "" (lower name)))).

Definition email_of_name {P : Runtime} (name : string) : string :=
  let slug := slug_of name in
  "info@" ++ slug ++ ".com".



Definition unique_emails {P : Runtime} (names : list string) : list string :=
  map email_of_name names.

(** The first key of [property_type_features] that occurs in the name. *)
Definition property_type_of (property_name : string) : string :=
  match find (fun ptype => contains ptype property_name) (keys property_type_features) with
  | Some ptype => ptype
  | None => "Hotel"
  end.

Definition opening_lines {P : Runtime} (property_name location : string) : list string :=
  [ "Discover the perfect blend of comfort and luxury at " ++ property_name ++ ".";
    "Experience exceptional hospitality at " ++ property_name ++ ".";
    "Welcome to " ++ property_name ++ ", where comfort meets elegance.";
    "Nestled in a prime " ++ lower location ++ " location, " ++ property_name ++ " offers an unforgettable experience.";
    property_name ++ " provides the ideal escape for discerning travelers." ].

Definition feature_text_of (all_features : list string) : string :=
  match all_features with
  | f0 :: f1 :: f2 :: rest =>
      "Enjoy " ++ f0 ++ ", " ++ f1 ++ ", and " ++ f2 ++
      match rest with
      | [] => ""
      | _ => ", along with " ++ join ", " rest
      end
  | _ => "Experience " ++ join " and " all_features
  end.

Definition locale_of (country : string) : locale :=
  if String.eqb country "USA" then en_US
  else if String.eqb country "Canada" then en_CA
  else if String.eqb country "Mexico" then es_MX
  else en_US.

(** *** The report printed after the dump (lines 269-277) *)

(** [len([p for p in properties if p['propertyCountry'] == country])] *)
Definition count_country {PF : PyFloat} (country : string)
    (properties : list property) : nat :=
  List.length (filter (fun p => String.eqb (propertyCountry p) country) properties).

(** The lines printed, in order, and the exception that ended the
    printing, if any: [properties[0]] raises on an empty corpus, after the
    first five lines are out. *)
Definition report {PF : PyFloat} (properties : list property) :
    list string * option exn :=
  let summary :=
    [ "Generated " ++ str_of_nat (List.length properties) ++ " properties with descriptions:";
      "- USA properties: " ++ str_of_nat (count_country "USA" properties);
      "- Canada properties: " ++ str_of_nat (count_country "Canada" properties);
      "- Mexico properties: " ++ str_of_nat (count_country "Mexico" properties);
      String "010" "Sample description:" ] in
  match nth_error properties 0 with
  | Some p0 =>
      let sample_lines :=
        [ "Property: " ++ propertyName p0;
          "Description: " ++ propertyDescription p0 ] in
      (List.app summary sample_lines, None)
  | None => (summary, Some IndexError)
  end.

(** The characters of a string, for statements about what a string
    holds. *)
Definition chars (s : string) : list ascii := list_ascii_of_string s.

Definition is_upper (c : ascii) : bool :=
  ((65 <=? nat_of_ascii c)%nat && (nat_of_ascii c <=? 90)%nat)%bool.

(** [len(set(l)) == len(l)] on a list of strings. *)
Fixpoint nodupb (l : list string) : bool :=
  match l with
  | [] => true
  | x :: r => (negb (existsb (String.eqb x) r) && nodupb r)%bool
  end.

Section Model.

Context {PF : PyFloat} {R : RandomGen} {F : Faker} {P : Runtime} {J : JsonCodec}.

Fixpoint dumps (level : nat) (j : json) : string :=
  match j with
  | JInt z => str_of_Z z
  | JFloat x => float_repr x
  | JStr s => encode_basestring_ascii s
  | JList [] => "[]"
  | JList l =>
      "[" ++ newline_indent 2 (S level) ++
      (fix items (l : list json) : string :=
         match l with
         | [] => ""
         | x :: r =>
             dumps (S level) x ++
             match r with
             | [] => ""
             | _ => "," ++ newline_indent 2 (S level) ++ items r
             end
         end) l ++
      newline_indent 2 level ++ "]"
  | JDict [] => "{}"
  | JDict kv =>
      "{" ++ newline_indent 2 (S level) ++
      (fix items (l : list (string * json)) : string :=
         match l with
         | [] => ""
         | (k, v) :: r =>
             encode_basestring_ascii k ++ ": " ++ dumps (S level) v ++
             match r with
             | [] => ""
             | _ => "," ++ newline_indent 2 (S level) ++ items r
             end
         end) kv ++
      newline_indent 2 level ++ "}"
  end.

(** The interpreter state the script reads and writes: the two generators
    and the values [fake.unique] has handed out. *)
Record world : Type := {
  w_rng : rng;
  w_fk : fstate;
  w_seen : list string
}.

Definition M (A : Type) : Type := world -> outcome (A * world).

Definition ret {A : Type} (a : A) : M A := fun w => Ok (a, w).

Definition bind {A B : Type} (m : M A) (f : A -> M B) : M B :=
  fun w =>
    match m w with
    | Ok (a, w') => f a w'
    | Raise e => Raise e
    | OutOfFuel => OutOfFuel
    end.

Definition raise {A : Type} (e : exn) : M A := fun _ => Raise e.

Definition out_of_fuel {A : Type} : M A := fun _ => OutOfFuel.

End Model.

Notation "x <- m ;; k" := (bind m (fun x => k))
  (at level 61, m at next level, right associativity).
Notation "' pat <- m ;; k" := (bind m (fun x => match x with pat => k end))
  (at level 61, pat pattern, m at next level, right associativity).

Section Generator.

Context {PF : PyFloat} {R : RandomGen} {F : Faker} {P : Runtime} {J : JsonCodec}.

(** *** The [random] module *)

Definition randbelow_m (n : nat) : M nat :=
  fun w =>
    let (j, g) := randbelow n (w_rng w) in
    Ok (j, {| w_rng := g; w_fk := w_fk w; w_seen := w_seen w |}).

Definition random_m : M float :=
  fun w =>
    let (x, g) := random (w_rng w) in
    Ok (x, {| w_rng := g; w_fk := w_fk w; w_seen := w_seen w |}).

(** [seq[i]] *)
Definition index {A : Type} (l : list A) (i : nat) : M A :=
  match nth_error l i with
  | Some x => ret x
  | None => raise IndexError
  end.

(** [random.choice(seq)]: [seq[self._randbelow(len(seq))]] *)
Definition choice {A : Type} (l : list A) : M A :=
  match l with
  | [] => raise IndexError
  | _ => j <- randbelow_m (List.length l) ;; index l j
  end.

(** [random.randint(a, b)]: [a + self._randbelow(b - a + 1)] *)
Definition randint (a b : nat) : M nat :=
  if (b <? a)%nat then raise ValueError
  else j <- randbelow_m (b - a + 1) ;; ret (a + j)%nat.

(** [random.uniform(a, b)]: [a + (b - a) * self.random()] *)
Definition uniform (a b : float) : M float :=
  x <- random_m ;; ret (fadd a (fmul (fsub b a) x)).

(** [random.sample(population, k)], the pool branch, which CPython takes
    for populations of at most 21 elements (the tables here hold 5):
    [n] is the number of live pool slots, [n - i] in the library's loop. *)
Fixpoint sample_loop {A : Type} (k n : nat) (pool : list A) : M (list A) :=
  match k with
  | O => ret []
  | S k' =>
      j <- randbelow_m n ;;
      x <- index pool j ;;
      y <- index pool (n - 1) ;;
      rest <- sample_loop k' (n - 1) (list_set pool j y) ;;
      ret (x :: rest)
  end.

Definition sample {A : Type} (population : list A) (k : nat) : M (list A) :=
  if (List.length population <? k)%nat then raise ValueError
  else sample_loop k (List.length population) population.

(** [random.shuffle(x)]: for [i] from [len(x) - 1] down to 1, swap [x[i]]
    with [x[_randbelow(i + 1)]]. *)
Fixpoint shuffle_loop {A : Type} (i : nat) (x : list A) : M (list A) :=
  match i with
  | O => ret x
  | S i' =>
      j <- randbelow_m (S i) ;;
      xi <- index x i ;;
      xj <- index x j ;;
      shuffle_loop i' (list_set (list_set x i xj) j xi)
  end.

Definition shuffle {A : Type} (x : list A) : M (list A) :=
  shuffle_loop (List.length x - 1) x.

(** The draws [_randbelow(n)] for the numbers [n] of a list, in order, each
    on the generator state the one before left. *)
Fixpoint draw_sequence (ns : list nat) (g : rng) : list nat * rng :=
  match ns with
  | [] => ([], g)
  | n :: ns' =>
      let (j, g1) := randbelow n g in
      let (js, g2) := draw_sequence ns' g1 in
      (j :: js, g2)
  end.

(** *** Faker *)

Definition fake_unique_company : M string :=
  fun w =>
    match unique_company (w_seen w) (w_fk w) with
    | Some (c, f) => Ok (c, {| w_rng := w_rng w; w_fk := f; w_seen := c :: w_seen w |})
    | None => Raise UniquenessException
    end.

Definition faker_call (gen : fstate -> string * fstate) : M string :=
  fun w =>
    let (s, f) := gen (w_fk w) in
    Ok (s, {| w_rng := w_rng w; w_fk := f; w_seen := w_seen w |}).

(** *** [generate_property_description] *)

Definition generate_property_description (property_name location country : string) : M string :=
  let property_type := property_type_of property_name in
  let amenities :=
    dict_get location_amenities location
      ["scenic views"; "comfortable accommodations"; "friendly service"] in
  let type_features :=
    dict_get property_type_features property_type
      ["quality accommodations"; "excellent service"] in
  opening <- choice (opening_lines property_name location) ;;
  let location_desc :=
    dict_get location_descriptions location
      ("in a beautiful " ++ lower location ++ " setting") in
  selected_amenities <- sample amenities (Nat.min 4 (List.length amenities)) ;;
  selected_features <- sample type_features (Nat.min 3 (List.length type_features)) ;;
  all_features <- shuffle (selected_amenities ++ selected_features) ;;
  let feature_text := feature_text_of all_features in
  let closing :=
    dict_get country_closings country "ensuring a memorable stay for every guest." in
  ret (opening ++ " Located " ++ location_desc ++
       ", our property combines modern comfort with local charm. " ++
       feature_text ++ ", " ++ closing).

(** *** [unique_property_names] *)

(** The [while len(names) < n] loop, at most [fuel] iterations. *)
Fixpoint names_loop (fuel n : nat) (names : list string) : M (list string) :=
  if (List.length names <? n)%nat then
    match fuel with
    | O => out_of_fuel
    | S fuel' =>
        company <- fake_unique_company ;;
        suffix <- choice name_suffixes ;;
        names_loop fuel' n (set_add (company ++ " " ++ suffix) names)
    end
  else ret names.

Definition unique_property_names (fuel n : nat) : M (list string) :=
  names <- names_loop fuel n [] ;;
  ret (set_iter names).

(** *** [get_country_specific_data] *)

Definition get_country_specific_data (country : string) : M (locale * list string) :=
  let fake_locale := locale_of country in
  match dict_lookup countries_states country with
  | Some states => ret (fake_locale, states)
  | None => raise KeyError
  end.

(** *** The main loop *)

(** One iteration of [for i in range(1000)]. *)
Definition make_property (property_names property_emails : list string) (i : nat) : M property :=
  country <- choice countries ;;
  ' (fake_locale, states) <- get_country_specific_data country ;;
  state <- choice states ;;
  city_ <- faker_call (city fake_locale) ;;
  address_ <- faker_call (address fake_locale) ;;
  phone <- faker_call (phone_number fake_locale) ;;
  location <- choice locations ;;
  miles <- randint 2 30 ;;
  airport_city <- faker_call (city fake_locale) ;;
  price_ <- uniform (cents 7500) (cents 75000) ;;
  let price := round2 price_ in
  rate <- uniform (cents 10) (cents 20) ;;
  let commission := round2 (fmul price rate) in
  cancellation <- choice cancellation_policies ;;
  name <- index property_names i ;;
  description <- generate_property_description name location country ;;
  email <- index property_emails i ;;
  ret {| id := Z.of_nat i + 1;
         propertyName := name;
         propertyDescription := description;
         propertyLocation := location;
         propertyCity := city_;
         propertyState := state;
         propertyCountry := country;
         propertyAddress := replace "010" ", " address_;
         propertyPhoneNumber := phone;
         propertyEmailAddress := email;
         propertyAirportProximity :=
           str_of_nat miles ++ " miles from " ++ airport_city ++ " International Airport";
         propertyPricePerNight := price;
         propertyCommissionAmount := commission;
         propertyCancellationPenalty := cancellation |}.

Fixpoint properties_loop (property_names property_emails : list string)
    (range : list nat) (properties : list property) : M (list property) :=
  match range with
  | [] => ret properties
  | i :: range' =>
      p <- make_property property_names property_emails i ;;
      properties_loop property_names property_emails range' (properties ++ [p])
  end.

(** The script up to the end of the loop, for [n] records. *)
Definition generate (fuel n : nat) : M (list property) :=
  property_names <- unique_property_names fuel n ;;
  let property_emails := unique_emails property_names in
  properties_loop property_names property_emails (seq 0 n) [].

Definition data_of (properties : list property) : json :=
  JDict [("properties", JList (map json_of_property properties))].

(** The files the script writes: path and content. *)
Definition script (fuel n : nat) : M (list (string * string)) :=
  properties <- generate fuel n ;;
  ret [("propertyFiles.json", dumps 0 (data_of properties))].

Definition main (fuel : nat) : M (list (string * string)) := script fuel 1000.

End Generator.

(** ** Reading decimal numerals and fixed text *)

Definition is_digit (c : ascii) : bool :=
  ((48 <=? nat_of_ascii c)%nat && (nat_of_ascii c <=? 57)%nat)%bool.

Definition digit_value (c : ascii) : nat := (nat_of_ascii c - 48)%nat.

(** The number the leading digits of [s] continue [acc] to, and the rest. *)
Fixpoint read_digits (s : string) (acc : nat) : nat * string :=
  match s with
  | String c r =>
      if is_digit c then read_digits r (10 * acc + digit_value c)%nat else (acc, s)
  | EmptyString => (acc, s)
  end.

Definition read_nat (s : string) : option (nat * string) :=
  match s with
  | String c _ => if is_digit c then Some (read_digits s 0) else None
  | EmptyString => None
  end.

(** [s] without its prefix [p], when it starts with it. *)
Fixpoint strip_prefix (p s : string) : option string :=
  match p with
  | EmptyString => Some s
  | String a p' =>
      match s with
      | String b s' => if Ascii.eqb a b then strip_prefix p' s' else None
      | EmptyString => None
      end
  end.

Definition read_int (s : string) : option (Z * string) :=
  match strip_prefix "-" s with
  | Some r =>
      match read_nat r with
      | Some (n, r') => Some ((- Z.of_nat n)%Z, r')
      | None => None
      end
  | None =>
      match read_nat s with
      | Some (n, r') => Some (Z.of_nat n, r')
      | None => None
      end
  end.

(** ** Reading the document back

    What [json.load] makes of the file, for a document of the shape the
    script writes: one object with the key "properties", holding a list of
    objects with the fourteen record fields in the order of the dict
    literal.  Text of any other shape is not read. *)

Section Reader.

Context {PF : PyFloat} {J : JsonCodec}.

Definition obind {A B : Type} (o : option A) (f : A -> option B) : option B :=
  match o with
  | Some a => f a
  | None => None
  end.

Notation "x <-? o ;; k" := (obind o (fun x => k))
  (at level 61, o at next level, right associativity).
Notation "' pat <-? o ;; k" := (obind o (fun x => match x with pat => k end))
  (at level 61, pat pattern, o at next level, right associativity).

(** A key, the colon and the space after it. *)
Definition parse_key (k s : string) : option string :=
  ' (k', s) <-? scan_string s ;;
  if String.eqb k' k then strip_prefix ": " s else None.

Definition parse_int_field (k s : string) : option (Z * string) :=
  s <-? parse_key k s ;; read_int s.

Definition parse_string_field (k s : string) : option (string * string) :=
  s <-? parse_key k s ;; scan_string s.

Definition parse_float_field (k s : string) : option (float * string) :=
  s <-? parse_key k s ;; scan_float s.

(** The separator between the members of an object or list at nesting
    depth [level]. *)
Definition separator (level : nat) : string := "," ++ newline_indent 2 level.

(** One record, written at nesting depth 2. *)
Definition parse_property (s : string) : option (property * string) :=
  s <-? strip_prefix ("{" ++ newline_indent 2 3) s ;;
  ' (i, s) <-? parse_int_field "id" s ;;
  s <-? strip_prefix (separator 3) s ;;
  ' (name, s) <-? parse_string_field "propertyName" s ;;
  s <-? strip_prefix (separator 3) s ;;
  ' (description, s) <-? parse_string_field "propertyDescription" s ;;
  s <-? strip_prefix (separator 3) s ;;
  ' (location, s) <-? parse_string_field "propertyLocation" s ;;
  s <-? strip_prefix (separator 3) s ;;
  ' (city_, s) <-? parse_string_field "propertyCity" s ;;
  s <-? strip_prefix (separator 3) s ;;
  ' (state, s) <-? parse_string_field "propertyState" s ;;
  s <-? strip_prefix (separator 3) s ;;
  ' (country, s) <-? parse_string_field "propertyCountry" s ;;
  s <-? strip_prefix (separator 3) s ;;
  ' (address_, s) <-? parse_string_field "propertyAddress" s ;;
  s <-? strip_prefix (separator 3) s ;;
  ' (phone, s) <-? parse_string_field "propertyPhoneNumber" s ;;
  s <-? strip_prefix (separator 3) s ;;
  ' (email, s) <-? parse_string_field "propertyEmailAddress" s ;;
  s <-? strip_prefix (separator 3) s ;;
  ' (airport, s) <-? parse_string_field "propertyAirportProximity" s ;;
  s <-? strip_prefix (separator 3) s ;;
  ' (price, s) <-? parse_float_field "propertyPricePerNight" s ;;
  s <-? strip_prefix (separator 3) s ;;
  ' (commission, s) <-? parse_float_field "propertyCommissionAmount" s ;;
  s <-? strip_prefix (separator 3) s ;;
  ' (cancellation, s) <-? parse_string_field "propertyCancellationPenalty" s ;;
  s <-? strip_prefix (newline_indent 2 2 ++ "}") s ;;
  Some ({| id := i;
           propertyName := name;
           propertyDescription := description;
           propertyLocation := location;
           propertyCity := city_;
           propertyState := state;
           propertyCountry := country;
           propertyAddress := address_;
           propertyPhoneNumber := phone;
           propertyEmailAddress := email;
           propertyAirportProximity := airport;
           propertyPricePerNight := price;
           propertyCommissionAmount := commission;
           propertyCancellationPenalty := cancellation |}, s).

(** The records of a non-empty list, up to the one that no comma
    follows; [fuel] bounds their number. *)
Fixpoint parse_properties (fuel : nat) (s : string) : option (list property * string) :=
  match fuel with
  | O => None
  | S fuel' =>
      ' (p, s) <-? parse_property s ;;
      match strip_prefix (separator 2) s with
      | Some s' =>
          ' (ps, s'') <-? parse_properties fuel' s' ;;
          Some (p :: ps, s'')
      | None => Some ([p], s)
      end
  end.

Definition parse_document (s : string) : option (list property) :=
  s <-? strip_prefix ("{" ++ newline_indent 2 1) s ;;
  s <-? parse_key "properties" s ;;
  match strip_prefix "[]" s with
  | Some s' =>
      s' <-? strip_prefix (newline_indent 2 0 ++ "}") s' ;;
      match s' with
      | EmptyString => Some []
      | _ => None
      end
  | None =>
      s <-? strip_prefix ("[" ++ newline_indent 2 2) s ;;
      ' (ps, s) <-? parse_properties (String.length s) s ;;
      s <-? strip_prefix (newline_indent 2 1 ++ "]" ++ newline_indent 2 0 ++ "}") s ;;
      match s with
      | EmptyString => Some ps
      | _ => None
      end
  end.

End Reader.

(** ** Concrete libraries

    Instances of the interfaces on which the generator can be run: floats
    without rounding error and the IEEE 754 doubles, a counter-driven
    [random], a Faker whose values are numbered, two set iteration orders
    and a small JSON codec. *)

(** Floats that stand for themselves: every operation is exact, and
    [round(x, 2)] rounds half to even. *)
Definition ExactFloat : PyFloat := {|
  float := Q;
  finite := fun _ => true;
  value := fun x => x;
  cents := fun k => (k # 100)%Q;
  fadd := Qplus;
  fsub := Qminus;
  fmul := Qmult;
  round2 := fun x => (round_half_even (x * 100) # 100)%Q
|}.

(** The rational a finite double stands for. *)
Definition value64 (x : PrimFloat.float) : Q :=
  match Prim2SF x with
  | S754_finite s m e =>
      let n := if s then Zneg m else Zpos m in
      match e with
      | Zneg p => Qmake n (2 ^ p)%positive
      | _ => inject_Z (n * 2 ^ e)
      end
  | _ => 0%Q
  end.

(** [float(z)] for an integer below 2^63 in magnitude. *)
Definition of_Z64 (z : Z) : PrimFloat.float :=
  match z with
  | Zneg p => PrimFloat.opp (PrimFloat.of_uint63 (Uint63.of_Z (Zpos p)))
  | _ => PrimFloat.of_uint63 (Uint63.of_Z z)
  end.

(** The double nearest to [k / 100]: both operands are exact and the
    division rounds correctly, as reading the decimal literal does. *)
Definition cents64 (k : Z) : PrimFloat.float :=
  PrimFloat.div (of_Z64 k) (of_Z64 100).

(** CPython's [round(x, 2)]: the exact value of the double is rounded half
    to even to two decimal places, and the double nearest to that decimal
    is returned, with the sign of [x] when it is a zero.  Infinities and
    NaN round to themselves, and so does a double of magnitude 2^46 or
    more: its neighbours are more than a cent away. *)
Definition round2_64 (x : PrimFloat.float) : PrimFloat.float :=
  if (PrimFloat.is_finite x && (PrimFloat.abs x <? 0x1p46)%float)%bool then
    let k := round_half_even (value64 x * 100)%Q in
    if ((k =? 0)%Z && PrimFloat.get_sign x)%bool then (-0)%float else cents64 k
  else x.

(** The kernel's binary64 floats, round to nearest even. *)
Definition Binary64 : PyFloat := {|
  float := PrimFloat.float;
  finite := PrimFloat.is_finite;
  value := value64;
  cents := cents64;
  fadd := PrimFloat.add;
  fsub := PrimFloat.sub;
  fmul := PrimFloat.mul;
  round2 := round2_64
|}.

Definition ToyRandom : @RandomGen ExactFloat := {|
  rng := nat;
  randbelow := fun n g => (g mod n, (g * 31 + 7) mod 1009)%nat;
  random := fun g => ((Z.of_nat (g mod 1000) # 1000)%Q : @float ExactFloat,
                      ((g * 17 + 5) mod 1009)%nat)
|}.

(** The longest string of a list: one character more is in none of them. *)
Definition longest (l : list string) : string :=
  fold_right (fun s acc => if (String.length acc <? String.length s)%nat then s else acc) "" l.

Definition toy_unique_company (seen : list string) (f : nat) : option (string * nat) :=
  let c := "Acme " ++ str_of_nat f in
  Some (if in_dec string_dec c seen then String "Z" (longest seen) else c, S f).

Definition ToyFaker : Faker := {|
  fstate := nat;
  unique_company := toy_unique_company;
  city := fun _ f => ("Springfield " ++ str_of_nat f, S f);
  address := fun _ f => (str_of_nat f ++ " Main Street" ++ String "010" "Springfield", S f);
  phone_number := fun _ f => ("555-" ++ str_of_nat f, S f)
|}.

(** Iteration in insertion order. *)
Definition ToyRuntime : Runtime := {|
  set_iter := fun l => l;
  lower := ascii_lower
|}.

(** Iteration in the opposite order: the same interpreter with another
    hash salt. *)
Definition ToyRuntimeRev : Runtime := {|
  set_iter := fun l => rev l;
  lower := ascii_lower
|}.

(** *** A codec for [ExactFloat]

    A float that is a decimal with two places is written as
    [float.__repr__] writes such a value (75.0, 488.1, 64.38); any other as
    numerator, "/" and denominator.  A string is written between quotes,
    with a backslash before each quote and each backslash, as
    [encode_basestring_ascii] writes printable ASCII text. *)

(** The digit of a number below ten. *)
Definition digit_char (n : nat) : ascii := ascii_of_nat (48 + n).

(** A non-negative decimal with two places, as [repr] writes it: 75.0,
    488.1, 64.38. *)
Definition toy_decimal (m : nat) : string :=
  str_of_nat (m / 100) ++ "." ++
  String (digit_char ((m / 10) mod 10))
    (if (m mod 10 =? 0)%nat then "" else String (digit_char (m mod 10)) "").

Definition toy_unsigned_repr (m : nat) (d : positive) : string :=
  if (d =? 100)%positive then toy_decimal m
  else str_of_nat m ++ "/" ++ str_of_nat (Pos.to_nat d).

Definition toy_float_repr (q : Q) : string :=
  (if (Qnum q <? 0)%Z then "-" else "") ++ toy_unsigned_repr (Z.abs_nat (Qnum q)) (Qden q).

Definition toy_scan_unsigned (s : string) : option (nat * positive * string) :=
  match read_nat s with
  | Some (a, String c r) =>
      if Ascii.eqb c "." then
        match r with
        | String d1 r1 =>
            if is_digit d1 then
              match r1 with
              | String d2 r2 =>
                  if is_digit d2
                  then Some ((100 * a + 10 * digit_value d1 + digit_value d2)%nat,
                             100%positive, r2)
                  else Some ((100 * a + 10 * digit_value d1)%nat, 100%positive, r1)
              | EmptyString => Some ((100 * a + 10 * digit_value d1)%nat, 100%positive, r1)
              end
            else None
        | EmptyString => None
        end
      else if Ascii.eqb c "/" then
        match read_nat r with
        | Some (S d, r') => Some (a, Pos.of_nat (S d), r')
        | _ => None
        end
      else None
  | _ => None
  end.

Definition toy_scan_float (s : string) : option (Q * string) :=
  match strip_prefix "-" s with
  | Some r =>
      match toy_scan_unsigned r with
      | Some (m, d, r') => Some (Qmake (- Z.of_nat m) d, r')
      | None => None
      end
  | None =>
      match toy_scan_unsigned s with
      | Some (m, d, r') => Some (Qmake (Z.of_nat m) d, r')
      | None => None
      end
  end.

Fixpoint toy_escape (s : string) : string :=
  match s with
  | EmptyString => EmptyString
  | String c r =>
      if (Ascii.eqb c "034" || Ascii.eqb c "\")%bool
      then String "\" (String c (toy_escape r))
      else String c (toy_escape r)
  end.

Definition toy_encode (s : string) : string :=
  String "034" (toy_escape s ++ String "034" "").

(** The text up to the closing quote, unescaped, and what follows it. *)
Fixpoint toy_unescape (s : string) : option (string * string) :=
  match s with
  | EmptyString => None
  | String c r =>
      if Ascii.eqb c "034" then Some (EmptyString, r)
      else if Ascii.eqb c "\" then
        match r with
        | String d r' =>
            match toy_unescape r' with
            | Some (v, rest) => Some (String d v, rest)
            | None => None
            end
        | EmptyString => None
        end
      else
        match toy_unescape r with
        | Some (v, rest) => Some (String c v, rest)
        | None => None
        end
  end.

Definition toy_scan_string (s : string) : option (string * string) :=
  match s with
  | String c r => if Ascii.eqb c "034" then toy_unescape r else None
  | EmptyString => None
  end.

Definition ToyCodec : @JsonCodec ExactFloat := {|
  float_repr := toy_float_repr : @float ExactFloat -> string;
  scan_float := toy_scan_float : string -> option (@float ExactFloat * string);
  encode_basestring_ascii := toy_encode;
  scan_string := toy_scan_string
|}.

Definition toy_world : @world ExactFloat ToyRandom ToyFaker :=
  {| w_rng := 1234%nat : @rng ExactFloat ToyRandom;
     w_fk := 1234%nat : @fstate ToyFaker; w_seen := [] |}.

(** A generator on the doubles whose first [random()] is 2^-16, which is
    2^37 / 2^53, and whose later ones are 0.0: the first price drawn is
    [round(75.010299..., 2)]. *)
Definition CentRandom : @RandomGen Binary64 := {|
  rng := nat;
  randbelow := fun _ g => (0%nat, g);
  random := fun g =>
    (match g with
     | O => 0x1p-16%float
     | _ => 0%float
     end : @float Binary64, S g)
|}.

Definition cent_world : @world Binary64 CentRandom ToyFaker :=
  {| w_rng := 0%nat : @rng Binary64 CentRandom;
     w_fk := 0%nat : @fstate ToyFaker; w_seen := [] |}.

(** The records of a run, or none when it did not finish. *)
Definition records_of {PF : PyFloat} {R : RandomGen} {F : Faker}
    (o : outcome (list property * @world PF R F)) : list property :=
  match o with
  | Ok (l, _) => l
  | _ => []
  end.

(** * Properties of the generator *)

(** ** The monad *)

Section Proofs.

Context {PF : PyFloat} {R : RandomGen} {F : Faker} {P : Runtime} {J : JsonCodec}.

(** What the libraries document of their generators: [_randbelow(n)] is
    below [n], and [random()] is a finite float in the half-open unit
    interval. *)
Hypothesis randbelow_lt :
  forall n g, (0 < n)%nat -> (fst (randbelow n g) < n)%nat.
Hypothesis random_unit :
  forall g, finite (fst (random g)) = true /\
            (0 <= value (fst (random g)))%Q /\ (value (fst (random g)) < 1)%Q.

(** A set is iterated once over each of its elements. *)
Hypothesis set_iter_perm :
  forall l, Permutation (set_iter l) l.

(** [fake.unique] never hands out a value twice. *)
Hypothesis unique_company_fresh :
  forall seen f c f', unique_company seen f = Some (c, f') -> ~ In c seen.

(** Python's [str.lower] on ASCII text. *)
Hypothesis lower_ascii_text :
  forall s, is_ascii s = true -> lower s = ascii_lower s.

Lemma string_app_assoc (a b c : string) : (a ++ b) ++ c = a ++ b ++ c.
Proof. induction a as [ | x a IH]; cbn; [reflexivity | now rewrite IH]. Qed.

Lemma bind_Ok {A B : Type} (m : M A) (f : A -> M B) (w w' : world) (b : B) :
  bind m f w = Ok (b, w') ->
  exists a w1, m w = Ok (a, w1) /\ f a w1 = Ok (b, w').
Proof.
  unfold bind. destruct (m w) as [[a w1] | e | ]; try discriminate.
  intros H. exists a, w1. split; [reflexivity | exact H].
Qed.

Lemma ret_Ok {A : Type} (a b : A) (w w' : world) :
  ret a w = Ok (b, w') -> b = a /\ w' = w.
Proof. unfold ret. intros H. inversion H. split; reflexivity. Qed.

Lemma index_Ok {A : Type} (l : list A) (i : nat) (w w' : world) (x : A) :
  index l i w = Ok (x, w') -> nth_error l i = Some x /\ w' = w.
Proof.
  unfold index. destruct (nth_error l i) as [y | ]; [ | discriminate].
  intros H. apply ret_Ok in H. destruct H as [-> ->]. split; reflexivity.
Qed.

Lemma randbelow_m_Ok (n : nat) (w w' : world) (j : nat) :
  randbelow_m n w = Ok (j, w') ->
  exists g, randbelow n (w_rng w) = (j, g) /\
            w' = {| w_rng := g; w_fk := w_fk w; w_seen := w_seen w |}.
Proof.
  unfold randbelow_m. destruct (randbelow n (w_rng w)) as [j0 g].
  intros H. inversion H. subst. exists g. split; reflexivity.
Qed.

Lemma choice_Ok {A : Type} (l : list A) (w w' : world) (x : A) :
  choice l w = Ok (x, w') ->
  exists j g, randbelow (List.length l) (w_rng w) = (j, g) /\
              nth_error l j = Some x /\
              w' = {| w_rng := g; w_fk := w_fk w; w_seen := w_seen w |}.
Proof.
  unfold choice. destruct l as [ | a l]; [discriminate | ].
  intros H. apply bind_Ok in H. destruct H as (j & w1 & Hj & Hx).
  apply randbelow_m_Ok in Hj. destruct Hj as (g & Hg & ->).
  apply index_Ok in Hx. destruct Hx as [Hx ->].
  exists j, g. repeat split; assumption.
Qed.

Lemma choice_In {A : Type} (l : list A) (w w' : world) (x : A) :
  choice l w = Ok (x, w') -> In x l.
Proof.
  intros H. apply choice_Ok in H. destruct H as (j & g & _ & Hx & _).
  eapply nth_error_In. exact Hx.
Qed.

Lemma randint_Ok (a b : nat) (w w' : world) (x : nat) :
  randint a b w = Ok (x, w') ->
  exists j g, randbelow (b - a + 1) (w_rng w) = (j, g) /\
              x = (a + j)%nat /\
              w' = {| w_rng := g; w_fk := w_fk w; w_seen := w_seen w |}.
Proof.
  unfold randint. destruct (b <? a)%nat; [discriminate | ].
  intros H. apply bind_Ok in H. destruct H as (j & w1 & Hj & Hx).
  apply randbelow_m_Ok in Hj. destruct Hj as (g & Hg & ->).
  apply ret_Ok in Hx. destruct Hx as [-> ->].
  exists j, g. repeat split; assumption.
Qed.

Lemma uniform_Ok (a b : float) (w w' : world) (x : float) :
  uniform a b w = Ok (x, w') ->
  exists r g, random (w_rng w) = (r, g) /\
              x = fadd a (fmul (fsub b a) r) /\
              w' = {| w_rng := g; w_fk := w_fk w; w_seen := w_seen w |}.
Proof.
  unfold uniform. intros H. apply bind_Ok in H. destruct H as (r & w1 & Hr & Hx).
  unfold random_m in Hr. destruct (random (w_rng w)) as [r0 g] eqn:E.
  inversion Hr; subst. apply ret_Ok in Hx. destruct Hx as [-> ->].
  exists r, g. repeat split.
Qed.

Lemma faker_call_Ok (gen : fstate -> string * fstate) (w w' : world) (s : string) :
  faker_call gen w = Ok (s, w') ->
  exists f, gen (w_fk w) = (s, f) /\
            w' = {| w_rng := w_rng w; w_fk := f; w_seen := w_seen w |}.
Proof.
  unfold faker_call. destruct (gen (w_fk w)) as [s0 f].
  intros H. inversion H; subst. exists f. split; reflexivity.
Qed.

Lemma get_country_specific_data_Ok (country : string) (w w' : world)
    (fake_locale : locale) (states : list string) :
  get_country_specific_data country w = Ok ((fake_locale, states), w') ->
  fake_locale = locale_of country /\
  dict_lookup countries_states country = Some states /\ w' = w.
Proof.
  unfold get_country_specific_data.
  destruct (dict_lookup countries_states country) as [st | ]; [ | discriminate].
  intros H. apply ret_Ok in H. destruct H as [H ->]. inversion H; subst.
  repeat split.
Qed.

(** ** The main loop *)

Lemma properties_loop_Ok (Q : nat -> property -> Prop) (names emails : list string) :
  (forall i w p w', make_property names emails i w = Ok (p, w') -> Q i p) ->
  forall range acc w out w',
    properties_loop names emails range acc w = Ok (out, w') ->
    exists ps, out = (acc ++ ps)%list /\ Forall2 Q range ps.
Proof.
  intros HQ. induction range as [ | i range IH]; intros acc w out w' H; simpl in H.
  - apply ret_Ok in H. destruct H as [-> _]. exists []. split.
    + now rewrite app_nil_r.
    + constructor.
  - apply bind_Ok in H. destruct H as (p & w1 & Hp & H).
    apply IH in H. destruct H as (ps & -> & Hps).
    exists (p :: ps). split.
    + now rewrite <- app_assoc.
    + constructor; [eapply HQ; exact Hp | exact Hps].
Qed.

(** A finished run: the names come from [unique_property_names], and every
    record is the result of one loop iteration at its index. *)
Lemma generate_Ok (fuel n : nat) (w w' : world) (props : list property) :
  generate fuel n w = Ok (props, w') ->
  exists names w0,
    unique_property_names fuel n w = Ok (names, w0) /\
    forall Q : nat -> property -> Prop,
      (forall i w1 p w2,
          make_property names (unique_emails names) i w1 = Ok (p, w2) -> Q i p) ->
      Forall2 Q (seq 0 n) props.
Proof.
  unfold generate. intros H. apply bind_Ok in H. destruct H as (names & w0 & Hn & H).
  exists names, w0. split; [exact Hn | ]. intros Q HQ.
  eapply properties_loop_Ok in H; [ | exact HQ].
  destruct H as (ps & -> & Hps). exact Hps.
Qed.

Lemma Forall2_Forall_r {A B : Type} (Q : B -> Prop) (l : list A) (l' : list B) :
  Forall2 (fun _ b => Q b) l l' -> Forall Q l'.
Proof. induction 1; constructor; assumption. Qed.

Lemma Forall2_map_eq {A B C : Type} (f : A -> C) (g : B -> C) (l : list A) (l' : list B) :
  Forall2 (fun a b => g b = f a) l l' -> map g l' = map f l.
Proof. induction 1; simpl; congruence. Qed.

(** Every record of a finished run satisfies what every iteration
    guarantees. *)
Lemma generate_Forall (Q : property -> Prop) :
  (forall names i w1 p w2,
      make_property names (unique_emails names) i w1 = Ok (p, w2) -> Q p) ->
  forall fuel n w props w',
    generate fuel n w = Ok (props, w') -> Forall Q props.
Proof.
  intros HQ fuel n w props w' H. apply generate_Ok in H.
  destruct H as (names & w0 & _ & H).
  eapply Forall2_Forall_r. apply H. intros i w1 p w2. apply HQ.
Qed.

(** One iteration, step by step: the draws in the order the loop body makes
    them, each on the interpreter state the one before left. *)
Lemma make_property_Ok (names emails : list string) (i : nat) (w w' : world) (p : property) :
  make_property names emails i w = Ok (p, w') ->
  exists country states state city_ address_ phone location miles airport_city
         price_ rate cancellation name description email
         w1 w2 w3 w4 w5 w6 w7 w8 w9 w10 w11,
    choice countries w = Ok (country, w1) /\
    dict_lookup countries_states country = Some states /\
    choice states w1 = Ok (state, w2) /\
    faker_call (city (locale_of country)) w2 = Ok (city_, w3) /\
    faker_call (address (locale_of country)) w3 = Ok (address_, w4) /\
    faker_call (phone_number (locale_of country)) w4 = Ok (phone, w5) /\
    choice locations w5 = Ok (location, w6) /\
    randint 2 30 w6 = Ok (miles, w7) /\
    faker_call (city (locale_of country)) w7 = Ok (airport_city, w8) /\
    uniform (cents 7500) (cents 75000) w8 = Ok (price_, w9) /\
    uniform (cents 10) (cents 20) w9 = Ok (rate, w10) /\
    choice cancellation_policies w10 = Ok (cancellation, w11) /\
    nth_error names i = Some name /\
    generate_property_description name location country w11 = Ok (description, w') /\
    nth_error emails i = Some email /\
    p = {| id := Z.of_nat i + 1;
           propertyName := name;
           propertyDescription := description;
           propertyLocation := location;
           propertyCity := city_;
           propertyState := state;
           propertyCountry := country;
           propertyAddress := replace "010" ", " address_;
           propertyPhoneNumber := phone;
           propertyEmailAddress := email;
           propertyAirportProximity :=
             str_of_nat miles ++ " miles from " ++ airport_city ++ " International Airport";
           propertyPricePerNight := round2 price_;
           propertyCommissionAmount := round2 (fmul (round2 price_) rate);
           propertyCancellationPenalty := cancellation |}.
Proof.
  unfold make_property. intros H.
  apply bind_Ok in H. destruct H as (country & w1 & E1 & H).
  apply bind_Ok in H. destruct H as ([fake_locale states] & w1' & E2 & H).
  apply get_country_specific_data_Ok in E2. destruct E2 as (-> & E2 & ->).
  apply bind_Ok in H. destruct H as (state & w2 & E3 & H).
  apply bind_Ok in H. destruct H as (city_ & w3 & E4 & H).
  apply bind_Ok in H. destruct H as (address_ & w4 & E5 & H).
  apply bind_Ok in H. destruct H as (phone & w5 & E6 & H).
  apply bind_Ok in H. destruct H as (location & w6 & E7 & H).
  apply bind_Ok in H. destruct H as (miles & w7 & E8 & H).
  apply bind_Ok in H. destruct H as (airport_city & w8 & E9 & H).
  apply bind_Ok in H. destruct H as (price_ & w9 & E10 & H).
  apply bind_Ok in H. destruct H as (rate & w10 & E11 & H).
  apply bind_Ok in H. destruct H as (cancellation & w11 & E12 & H).
  apply bind_Ok in H. destruct H as (name & w12 & E13 & H).
  apply index_Ok in E13. destruct E13 as [E13 ->].
  apply bind_Ok in H. destruct H as (description & w13 & E14 & H).
  apply bind_Ok in H. destruct H as (email & w14 & E15 & H).
  apply index_Ok in E15. destruct E15 as [E15 ->].
  apply ret_Ok in H. destruct H as [-> ->].
  exists country, states, state, city_, address_, phone, location, miles, airport_city,
    price_, rate, cancellation, name, description, email,
    w1, w2, w3, w4, w5, w6, w7, w8, w9, w10, w11.
  repeat (split; [assumption | ]). reflexivity.
Qed.

Lemma make_property_id (names emails : list string) (i : nat) (w w' : world) (p : property) :
  make_property names emails i w = Ok (p, w') -> id p = (Z.of_nat i + 1)%Z.
Proof.
  intros H. apply make_property_Ok in H.
  destruct H as (country & states & state & city_ & address_ & phone & location & miles &
    airport_city & price_ & rate & cancellation & name & description & email &
    w1 & w2 & w3 & w4 & w5 & w6 & w7 & w8 & w9 & w10 & w11 & H).
  decompose [and] H. subst p. reflexivity.
Qed.

(** ** Record identifiers *)

(** C5: across the corpus of [n] generated records, the [id] fields are
    exactly 1, 2, ..., n, in output order: one record per value, no gap and
    no repeat. *)
Theorem ids_are_one_to_n (fuel n : nat) (w w' : world) (props : list property) :
  generate fuel n w = Ok (props, w') ->
  map id props = map Z.of_nat (seq 1 n).
Proof.
  intros H. apply generate_Ok in H. destruct H as (names & w0 & _ & H).
  rewrite <- seq_shift, map_map.
  apply Forall2_map_eq with (f := fun i => Z.of_nat (S i)).
  apply H. intros i w1 p w2 Hp. apply make_property_id in Hp. lia.
Qed.

(** ** Country and subdivision *)

Lemma make_property_country (names emails : list string) (i : nat) (w w' : world) (p : property) :
  make_property names emails i w = Ok (p, w') ->
  exists j g1 states k g2,
    randbelow (List.length countries) (w_rng w) = (j, g1) /\
    nth_error countries j = Some (propertyCountry p) /\
    dict_lookup countries_states (propertyCountry p) = Some states /\
    randbelow (List.length states) g1 = (k, g2) /\
    nth_error states k = Some (propertyState p).
Proof.
  intros H. apply make_property_Ok in H.
  destruct H as (country & states & state & city_ & address_ & phone & location & miles &
    airport_city & price_ & rate & cancellation & name & description & email &
    w1 & w2 & w3 & w4 & w5 & w6 & w7 & w8 & w9 & w10 & w11 & H).
  destruct H as (E1 & E2 & E3 & _ & _ & _ & _ & _ & _ & _ & _ & _ & _ & _ & _ & ->).
  cbn [propertyCountry propertyState].
  apply choice_Ok in E1. destruct E1 as (j & g1 & Hj & Hc & ->).
  apply choice_Ok in E3. destruct E3 as (k & g2 & Hk & Hst & ->).
  cbn [w_rng] in Hk. exists j, g1, states, k, g2. repeat split; assumption.
Qed.

(** C10: the country of every generated record is "USA", "Canada" or
    "Mexico", the keys of the country table; no other value occurs. *)
Theorem country_is_a_table_key (fuel n : nat) (w w' : world) (props : list property) :
  generate fuel n w = Ok (props, w') ->
  Forall (fun p => propertyCountry p = "USA" \/ propertyCountry p = "Canada" \/
                   propertyCountry p = "Mexico") props /\
  keys countries_states = ["USA"; "Canada"; "Mexico"].
Proof.
  intros H. split; [ | reflexivity].
  eapply generate_Forall; [ | exact H].
  intros names i w1 p w2 Hp. apply make_property_country in Hp.
  destruct Hp as (j & g1 & states & k & g2 & _ & Hc & _).
  apply nth_error_In in Hc.
  destruct Hc as [Hc | [Hc | [Hc | []]]]; auto.
Qed.

(** C4: in every iteration the country is drawn first, by
    [_randbelow(len(countries))] on the generator state the iteration
    starts in; the state is then drawn by [_randbelow] over the length of
    that country's subdivision list on the generator state the first draw
    left.  So the record's state is a member of the list the table gives
    for the record's country. *)
Theorem state_belongs_to_country (fuel n : nat) (w w' : world) (props : list property) :
  generate fuel n w = Ok (props, w') ->
  Forall (fun p =>
    exists g j g1 states k g2,
      randbelow (List.length countries) g = (j, g1) /\
      nth_error countries j = Some (propertyCountry p) /\
      dict_lookup countries_states (propertyCountry p) = Some states /\
      randbelow (List.length states) g1 = (k, g2) /\
      nth_error states k = Some (propertyState p) /\
      In (propertyState p) states) props.
Proof.
  apply generate_Forall.
  intros names i w1 p w2 Hp. apply make_property_country in Hp.
  destruct Hp as (j & g1 & states & k & g2 & Hj & Hc & Hs & Hk & Hst).
  exists (w_rng w1), j, g1, states, k, g2. repeat split; try assumption.
  eapply nth_error_In. exact Hst.
Qed.

(** ** The e-mail address *)

Lemma make_property_name_email (names emails : list string) (i : nat) (w w' : world) (p : property) :
  make_property names emails i w = Ok (p, w') ->
  nth_error names i = Some (propertyName p) /\
  nth_error emails i = Some (propertyEmailAddress p).
Proof.
  intros H. apply make_property_Ok in H.
  destruct H as (country & states & state & city_ & address_ & phone & location & miles &
    airport_city & price_ & rate & cancellation & name & description & email &
    w1 & w2 & w3 & w4 & w5 & w6 & w7 & w8 & w9 & w10 & w11 & H).
  decompose [and] H. subst p. split; assumption.
Qed.

(** C6: the e-mail address of every generated record is derived from the
    record's own name: lower-case it, remove the spaces, write "and" for
    "&", remove "-" and ",", and put "info@" before and ".com" after.
    Deriving it again from the stored name gives the stored address. *)
Theorem email_derived_from_name (fuel n : nat) (w w' : world) (props : list property) :
  generate fuel n w = Ok (props, w') ->
  Forall (fun p =>
    propertyEmailAddress p =
      "info@" ++
      replace "," "" (replace "-" "" (replace "&" "and"
        (replace " " "" (lower (propertyName p))))) ++
      ".com") props.
Proof.
  apply generate_Forall.
  intros names i w1 p w2 Hp. apply make_property_name_email in Hp.
  destruct Hp as [Hn He]. unfold unique_emails in He.
  rewrite nth_error_map, Hn in He. cbn [option_map] in He. inversion He. reflexivity.
Qed.

(** ** Airport proximity *)

(** C9: the airport proximity of every generated record reads
    "<d> miles from <city> International Airport", where d = 2 + j for the
    draw j of [_randbelow(29)], so 2 <= d <= 30, <d> is written as the
    decimal numeral of d, the j-th of "2", "3", ..., "30", and <city> comes
    from a second call of the locale's city generator, made after the calls
    that gave the record's city, address and phone number. *)
Theorem airport_proximity_form (fuel n : nat) (w w' : world) (props : list property) :
  generate fuel n w = Ok (props, w') ->
  Forall (fun p =>
    exists d airport_city j g g' loc f0 f1 f2 f3 f4 address_ numeral,
      randbelow 29 g = (j, g') /\ d = (2 + j)%nat /\
      (2 <= d)%nat /\ (d <= 30)%nat /\
      propertyAirportProximity p =
        str_of_nat d ++ " miles from " ++ airport_city ++ " International Airport" /\
      city loc f0 = (propertyCity p, f1) /\
      address loc f1 = (address_, f2) /\
      phone_number loc f2 = (propertyPhoneNumber p, f3) /\
      city loc f3 = (airport_city, f4) /\
      nth_error miles_numerals j = Some numeral /\
      propertyAirportProximity p =
        numeral ++ " miles from " ++ airport_city ++ " International Airport") props.
Proof.
  apply generate_Forall.
  intros names i w0 p wn H. apply make_property_Ok in H.
  destruct H as (country & states & state & city_ & address_ & phone & location & miles &
    airport_city & price_ & rate & cancellation & name & description & email &
    w1 & w2 & w3 & w4 & w5 & w6 & w7 & w8 & w9 & w10 & w11 & H).
  destruct H as (_ & _ & _ & E4 & E5 & E6 & E7 & E8 & E9 & _ & _ & _ & _ & _ & _ & ->).
  cbn [propertyAirportProximity propertyCity propertyPhoneNumber].
  apply faker_call_Ok in E4. destruct E4 as (f1 & E4 & ->).
  apply faker_call_Ok in E5. destruct E5 as (f2 & E5 & ->).
  apply faker_call_Ok in E6. destruct E6 as (f3 & E6 & ->).
  apply choice_Ok in E7. destruct E7 as (j7 & g7 & _ & _ & ->).
  apply randint_Ok in E8. destruct E8 as (j & g' & E8 & -> & ->).
  apply faker_call_Ok in E9. destruct E9 as (f4 & E9 & _).
  cbn [w_rng w_fk] in *.
  pose proof (randbelow_lt 29 g7 ltac:(lia)) as Hj.
  change (30 - 2 + 1)%nat with 29%nat in E8. rewrite E8 in Hj. cbn [fst] in Hj.
  exists (2 + j)%nat, airport_city, j, g7, g', (locale_of country), (w_fk w2), f1, f2, f3, f4,
    address_, (str_of_nat (2 + j)).
  repeat split; try assumption; try lia.
  clear - Hj. do 29 (destruct j as [ | j]; [reflexivity | ]). lia.
Qed.

(** ** Rounding to cents *)

Lemma round_half_even_cases (q : Q) :
  (round_half_even q = Qfloor q /\ (q - inject_Z (Qfloor q) <= 1 # 2)%Q) \/
  (round_half_even q = (Qfloor q + 1)%Z /\ (1 # 2 <= q - inject_Z (Qfloor q))%Q).
Proof.
  unfold round_half_even.
  destruct (Qcompare_spec (q - inject_Z (Qfloor q)) (1 # 2)) as [E | L | G].
  - destruct (Z.even (Qfloor q)); [left | right];
      (split; [reflexivity | rewrite E; apply Qle_refl]).
  - left. split; [reflexivity | apply Qlt_le_weak, L].
  - right. split; [reflexivity | apply Qlt_le_weak, G].
Qed.


Lemma round_half_even_lower (q : Q) (k : Z) :
  (inject_Z k <= q)%Q -> (k <= round_half_even q)%Z.
Proof.
  intros H. apply Qfloor_resp_le in H. rewrite Qfloor_Z in H.
  destruct (round_half_even_cases q) as [[-> _] | [-> _]]; lia.
Qed.

Lemma round_half_even_upper (q : Q) (k : Z) :
  (q <= inject_Z k)%Q -> (round_half_even q <= k)%Z.
Proof.
  intros H. pose proof (Qfloor_le q) as Hlo.
  destruct (round_half_even_cases q) as [[-> _] | [-> Hc]].
  - rewrite Zle_Qle. lra.
  - assert (inject_Z (Qfloor q) < inject_Z k)%Q as Hlt by lra.
    rewrite <- Zlt_Qlt in Hlt. lia.
Qed.

Lemma round_half_even_monotone (x y : Q) :
  (x <= y)%Q -> (round_half_even x <= round_half_even y)%Z.
Proof.
  intros H. pose proof (Qfloor_resp_le _ _ H) as Hf.
  pose proof (Qfloor_le x) as Hx. pose proof (Qlt_floor x) as Hx'.
  pose proof (Qfloor_le y) as Hy. pose proof (Qlt_floor y) as Hy'.
  unfold round_half_even.
  destruct (Z.eq_dec (Qfloor x) (Qfloor y)) as [E | Hne].
  - rewrite <- E in *.
    destruct (Qcompare_spec (x - inject_Z (Qfloor x)) (1 # 2)) as [Ex | Lx | Gx];
      destruct (Qcompare_spec (y - inject_Z (Qfloor x)) (1 # 2)) as [Ey | Ly | Gy];
      try destruct (Z.even (Qfloor x)); try lia; exfalso; lra.
  - assert (Qfloor x + 1 <= Qfloor y)%Z by lia.
    destruct (Qcompare (x - inject_Z (Qfloor x)) (1 # 2));
      destruct (Qcompare (y - inject_Z (Qfloor y)) (1 # 2));
      try destruct (Z.even (Qfloor x)); try destruct (Z.even (Qfloor y)); lia.
Qed.


(** ** Price and commission *)

Hypothesis float_laws : ieee_laws.
Hypothesis float_constants : script_constants.

Lemma cents_small (k : Z) :
  (- (100000000) <= k <= 100000000)%Z -> small (cents k).
Proof.
  intros Hk. split; [apply (cents_finite float_laws); exact Hk | ].
  pose proof (cents_monotone float_laws (- (100000000)) k) as Hlo.
  pose proof (cents_monotone float_laws k 100000000) as Hhi.
  pose proof (cents_whole float_laws (- (1000000))) as Ea.
  pose proof (cents_whole float_laws 1000000) as Eb.
  change (100 * - (1000000))%Z with (- (100000000))%Z in Ea.
  change (100 * 1000000)%Z with 100000000%Z in Eb.
  change (inject_Z (- (1000000))) with (- (1000000))%Q in Ea.
  change (inject_Z 1000000) with 1000000%Q in Eb.
  split.
  - rewrite <- Ea; [ | lia]. apply Hlo; lia.
  - rewrite <- Eb; [ | lia]. apply Hhi; lia.
Qed.

(** Floats of the same value give sums of the same value. *)
Lemma fadd_value_eq (a x y : float) :
  small a -> small x -> small y ->
  (value x == value y)%Q -> (value (fadd a x) == value (fadd a y))%Q.
Proof.
  intros Ha Hx Hy E. apply Qle_antisym.
  - apply (fadd_monotone float_laws); try assumption. rewrite E. apply Qle_refl.
  - apply (fadd_monotone float_laws); try assumption. rewrite E. apply Qle_refl.
Qed.

(** [a + (b - a) * random()] stays between [a] and [a + (b - a)], both
    ends included: the product is rounded, and so is the sum. *)
Lemma uniform_between (a width r : float) :
  small a -> small width -> (0 <= value width)%Q ->
  (value (fadd a width) <= 1000000)%Q ->
  finite r = true -> (0 <= value r)%Q -> (value r < 1)%Q ->
  small (fadd a (fmul width r)) /\
  (value a <= value (fadd a (fmul width r)))%Q /\
  (value (fadd a (fmul width r)) <= value (fadd a width))%Q.
Proof.
  intros Ha Hw Hw0 Htop Hfin Hr0 Hr1.
  assert (small r) as Hr by (split; [exact Hfin | split; lra]).
  assert (small (cents 0)) as Hz by (apply cents_small; lia).
  assert (small (cents 100)) as Hu by (apply cents_small; lia).
  pose proof (cents_whole float_laws 0 ltac:(lia)) as Ez.
  pose proof (cents_whole float_laws 1 ltac:(lia)) as Eu.
  change (100 * 0)%Z with 0%Z in Ez. change (100 * 1)%Z with 100%Z in Eu.
  change (inject_Z 0) with 0%Q in Ez. change (inject_Z 1) with 1%Q in Eu.
  pose proof (fmul_zero float_laws width (cents 0) Hw Hz Ez) as Pz.
  pose proof (fmul_one float_laws width (cents 100) Hw Hu Eu) as Pu.
  assert (value (fmul width (cents 0)) <= value (fmul width r))%Q as Plo.
  { apply (fmul_monotone float_laws); try assumption. lra. }
  assert (value (fmul width r) <= value (fmul width (cents 100)))%Q as Phi.
  { apply (fmul_monotone float_laws); try assumption. lra. }
  destruct Hw as (Hwf & Hwlo & Hwhi).
  assert (small (fmul width (cents 0))) as Sz.
  { split; [apply (fmul_finite float_laws); [repeat split | ]; assumption | split; lra]. }
  assert (small (fmul width (cents 100))) as Su.
  { split; [apply (fmul_finite float_laws); [repeat split | ]; assumption | split; lra]. }
  assert (small (fmul width r)) as Sr.
  { split; [apply (fmul_finite float_laws); [repeat split | ]; assumption | split; lra]. }
  assert (small width) as Hw by (repeat split; assumption).
  pose proof (fadd_zero float_laws a (fmul width (cents 0)) Ha Sz Pz) as Az.
  pose proof (fadd_value_eq a (fmul width (cents 100)) width Ha Su Hw Pu) as Au.
  assert (value (fadd a (fmul width (cents 0))) <= value (fadd a (fmul width r)))%Q as Alo.
  { apply (fadd_monotone float_laws); assumption. }
  assert (value (fadd a (fmul width r)) <= value (fadd a (fmul width (cents 100))))%Q as Ahi.
  { apply (fadd_monotone float_laws); assumption. }
  destruct Ha as (Haf & Halo & Hahi).
  split; [ | split; lra].
  split; [ | split; lra].
  apply (fadd_finite float_laws); [repeat split | ]; assumption.
Qed.

(** The price before rounding lies in [75, 750]. *)
Lemma price_between (r : float) :
  finite r = true -> (0 <= value r)%Q -> (value r < 1)%Q ->
  let x := fadd (cents 7500) (fmul (fsub (cents 75000) (cents 7500)) r) in
  small x /\ (75 <= value x)%Q /\ (value x <= 750)%Q.
Proof.
  intros Hfin H0 H1 x.
  assert (small (cents 7500)) as Ha by (apply cents_small; lia).
  assert (small (cents 75000)) as Hb by (apply cents_small; lia).
  pose proof (price_width float_constants) as Ew.
  pose proof (price_top float_constants) as Et.
  pose proof (cents_whole float_laws 75 ltac:(lia)) as Ea.
  change (100 * 75)%Z with 7500%Z in Ea. change (inject_Z 75) with 75%Q in Ea.
  assert (small (fsub (cents 75000) (cents 7500))) as Hw.
  { split; [apply (fsub_finite float_laws); assumption | split; lra]. }
  destruct (uniform_between (cents 7500) (fsub (cents 75000) (cents 7500)) r)
    as (Hs & Hlo & Hhi); try assumption; try lra.
  split; [exact Hs | ]. unfold x. split; lra.
Qed.

(** The price is a decimal of 7500 to 75000 cents, read as a float. *)
Lemma price_cents (r : float) :
  finite r = true -> (0 <= value r)%Q -> (value r < 1)%Q ->
  exists k : Z,
    (7500 <= k <= 75000)%Z /\
    round2 (fadd (cents 7500) (fmul (fsub (cents 75000) (cents 7500)) r)) = cents k.
Proof.
  intros Hfin H0 H1.
  destruct (price_between r Hfin H0 H1) as (Hs & Hlo & Hhi).
  eexists. split; [ | apply (round2_spec float_laws); [exact Hs | lra]].
  split.
  - apply round_half_even_lower. change (inject_Z 7500) with 7500%Q. lra.
  - apply round_half_even_upper. change (inject_Z 75000) with 75000%Q. lra.
Qed.

Lemma cents_range (k lo hi : Z) :
  (- (1000000) <= lo)%Z -> (100 * lo <= k)%Z -> (k <= 100 * hi)%Z -> (hi <= 1000000)%Z ->
  small (cents k) /\ (inject_Z lo <= value (cents k))%Q /\ (value (cents k) <= inject_Z hi)%Q.
Proof.
  intros H1 H2 H3 H4.
  split; [apply cents_small; lia | ].
  rewrite <- (cents_whole float_laws lo) by lia.
  rewrite <- (cents_whole float_laws hi) by lia.
  split; apply (cents_monotone float_laws); lia.
Qed.

(** The rate lies between the floats [0.1] and [0.2], both included. *)
Lemma rate_between (r : float) :
  finite r = true -> (0 <= value r)%Q -> (value r < 1)%Q ->
  let rate := fadd (cents 10) (fmul (fsub (cents 20) (cents 10)) r) in
  small rate /\ (value (cents 10) <= value rate)%Q /\ (value rate <= value (cents 20))%Q.
Proof.
  intros Hfin H0 H1 rate.
  assert (small (cents 10)) as Ha by (apply cents_small; lia).
  assert (small (cents 20)) as Hb by (apply cents_small; lia).
  pose proof (rate_width float_constants) as [Ew0 Ew1].
  pose proof (rate_top float_constants) as Et.
  destruct (cents_range 20 0 1) as (_ & _ & Hb1); try lia.
  change (inject_Z 1) with 1%Q in Hb1.
  assert (small (fsub (cents 20) (cents 10))) as Hw.
  { split; [apply (fsub_finite float_laws); assumption | split; lra]. }
  destruct (uniform_between (cents 10) (fsub (cents 20) (cents 10)) r)
    as (Hs & Hlo & Hhi); try assumption; try lra.
  split; [exact Hs | ]. unfold rate. split; lra.
Qed.

(** A product of a price by a rate is a small positive float between the
    floats [7.5] and [150.0]. *)
Lemma commission_product (price rate : float) :
  small price -> (75 <= value price)%Q -> (value price <= 750)%Q ->
  small rate -> (value (cents 10) <= value rate)%Q -> (value rate <= value (cents 20))%Q ->
  small (fmul price rate) /\
  (value (cents 750) <= value (fmul price rate))%Q /\
  (value (fmul price rate) <= value (cents 15000))%Q.
Proof.
  intros Hp Hp1 Hp2 Hr Hr1 Hr2.
  destruct (cents_range 7500 75 75) as (Sa & Ea1 & Ea2); try lia.
  destruct (cents_range 75000 750 750) as (Sb & Eb1 & Eb2); try lia.
  destruct (cents_range 10 0 1) as (Sc & Ec1 & Ec2); try lia.
  destruct (cents_range 20 0 1) as (Sd & Ed1 & Ed2); try lia.
  destruct (cents_range 750 0 8) as (_ & Ee1 & _); try lia.
  destruct (cents_range 15000 150 150) as (_ & _ & Ef2); try lia.
  change (inject_Z 75) with 75%Q in *. change (inject_Z 750) with 750%Q in *.
  change (inject_Z 0) with 0%Q in *. change (inject_Z 1) with 1%Q in *.
  change (inject_Z 150) with 150%Q in *.
  pose proof (commission_floor float_constants) as Kf.
  pose proof (commission_ceiling float_constants) as Kc.
  assert (value (fmul (cents 7500) (cents 10)) <= value (fmul price (cents 10)))%Q as M1.
  { rewrite (fmul_comm float_laws (cents 7500) (cents 10) Sa Sc).
    rewrite (fmul_comm float_laws price (cents 10) Hp Sc).
    apply (fmul_monotone float_laws); try assumption; lra. }
  assert (value (fmul price (cents 10)) <= value (fmul price rate))%Q as M2.
  { apply (fmul_monotone float_laws); try assumption; lra. }
  assert (value (fmul price rate) <= value (fmul price (cents 20)))%Q as M3.
  { apply (fmul_monotone float_laws); try assumption; lra. }
  assert (value (fmul price (cents 20)) <= value (fmul (cents 75000) (cents 20)))%Q as M4.
  { rewrite (fmul_comm float_laws (cents 75000) (cents 20) Sb Sd).
    rewrite (fmul_comm float_laws price (cents 20) Hp Sd).
    apply (fmul_monotone float_laws); try assumption; lra. }
  split; [ | split; lra].
  split; [apply (fmul_finite float_laws); assumption | split; lra].
Qed.

(** [round(x, 2)] keeps the order of small positive floats. *)
Lemma round2_monotone (x y : float) :
  small x -> small y -> (0 < value x)%Q -> (value x <= value y)%Q ->
  (value (round2 x) <= value (round2 y))%Q.
Proof.
  intros Hx Hy H0 Hxy.
  rewrite (round2_spec float_laws x Hx H0).
  rewrite (round2_spec float_laws y Hy) by lra.
  destruct Hx as (_ & Hx1 & Hx2). destruct Hy as (_ & Hy1 & Hy2).
  apply (cents_monotone float_laws).
  - apply round_half_even_lower. change (inject_Z (- (100000000))) with (- (100000000))%Q. lra.
  - apply round_half_even_monotone. lra.
  - apply round_half_even_upper. change (inject_Z 100000000) with 100000000%Q. lra.
Qed.

(** C3, as the code has it on doubles: the nightly price of every
    generated record lies in [75.00, 750.00] and is the float read from a
    decimal of 7500 to 75000 cents; the commission is [round(price * rate, 2)]
    for a finite rate between the floats 0.1 and 0.2, both included, it is
    the float read from a decimal with two places, and it lies between
    [round(price * 0.1, 2)] and [round(price * 0.2, 2)]. *)
Theorem price_and_commission_ranges (fuel n : nat) (w w' : world) (props : list property) :
  generate fuel n w = Ok (props, w') ->
  Forall (fun p =>
    let price := propertyPricePerNight p in
    let commission := propertyCommissionAmount p in
    (75 <= value price)%Q /\ (value price <= 750)%Q /\
    (exists k : Z, (7500 <= k <= 75000)%Z /\ price = cents k) /\
    (exists k : Z, commission = cents k) /\
    (exists rate : float,
        finite rate = true /\
        (value (cents 10) <= value rate)%Q /\ (value rate <= value (cents 20))%Q /\
        commission = round2 (fmul price rate)) /\
    (value (round2 (fmul price (cents 10))) <= value commission)%Q /\
    (value commission <= value (round2 (fmul price (cents 20))))%Q) props.
Proof.
  apply generate_Forall.
  intros names i w0 p wn H. apply make_property_Ok in H.
  destruct H as (country & states & state & city_ & address_ & phone & location & miles &
    airport_city & price_ & rate & cancellation & name & description & email &
    w1 & w2 & w3 & w4 & w5 & w6 & w7 & w8 & w9 & w10 & w11 & H).
  destruct H as (_ & _ & _ & _ & _ & _ & _ & _ & _ & E10 & E11 & _ & _ & _ & _ & ->).
  cbn [propertyPricePerNight propertyCommissionAmount]. cbv zeta.
  apply uniform_Ok in E10. destruct E10 as (r1 & g1 & E10 & -> & ->).
  apply uniform_Ok in E11. destruct E11 as (r2 & g2 & E11 & -> & _).
  cbn [w_rng] in E11.
  pose proof (random_unit (w_rng w8)) as (Hf1 & Ha & Hb).
  rewrite E10 in Hf1, Ha, Hb. cbn [fst] in Hf1, Ha, Hb.
  pose proof (random_unit g1) as (Hf2 & Hc & Hd).
  rewrite E11 in Hf2, Hc, Hd. cbn [fst] in Hf2, Hc, Hd.
  destruct (price_cents r1 Hf1 Ha Hb) as (k & Hk & Ek). rewrite Ek.
  destruct (rate_between r2 Hf2 Hc Hd) as (Sr & Hr1 & Hr2).
  set (rate := fadd (cents 10) (fmul (fsub (cents 20) (cents 10)) r2)) in *.
  destruct (cents_range k 75 750) as (Sp & Hp1 & Hp2); try lia.
  change (inject_Z 75) with 75%Q in Hp1. change (inject_Z 750) with 750%Q in Hp2.
  destruct (cents_range 10 0 1) as (Sc & Ec1 & Ec2); try lia.
  destruct (cents_range 20 0 1) as (Sd & Ed1 & Ed2); try lia.
  destruct (cents_range 750 7 8) as (_ & Ee1 & _); try lia.
  change (inject_Z 7) with 7%Q in Ee1.
  assert (value (cents 10) <= value (cents 20))%Q as Hcd by lra.
  destruct (commission_product (cents k) rate) as (Sm & Hm1 & Hm2); try assumption.
  destruct (commission_product (cents k) (cents 10)) as (Sm1 & Hm3 & Hm4);
    try assumption; try apply Qle_refl.
  destruct (commission_product (cents k) (cents 20)) as (Sm2 & Hm5 & Hm6);
    try assumption; try apply Qle_refl.
  split; [exact Hp1 | ]. split; [exact Hp2 | ].
  split; [exists k; split; [exact Hk | reflexivity] | ].
  split; [eexists; apply (round2_spec float_laws); [exact Sm | lra] | ].
  split.
  - exists rate. split; [apply Sr | ]. repeat split; assumption.
  - split; apply round2_monotone; try assumption; try lra;
      apply (fmul_monotone float_laws); try assumption; lra.
Qed.


(** ** Property names *)

Lemma set_add_NoDup (x : string) (s : list string) :
  NoDup s -> NoDup (set_add x s).
Proof.
  intros H. unfold set_add. destruct (in_dec string_dec x s) as [Hin | Hout].
  - exact H.
  - apply NoDup_rev in H. rewrite <- (rev_involutive (s ++ [x])).
    apply NoDup_rev. rewrite rev_app_distr. cbn [rev app].
    constructor; [ | exact H]. rewrite <- in_rev. exact Hout.
Qed.

Lemma set_add_length (x : string) (s : list string) :
  (List.length (set_add x s) <= S (List.length s))%nat.
Proof.
  unfold set_add. destruct (in_dec string_dec x s).
  - lia.
  - rewrite length_app. cbn [List.length]. lia.
Qed.

(** The [while] loop leaves with exactly [n] distinct names. *)
Lemma names_loop_Ok (fuel n : nat) :
  forall (names : list string) (w w' : world) (out : list string),
    NoDup names -> (List.length names <= n)%nat ->
    names_loop fuel n names w = Ok (out, w') ->
    NoDup out /\ List.length out = n.
Proof.
  induction fuel as [ | fuel IH]; intros names w w' out Hnd Hlen H; cbn [names_loop] in H.
  - destruct (Nat.ltb_spec (List.length names) n) as [Hlt | Hge].
    + discriminate.
    + apply ret_Ok in H. destruct H as [-> _]. split; [exact Hnd | lia].
  - destruct (Nat.ltb_spec (List.length names) n) as [Hlt | Hge].
    + apply bind_Ok in H. destruct H as (company & w1 & _ & H).
      apply bind_Ok in H. destruct H as (suffix & w2 & _ & H).
      apply IH in H; [exact H | apply set_add_NoDup, Hnd | ].
      pose proof (set_add_length (company ++ " " ++ suffix) names). lia.
    + apply ret_Ok in H. destruct H as [-> _]. split; [exact Hnd | lia].
Qed.

Lemma unique_property_names_Ok (fuel n : nat) (w w' : world) (out : list string) :
  unique_property_names fuel n w = Ok (out, w') ->
  exists names,
    names_loop fuel n [] w = Ok (names, w') /\ out = set_iter names /\
    NoDup out /\ List.length out = n.
Proof.
  unfold unique_property_names. intros H.
  apply bind_Ok in H. destruct H as (names & w1 & Hn & H).
  apply ret_Ok in H. destruct H as [-> ->].
  exists names. split; [exact Hn | ]. split; [reflexivity | ].
  apply names_loop_Ok in Hn; [ | constructor | cbn; lia].
  destruct Hn as [Hnd Hlen]. split.
  - eapply Permutation_NoDup; [ | exact Hnd]. symmetry. apply set_iter_perm.
  - rewrite <- Hlen. apply Permutation_length, set_iter_perm.
Qed.

Lemma skipn_cons_nth_error {A : Type} (l : list A) (a : nat) (x : A) :
  nth_error l a = Some x -> skipn a l = x :: skipn (S a) l.
Proof.
  revert a. induction l as [ | y l IH]; intros [ | a] H; try discriminate.
  - inversion H. reflexivity.
  - cbn [nth_error] in H. apply IH in H. exact H.
Qed.

Lemma Forall2_nth_error_seq {A : Type} (l : list A) (n : nat) :
  forall (a : nat) (xs : list A),
    Forall2 (fun i x => nth_error l i = Some x) (seq a n) xs ->
    xs = firstn n (skipn a l).
Proof.
  induction n as [ | n IH]; intros a xs H; cbn [seq] in H; inversion H; subst.
  - reflexivity.
  - rewrite (skipn_cons_nth_error l a y); [ | assumption].
    cbn [firstn]. f_equal. apply IH. assumption.
Qed.

(** The records carry the names in the order [list(names)] gave them, and
    each record the address derived from its name. *)
Lemma generate_names (fuel n : nat) (w w' : world) (props : list property) :
  generate fuel n w = Ok (props, w') ->
  exists names w0,
    names_loop fuel n [] w = Ok (names, w0) /\
    NoDup (set_iter names) /\
    List.length props = n /\
    map propertyName props = set_iter names /\
    map propertyEmailAddress props = map email_of_name (set_iter names).
Proof.
  intros H. apply generate_Ok in H. destruct H as (out & w0 & Hn & H).
  apply unique_property_names_Ok in Hn.
  destruct Hn as (names & Hn & -> & Hnd & Hlen).
  exists names, w0. split; [exact Hn | ]. split; [exact Hnd | ].
  assert (Forall2 (fun i p => nth_error (set_iter names) i = Some (propertyName p) /\
                              nth_error (unique_emails (set_iter names)) i =
                                Some (propertyEmailAddress p)) (seq 0 n) props) as HF.
  { apply H. intros i w1 p w2 Hp. eapply make_property_name_email. exact Hp. }
  split; [ | split].
  - apply Forall2_length in HF. rewrite length_seq in HF. symmetry. exact HF.
  - assert (map propertyName props = firstn n (skipn 0 (set_iter names))) as E.
    { apply Forall2_nth_error_seq. clear - HF.
      induction HF; cbn [map]; constructor; intuition. }
    rewrite E. cbn [skipn]. rewrite <- Hlen. apply firstn_all.
  - assert (map propertyEmailAddress props =
            firstn n (skipn 0 (unique_emails (set_iter names)))) as E.
    { apply Forall2_nth_error_seq. clear - HF.
      induction HF; cbn [map]; constructor; intuition. }
    rewrite E. cbn [skipn]. unfold unique_emails.
    rewrite <- Hlen, <- (length_map email_of_name). apply firstn_all.
Qed.

(** ** Lists updated by index *)

Close Scope string_scope.

Lemma list_set_length {A : Type} (l : list A) (i : nat) (v : A) :
  List.length (list_set l i v) = List.length l.
Proof.
  revert i. induction l as [ | x l IH]; intros [ | i]; cbn; auto.
Qed.

Lemma nth_error_list_set {A : Type} (l : list A) (i j : nat) (v : A) :
  i < List.length l ->
  nth_error (list_set l i v) j = if j =? i then Some v else nth_error l j.
Proof.
  revert i j. induction l as [ | x l IH]; intros i j Hi; cbn in Hi; [lia | ].
  destruct i as [ | i], j as [ | j]; cbn; try reflexivity.
  apply IH. lia.
Qed.

(** Overwriting slot [i] trades the old element for the new one. *)
Lemma list_set_Permutation {A : Type} (l : list A) (i : nat) (x v : A) :
  nth_error l i = Some x ->
  Permutation (x :: list_set l i v) (v :: l).
Proof.
  revert i. induction l as [ | y l IH]; intros [ | i] H; try discriminate.
  - inversion H. subst. cbn. apply perm_swap.
  - cbn [nth_error] in H. apply IH in H. cbn [list_set].
    rewrite perm_swap, H. apply perm_swap.
Qed.

Lemma firstn_list_set_lt {A : Type} (l : list A) (m i : nat) (v : A) :
  i < m -> firstn m (list_set l i v) = list_set (firstn m l) i v.
Proof.
  revert m i. induction l as [ | y l IH]; intros m i H.
  - cbn. rewrite !firstn_nil. reflexivity.
  - destruct m as [ | m]; [lia | ]. destruct i as [ | i]; cbn; [reflexivity | ].
    f_equal. apply IH. lia.
Qed.

Lemma firstn_list_set_ge {A : Type} (l : list A) (m i : nat) (v : A) :
  m <= i -> firstn m (list_set l i v) = firstn m l.
Proof.
  revert m i. induction l as [ | y l IH]; intros m i H.
  - reflexivity.
  - destruct m as [ | m]; [reflexivity | ]. destruct i as [ | i]; [lia | ].
    cbn. f_equal. apply IH. lia.
Qed.

Lemma firstn_snoc {A : Type} (l : list A) (m : nat) (y : A) :
  nth_error l m = Some y -> firstn (S m) l = firstn m l ++ [y].
Proof.
  revert m. induction l as [ | x l IH]; intros [ | m] H; try discriminate.
  - inversion H. reflexivity.
  - cbn [nth_error] in H. apply IH in H. cbn [firstn] in *. rewrite H. reflexivity.
Qed.

(** One step of the pool selection: the live slots before the step are the
    chosen element and the live slots after it. *)
Lemma pool_step {A : Type} (pool : list A) (n j : nat) (x y : A) :
  j < n ->
  nth_error pool j = Some x ->
  nth_error pool (n - 1) = Some y ->
  Permutation (x :: firstn (n - 1) (list_set pool j y)) (firstn n pool).
Proof.
  intros Hj Hx Hy.
  replace n with (S (n - 1)) at 2 by lia.
  rewrite (firstn_snoc pool (n - 1) y Hy).
  destruct (Nat.eq_dec j (n - 1)) as [-> | Hne].
  - rewrite firstn_list_set_ge by lia.
    assert (x = y) by congruence. subst. apply Permutation_cons_append.
  - rewrite firstn_list_set_lt by lia.
    rewrite (list_set_Permutation (firstn (n - 1) pool) j x y).
    + apply Permutation_cons_append.
    + rewrite nth_error_firstn. destruct (Nat.ltb_spec j (n - 1)); [exact Hx | lia].
Qed.

(** Swapping two slots permutes the list. *)
Lemma swap_Permutation {A : Type} (x : list A) (i j : nat) (xi xj : A) :
  nth_error x i = Some xi ->
  nth_error x j = Some xj ->
  Permutation (list_set (list_set x i xj) j xi) x.
Proof.
  intros Hi Hj.
  assert (i < List.length x) as Hlen by (apply nth_error_Some; congruence).
  assert (nth_error (list_set x i xj) j = Some xj) as Hj'.
  { rewrite nth_error_list_set by exact Hlen.
    destruct (Nat.eqb_spec j i); [reflexivity | exact Hj]. }
  apply (Permutation_cons_inv (a := xj)).
  rewrite (list_set_Permutation _ j xj xi Hj').
  apply (list_set_Permutation x i xi xj Hi).
Qed.

Open Scope string_scope.

(** ** [random.sample] and [random.shuffle] *)

(** The pool loop returns [k] elements which, with some others, make up
    the live part of the pool: a selection without replacement. *)
Lemma sample_loop_Ok {A : Type} (k : nat) :
  forall (n : nat) (pool : list A) (w w' : world) (res : list A),
    (k <= n)%nat ->
    sample_loop k n pool w = Ok (res, w') ->
    List.length res = k /\
    exists rest, Permutation (res ++ rest)%list (firstn n pool).
Proof.
  induction k as [ | k IH]; intros n pool w w' res Hk H; cbn [sample_loop] in H.
  - apply ret_Ok in H. destruct H as [-> _]. split; [reflexivity | ].
    exists (firstn n pool). reflexivity.
  - apply bind_Ok in H. destruct H as (j & w1 & Ej & H).
    apply bind_Ok in H. destruct H as (x & w2 & Ex & H).
    apply bind_Ok in H. destruct H as (y & w3 & Ey & H).
    apply bind_Ok in H. destruct H as (res' & w4 & Er & H).
    apply ret_Ok in H. destruct H as [-> _].
    apply randbelow_m_Ok in Ej. destruct Ej as (g & Ej & _).
    pose proof (randbelow_lt n (w_rng w) ltac:(lia)) as Hj.
    rewrite Ej in Hj. cbn [fst] in Hj.
    apply index_Ok in Ex. destruct Ex as [Ex _].
    apply index_Ok in Ey. destruct Ey as [Ey _].
    apply IH in Er; [ | lia]. destruct Er as (Hlen & rest & Hperm).
    split; [cbn [List.length]; lia | ].
    exists rest. cbn [app]. rewrite Hperm.
    apply pool_step; assumption.
Qed.

Lemma sample_Ok {A : Type} (population : list A) (k : nat) (w w' : world) (res : list A) :
  sample population k w = Ok (res, w') ->
  List.length res = k /\
  exists rest, Permutation (res ++ rest)%list population.
Proof.
  unfold sample. destruct (Nat.ltb_spec (List.length population) k) as [Hlt | Hge];
    [discriminate | ].
  intros H. apply sample_loop_Ok in H; [ | exact Hge].
  rewrite firstn_all in H. exact H.
Qed.

Lemma shuffle_loop_Ok {A : Type} (i : nat) :
  forall (x : list A) (w w' : world) (res : list A),
    shuffle_loop i x w = Ok (res, w') -> Permutation res x.
Proof.
  induction i as [ | i IH]; intros x w w' res H; cbn [shuffle_loop] in H.
  - apply ret_Ok in H. destruct H as [-> _]. reflexivity.
  - apply bind_Ok in H. destruct H as (j & w1 & _ & H).
    apply bind_Ok in H. destruct H as (xi & w2 & Ei & H).
    apply bind_Ok in H. destruct H as (xj & w3 & Ej & H).
    apply index_Ok in Ei. destruct Ei as [Ei _].
    apply index_Ok in Ej. destruct Ej as [Ej _].
    apply IH in H. rewrite H. apply swap_Permutation; assumption.
Qed.

Lemma shuffle_Ok {A : Type} (x : list A) (w w' : world) (res : list A) :
  shuffle x w = Ok (res, w') -> Permutation res x.
Proof. apply shuffle_loop_Ok. Qed.

(** *** The draws behind a selection and a shuffle *)

Lemma draw_sequence_length (ns : list nat) :
  forall g js g', draw_sequence ns g = (js, g') -> List.length js = List.length ns.
Proof.
  induction ns as [ | n ns IH]; intros g js g' H; cbn [draw_sequence] in H.
  - inversion H. reflexivity.
  - destruct (randbelow n g) as [j g1]. destruct (draw_sequence ns g1) as [js' g2] eqn:E.
    inversion H; subst. cbn [List.length]. f_equal. eapply IH. exact E.
Qed.

Lemma draw_sequence_app (ns ms : list nat) :
  forall g js g1 ks g2,
    draw_sequence ns g = (js, g1) -> draw_sequence ms g1 = (ks, g2) ->
    draw_sequence (ns ++ ms) g = ((js ++ ks)%list, g2).
Proof.
  induction ns as [ | n ns IH]; intros g js g1 ks g2 H1 H2; cbn [draw_sequence app] in *.
  - inversion H1; subst. exact H2.
  - destruct (randbelow n g) as [j g0]. destruct (draw_sequence ns g0) as [js' g0'] eqn:E.
    inversion H1; subst. rewrite (IH _ _ _ _ _ E H2). reflexivity.
Qed.

(** The pool loop makes [k] draws, below [n], [n - 1], ..., and returns
    what [pool_pick] computes from them. *)
Lemma sample_loop_trace {A : Type} (k : nat) :
  forall (n : nat) (pool : list A) (w w' : world) (res : list A),
    sample_loop k n pool w = Ok (res, w') ->
    exists js g',
      draw_sequence (countdown n k) (w_rng w) = (js, g') /\
      res = pool_pick pool n js /\
      w' = {| w_rng := g'; w_fk := w_fk w; w_seen := w_seen w |}.
Proof.
  induction k as [ | k IH]; intros n pool w w' res H; cbn [sample_loop] in H.
  - apply ret_Ok in H. destruct H as [-> ->]. exists [], (w_rng w).
    destruct w. repeat split.
  - apply bind_Ok in H. destruct H as (j & w1 & Ej & H).
    apply bind_Ok in H. destruct H as (x & w2 & Ex & H).
    apply bind_Ok in H. destruct H as (y & w3 & Ey & H).
    apply bind_Ok in H. destruct H as (res' & w4 & Er & H).
    apply ret_Ok in H. destruct H as [-> ->].
    apply randbelow_m_Ok in Ej. destruct Ej as (g & Ej & ->).
    apply index_Ok in Ex. destruct Ex as [Ex ->].
    apply index_Ok in Ey. destruct Ey as [Ey ->].
    apply IH in Er. destruct Er as (js & g' & Ed & -> & ->). cbn [w_rng w_fk w_seen] in *.
    exists (j :: js), g'. cbn [countdown draw_sequence pool_pick].
    rewrite Ej, Ed, Ex, Ey. repeat split.
Qed.

(** The shuffle makes a draw below [i + 1] for each slot [i] from the last
    down to 1, and returns what [fisher_yates] computes from them. *)
Lemma shuffle_loop_trace {A : Type} (i : nat) :
  forall (x : list A) (w w' : world) (res : list A),
    shuffle_loop i x w = Ok (res, w') ->
    exists js g',
      draw_sequence (countdown (S i) i) (w_rng w) = (js, g') /\
      res = fisher_yates i js x /\
      w' = {| w_rng := g'; w_fk := w_fk w; w_seen := w_seen w |}.
Proof.
  induction i as [ | i IH]; intros x w w' res H; cbn [shuffle_loop] in H.
  - apply ret_Ok in H. destruct H as [-> ->]. exists [], (w_rng w).
    destruct w. repeat split.
  - apply bind_Ok in H. destruct H as (j & w1 & Ej & H).
    apply bind_Ok in H. destruct H as (xi & w2 & Ei & H).
    apply bind_Ok in H. destruct H as (xj & w3 & Exj & H).
    apply randbelow_m_Ok in Ej. destruct Ej as (g & Ej & ->).
    apply index_Ok in Ei. destruct Ei as [Ei ->].
    apply index_Ok in Exj. destruct Exj as [Exj ->].
    apply IH in H. destruct H as (js & g' & Ed & -> & ->). cbn [w_rng w_fk w_seen] in *.
    exists (j :: js), g'. cbn [countdown draw_sequence fisher_yates].
    replace (S (S i) - 1)%nat with (S i) by lia.
    rewrite Ej, Ed, Ei, Exj. repeat split.
Qed.

(** ** Substrings and the property type *)

Lemma prefix_spec (sub s : string) :
  prefix sub s = true <-> exists b, s = sub ++ b.
Proof.
  revert s. induction sub as [ | c sub IH]; intros s.
  - split; [intros _; exists s; reflexivity | intros _; destruct s; reflexivity].
  - destruct s as [ | d s]; cbn [prefix].
    + split; [discriminate | intros [b Hb]; discriminate].
    + destruct (ascii_dec c d) as [-> | Hne].
      * rewrite IH. split; intros [b Hb]; exists b.
        -- cbn. now rewrite Hb.
        -- cbn in Hb. now inversion Hb.
      * split; [discriminate | intros [b Hb]]. cbn in Hb. inversion Hb. congruence.
Qed.

(** [contains sub s] holds exactly when [sub] occurs in [s]. *)
Lemma contains_spec (sub s : string) :
  contains sub s = true <-> exists a b, s = a ++ sub ++ b.
Proof.
  induction s as [ | c s IH]; cbn [contains]; rewrite orb_true_iff, prefix_spec.
  - split.
    + intros [[b Hb] | H]; [ | discriminate]. exists "", b. exact Hb.
    + intros (a & b & H). left. destruct a as [ | x a]; [ | discriminate].
      exists b. exact H.
  - rewrite IH. split.
    + intros [[b Hb] | (a & b & H)].
      * exists "", b. exact Hb.
      * exists (String c a), b. cbn. now rewrite H.
    + intros (a & b & H). destruct a as [ | x a].
      * left. exists b. exact H.
      * right. cbn in H. inversion H. exists a, b. reflexivity.
Qed.

Lemma find_first {A : Type} (f : A -> bool) (l : list A) :
  match find f l with
  | Some x =>
      exists before after,
        l = (before ++ x :: after)%list /\ f x = true /\
        Forall (fun k => f k = false) before
  | None => Forall (fun k => f k = false) l
  end.
Proof.
  induction l as [ | y l IH]; cbn [find].
  - constructor.
  - destruct (f y) eqn:E.
    + exists [], l. repeat split; [exact E | constructor].
    + destruct (find f l) as [x | ].
      * destruct IH as (before & after & -> & Hx & Hb).
        exists (y :: before), after. repeat split; [exact Hx | constructor; assumption].
      * constructor; assumption.
Qed.

(** The type inferred from a name is the first key of the feature table,
    in the table's order, that occurs in the name; "Hotel" when none does. *)
Lemma property_type_of_spec (property_name : string) :
  (exists before after,
      keys property_type_features = (before ++ property_type_of property_name :: after)%list /\
      contains (property_type_of property_name) property_name = true /\
      Forall (fun k => contains k property_name = false) before) \/
  (Forall (fun k => contains k property_name = false) (keys property_type_features) /\
   property_type_of property_name = "Hotel").
Proof.
  unfold property_type_of.
  pose proof (find_first (fun ptype => contains ptype property_name)
                (keys property_type_features)) as H.
  destruct (find _ _) as [t | ].
  - left. exact H.
  - right. split; [exact H | reflexivity].
Qed.

(** ** The tables cover what the loop draws *)

Definition has_five (d : list (string * list string)) (k : string) : bool :=
  match dict_lookup d k with
  | Some l => (List.length l =? 5)%nat
  | None => false
  end.

Lemma has_five_spec (d : list (string * list string)) (k : string) :
  has_five d k = true ->
  exists l, dict_lookup d k = Some l /\ List.length l = 5%nat.
Proof.
  unfold has_five. destruct (dict_lookup d k) as [l | ]; [ | discriminate].
  intros H. apply Nat.eqb_eq in H. exists l. split; [reflexivity | exact H].
Qed.

Lemma locations_have_amenities (location : string) :
  In location locations ->
  exists l, dict_lookup location_amenities location = Some l /\ List.length l = 5%nat.
Proof.
  intros H. apply has_five_spec. revert location H. apply forallb_forall.
  vm_compute. reflexivity.
Qed.

Lemma property_type_has_features (property_name : string) :
  exists l, dict_lookup property_type_features (property_type_of property_name) = Some l /\
            List.length l = 5%nat.
Proof.
  apply has_five_spec.
  assert (forall k, In k (keys property_type_features) -> has_five property_type_features k = true)
    as Hall by (apply forallb_forall; vm_compute; reflexivity).
  destruct (property_type_of_spec property_name) as [(before & after & E & _) | [_ ->]].
  - apply Hall. rewrite E. apply in_or_app. right. left. reflexivity.
  - vm_compute. reflexivity.
Qed.

Lemma countries_have_closings (country : string) :
  In country countries ->
  exists closing, dict_lookup country_closings country = Some closing.
Proof.
  intros [<- | [<- | [<- | []]]]; eexists; reflexivity.
Qed.

(** ** [generate_property_description] *)

(** The four random steps of a description, each on the interpreter state
    the one before left. *)
Lemma generate_property_description_steps (property_name location country : string)
    (w w' : world) (description : string) :
  generate_property_description property_name location country w = Ok (description, w') ->
  let amenities :=
    dict_get location_amenities location
      ["scenic views"; "comfortable accommodations"; "friendly service"] in
  let type_features :=
    dict_get property_type_features (property_type_of property_name)
      ["quality accommodations"; "excellent service"] in
  exists opening selected_amenities selected_features all_features w1 w2 w3,
    choice (opening_lines property_name location) w = Ok (opening, w1) /\
    sample amenities (Nat.min 4 (List.length amenities)) w1 = Ok (selected_amenities, w2) /\
    sample type_features (Nat.min 3 (List.length type_features)) w2 =
      Ok (selected_features, w3) /\
    shuffle (selected_amenities ++ selected_features) w3 = Ok (all_features, w') /\
    description =
      opening ++ " Located " ++
      dict_get location_descriptions location
        ("in a beautiful " ++ lower location ++ " setting") ++
      ", our property combines modern comfort with local charm. " ++
      feature_text_of all_features ++ ", " ++
      dict_get country_closings country "ensuring a memorable stay for every guest.".
Proof.
  unfold generate_property_description. cbv zeta. intros H.
  apply bind_Ok in H. destruct H as (opening & w1 & E1 & H).
  apply bind_Ok in H. destruct H as (amen & w2 & E2 & H).
  apply bind_Ok in H. destruct H as (feats & w3 & E3 & H).
  apply bind_Ok in H. destruct H as (all & w4 & E4 & H).
  apply ret_Ok in H. destruct H as [-> ->].
  exists opening, amen, feats, all, w1, w2, w3. repeat split; assumption.
Qed.

Lemma generate_property_description_Ok (property_name location country : string)
    (w w' : world) (description : string) :
  generate_property_description property_name location country w = Ok (description, w') ->
  let amenities :=
    dict_get location_amenities location
      ["scenic views"; "comfortable accommodations"; "friendly service"] in
  let type_features :=
    dict_get property_type_features (property_type_of property_name)
      ["quality accommodations"; "excellent service"] in
  exists opening selected_amenities selected_features all_features,
    In opening (opening_lines property_name location) /\
    List.length selected_amenities = Nat.min 4 (List.length amenities) /\
    (exists rest, Permutation (selected_amenities ++ rest)%list amenities) /\
    List.length selected_features = Nat.min 3 (List.length type_features) /\
    (exists rest, Permutation (selected_features ++ rest)%list type_features) /\
    Permutation all_features (selected_amenities ++ selected_features)%list /\
    description =
      opening ++ " Located " ++
      dict_get location_descriptions location
        ("in a beautiful " ++ lower location ++ " setting") ++
      ", our property combines modern comfort with local charm. " ++
      feature_text_of all_features ++ ", " ++
      dict_get country_closings country "ensuring a memorable stay for every guest.".
Proof.
  unfold generate_property_description. cbv zeta. intros H.
  apply bind_Ok in H. destruct H as (opening & w1 & E1 & H).
  apply bind_Ok in H. destruct H as (amen & w2 & E2 & H).
  apply bind_Ok in H. destruct H as (feats & w3 & E3 & H).
  apply bind_Ok in H. destruct H as (all & w4 & E4 & H).
  apply ret_Ok in H. destruct H as [-> _].
  apply choice_In in E1. apply sample_Ok in E2. apply sample_Ok in E3.
  apply shuffle_Ok in E4.
  destruct E2 as [L2 P2]. destruct E3 as [L3 P3].
  exists opening, amen, feats, all. repeat split; assumption.
Qed.

(** C8: the description of every generated record is composed as follows.
    The property type is the first key of the type table that occurs in the
    record's name, "Hotel" when none does.  The text is one of the five
    opening sentences for the name and location, then " Located " and the
    location's clause (the generic clause when the location has no text of
    its own), then the fixed middle sentence, then "Enjoy ..." over seven
    phrases, then the closing of the record's country.  The seven phrases
    are a rearrangement of four amenities selected without replacement
    from the location's list and three features selected without
    replacement from the type's list.  Fourteen consecutive draws of
    [_randbelow] decide the text: the first, below 5, is the index of the
    opening; the next four, below 5, 4, 3 and 2, are the pool slots of the
    amenities; the next three, below 5, 4 and 3, those of the features; the
    last six, below 7, 6, ..., 2, are the swaps of the shuffle, applied to
    the amenities followed by the features. *)
Theorem description_composition (fuel n : nat) (w w' : world) (props : list property) :
  generate fuel n w = Ok (props, w') ->
  Forall (fun p =>
    let name := propertyName p in
    let location := propertyLocation p in
    let property_type := property_type_of name in
    ((exists before after,
         keys property_type_features = (before ++ property_type :: after)%list /\
         contains property_type name = true /\
         Forall (fun k => contains k name = false) before) \/
     (Forall (fun k => contains k name = false) (keys property_type_features) /\
      property_type = "Hotel")) /\
    exists amenities type_features closing opening location_desc
           selected_amenities selected_features f0 f1 f2 f3 f4 f5 f6,
      dict_lookup location_amenities location = Some amenities /\
      dict_lookup property_type_features property_type = Some type_features /\
      dict_lookup country_closings (propertyCountry p) = Some closing /\
      In opening (opening_lines name location) /\
      (dict_lookup location_descriptions location = Some location_desc \/
       (dict_lookup location_descriptions location = None /\
        location_desc = "in a beautiful " ++ lower location ++ " setting")) /\
      List.length selected_amenities = 4%nat /\
      (exists rest, Permutation (selected_amenities ++ rest)%list amenities) /\
      List.length selected_features = 3%nat /\
      (exists rest, Permutation (selected_features ++ rest)%list type_features) /\
      Permutation [f0; f1; f2; f3; f4; f5; f6]
        (selected_amenities ++ selected_features)%list /\
      propertyDescription p =
        opening ++ " Located " ++ location_desc ++
        ", our property combines modern comfort with local charm. " ++
        ("Enjoy " ++ f0 ++ ", " ++ f1 ++ ", and " ++ f2 ++
         ", along with " ++ f3 ++ ", " ++ f4 ++ ", " ++ f5 ++ ", " ++ f6) ++
        ", " ++ closing /\
      exists g g' j0 a0 a1 a2 a3 b0 b1 b2 s6 s5 s4 s3 s2 s1,
        draw_sequence [5; 5; 4; 3; 2; 5; 4; 3; 7; 6; 5; 4; 3; 2]%nat g =
          ([j0; a0; a1; a2; a3; b0; b1; b2; s6; s5; s4; s3; s2; s1], g') /\
        nth_error (opening_lines name location) j0 = Some opening /\
        selected_amenities = pool_pick amenities 5 [a0; a1; a2; a3] /\
        selected_features = pool_pick type_features 5 [b0; b1; b2] /\
        [f0; f1; f2; f3; f4; f5; f6] =
          fisher_yates 6 [s6; s5; s4; s3; s2; s1]
            (selected_amenities ++ selected_features)%list) props.
Proof.
  apply generate_Forall.
  intros names i w0 p wn H. apply make_property_Ok in H.
  destruct H as (country & states & state & city_ & address_ & phone & location & miles &
    airport_city & price_ & rate & cancellation & name & description & email &
    w1 & w2 & w3 & w4 & w5 & w6 & w7 & w8 & w9 & w10 & w11 & H).
  destruct H as (E1 & _ & _ & _ & _ & _ & E7 & _ & _ & _ & _ & _ & _ & E14 & _ & ->).
  cbn [propertyName propertyLocation propertyCountry propertyDescription]. cbv zeta.
  split; [apply property_type_of_spec | ].
  apply choice_In in E1. apply choice_In in E7.
  destruct (locations_have_amenities location E7) as (amenities & La & Na).
  destruct (property_type_has_features name) as (type_features & Lf & Nf).
  destruct (countries_have_closings country E1) as (closing & Lc).
  apply generate_property_description_steps in E14. cbv zeta in E14.
  assert (dict_get location_amenities location
            ["scenic views"; "comfortable accommodations"; "friendly service"] = amenities)
    as Da by (unfold dict_get; rewrite La; reflexivity).
  assert (dict_get property_type_features (property_type_of name)
            ["quality accommodations"; "excellent service"] = type_features)
    as Df by (unfold dict_get; rewrite Lf; reflexivity).
  assert (dict_get country_closings country "ensuring a memorable stay for every guest." =
            closing)
    as Dc by (unfold dict_get; rewrite Lc; reflexivity).
  rewrite Da, Df, Dc, Na, Nf in E14. cbn [Nat.min] in E14.
  destruct E14 as (opening & amen & feats & all & wa & wb & wc & C1 & C2 & C3 & C4 & ->).
  pose proof (choice_In _ _ _ _ C1) as Ho.
  pose proof (sample_Ok _ _ _ _ _ C2) as [Hla Hpa].
  pose proof (sample_Ok _ _ _ _ _ C3) as [Hlf Hpf].
  pose proof (shuffle_Ok _ _ _ _ C4) as Hall.
  assert (List.length all = 7%nat) as Hlen.
  { rewrite (Permutation_length Hall), length_app, Hla, Hlf. reflexivity. }
  apply choice_Ok in C1. destruct C1 as (j0 & g1 & D1 & N1 & ->).
  change (List.length (opening_lines name location)) with 5%nat in D1.
  unfold sample in C2, C3. rewrite Na in C2. rewrite Nf in C3.
  change (5 <? 4)%nat with false in C2. change (5 <? 3)%nat with false in C3.
  apply sample_loop_trace in C2. destruct C2 as (ja & g2 & D2 & Ea & ->).
  apply sample_loop_trace in C3. destruct C3 as (jb & g3 & D3 & Eb & ->).
  unfold shuffle in C4. rewrite length_app, Hla, Hlf in C4.
  change (4 + 3 - 1)%nat with 6%nat in C4.
  apply shuffle_loop_trace in C4. destruct C4 as (js & g4 & D4 & Es & _).
  cbn [w_rng] in D2, D3, D4.
  assert (draw_sequence [5%nat] (w_rng w11) = ([j0], g1)) as D1'
    by (cbn [draw_sequence]; rewrite D1; reflexivity).
  pose proof (draw_sequence_app _ _ _ _ _ _ _ D3 D4) as D34.
  pose proof (draw_sequence_app _ _ _ _ _ _ _ D2 D34) as D234.
  pose proof (draw_sequence_app _ _ _ _ _ _ _ D1' D234) as D.
  apply draw_sequence_length in D2, D3, D4. cbn [countdown List.length] in D2, D3, D4.
  destruct ja as [ | a0 [ | a1 [ | a2 [ | a3 [ | a4 ja]]]]]; try discriminate D2.
  destruct jb as [ | b0 [ | b1 [ | b2 [ | b3 jb]]]]; try discriminate D3.
  destruct js as [ | s6 [ | s5 [ | s4 [ | s3 [ | s2 [ | s1 [ | s0 js]]]]]]];
    try discriminate D4.
  destruct all as [ | f0 [ | f1 [ | f2 [ | f3 [ | f4 [ | f5 [ | f6 [ | f7 all]]]]]]]];
    try discriminate Hlen.
  exists amenities, type_features, closing, opening,
    (dict_get location_descriptions location
       ("in a beautiful " ++ lower location ++ " setting")),
    amen, feats, f0, f1, f2, f3, f4, f5, f6.
  repeat (split; [assumption | ]).
  split.
  { unfold dict_get. destruct (dict_lookup location_descriptions location) as [d | ].
    - left. reflexivity.
    - right. split; reflexivity. }
  repeat (split; [assumption | ]).
  split; [reflexivity | ].
  exists (w_rng w11), g4, j0, a0, a1, a2, a3, b0, b1, b2, s6, s5, s4, s3, s2, s1.
  split; [exact D | ]. repeat split; assumption.
Qed.

(** ** The run finishes *)

Lemma bind_eq {A B : Type} (m : M A) (f : A -> M B) (w w1 : world) (a : A) :
  m w = Ok (a, w1) -> bind m f w = f a w1.
Proof. unfold bind. intros ->. reflexivity. Qed.

(** Runs one step that is known to succeed and moves past its [bind]. *)
Ltac run_step Htotal x w1 E :=
  destruct Htotal as (x & w1 & E);
  rewrite (bind_eq _ _ _ _ _ E); cbv beta.

Lemma randbelow_m_total (n : nat) (w : world) :
  exists j w', randbelow_m n w = Ok (j, w').
Proof.
  unfold randbelow_m. destruct (randbelow n (w_rng w)) as [j g].
  eexists. eexists. reflexivity.
Qed.

Lemma index_total {A : Type} (l : list A) (i : nat) (w : world) :
  (i < List.length l)%nat -> exists x, index l i w = Ok (x, w).
Proof.
  intros H. unfold index. destruct (nth_error l i) as [x | ] eqn:E.
  - exists x. reflexivity.
  - apply nth_error_None in E. lia.
Qed.

Lemma choice_total {A : Type} (l : list A) (w : world) :
  l <> [] -> exists x w', choice l w = Ok (x, w').
Proof.
  intros Hne. unfold choice. destruct l as [ | a l]; [congruence | ].
  destruct (randbelow_m_total (List.length (a :: l)) w) as (j & w1 & E).
  rewrite (bind_eq _ _ _ _ _ E).
  pose proof E as E'. apply randbelow_m_Ok in E'. destruct E' as (g & Eg & _).
  pose proof (randbelow_lt (List.length (a :: l)) (w_rng w) ltac:(cbn; lia)) as Hj.
  rewrite Eg in Hj. cbn [fst] in Hj.
  destruct (index_total (a :: l) j w1 Hj) as (x & Ex).
  exists x, w1. exact Ex.
Qed.

Lemma randint_total (a b : nat) (w : world) :
  (a <= b)%nat -> exists x w', randint a b w = Ok (x, w').
Proof.
  intros H. unfold randint. destruct (Nat.ltb_spec b a) as [Hlt | _]; [lia | ].
  destruct (randbelow_m_total (b - a + 1) w) as (j & w1 & E).
  rewrite (bind_eq _ _ _ _ _ E). eexists. eexists. reflexivity.
Qed.

Lemma uniform_total (a b : float) (w : world) :
  exists x w', uniform a b w = Ok (x, w').
Proof.
  unfold uniform, bind, random_m. destruct (random (w_rng w)) as [x g].
  eexists. eexists. reflexivity.
Qed.

Lemma faker_call_total (gen : fstate -> string * fstate) (w : world) :
  exists s w', faker_call gen w = Ok (s, w').
Proof.
  unfold faker_call. destruct (gen (w_fk w)) as [s f].
  eexists. eexists. reflexivity.
Qed.

Lemma sample_loop_total {A : Type} (k : nat) :
  forall (n : nat) (pool : list A) (w : world),
    (k <= n)%nat -> (n <= List.length pool)%nat ->
    exists res w', sample_loop k n pool w = Ok (res, w').
Proof.
  induction k as [ | k IH]; intros n pool w Hk Hn; cbn [sample_loop].
  - eexists. eexists. reflexivity.
  - destruct (randbelow_m_total n w) as (j & w1 & E).
    rewrite (bind_eq _ _ _ _ _ E). cbv beta.
    apply randbelow_m_Ok in E. destruct E as (g & Eg & _).
    pose proof (randbelow_lt n (w_rng w) ltac:(lia)) as Hj.
    rewrite Eg in Hj. cbn [fst] in Hj.
    destruct (index_total pool j w1 ltac:(lia)) as (x & Ex).
    rewrite (bind_eq _ _ _ _ _ Ex). cbv beta.
    destruct (index_total pool (n - 1) w1 ltac:(lia)) as (y & Ey).
    rewrite (bind_eq _ _ _ _ _ Ey). cbv beta.
    destruct (IH (n - 1)%nat (list_set pool j y) w1) as (res & w2 & Er);
      [lia | rewrite list_set_length; lia | ].
    rewrite (bind_eq _ _ _ _ _ Er). eexists. eexists. reflexivity.
Qed.

Lemma sample_total {A : Type} (population : list A) (k : nat) (w : world) :
  (k <= List.length population)%nat ->
  exists res w', sample population k w = Ok (res, w').
Proof.
  intros H. unfold sample.
  destruct (Nat.ltb_spec (List.length population) k) as [Hlt | _]; [lia | ].
  apply sample_loop_total; lia.
Qed.

Lemma shuffle_loop_total {A : Type} (i : nat) :
  forall (x : list A) (w : world),
    (i = 0 \/ i < List.length x)%nat ->
    exists res w', shuffle_loop i x w = Ok (res, w').
Proof.
  induction i as [ | i IH]; intros x w Hi; cbn [shuffle_loop].
  - eexists. eexists. reflexivity.
  - destruct Hi as [Hi | Hi]; [discriminate | ].
    destruct (randbelow_m_total (S (S i)) w) as (j & w1 & E).
    rewrite (bind_eq _ _ _ _ _ E). cbv beta.
    apply randbelow_m_Ok in E. destruct E as (g & Eg & _).
    pose proof (randbelow_lt (S (S i)) (w_rng w) ltac:(lia)) as Hj.
    rewrite Eg in Hj. cbn [fst] in Hj.
    destruct (index_total x (S i) w1 Hi) as (xi & Ei).
    rewrite (bind_eq _ _ _ _ _ Ei). cbv beta.
    destruct (index_total x j w1 ltac:(lia)) as (xj & Ej).
    rewrite (bind_eq _ _ _ _ _ Ej). cbv beta.
    apply IH. right. rewrite !list_set_length. lia.
Qed.

Lemma shuffle_total {A : Type} (x : list A) (w : world) :
  exists res w', shuffle x w = Ok (res, w').
Proof.
  unfold shuffle. apply shuffle_loop_total.
  destruct x as [ | a x]; [left; reflexivity | right; cbn; lia].
Qed.

Lemma generate_property_description_total (property_name location country : string)
    (w : world) :
  exists description w',
    generate_property_description property_name location country w = Ok (description, w').
Proof.
  unfold generate_property_description. cbv zeta.
  run_step (choice_total (opening_lines property_name location) w ltac:(discriminate))
    opening w1 E1.
  match goal with |- context [sample ?l ?k] =>
    run_step (sample_total l k w1 (Nat.le_min_r _ _)) amen w2 E2 end.
  match goal with |- context [sample ?l ?k] =>
    run_step (sample_total l k w2 (Nat.le_min_r _ _)) feats w3 E3 end.
  run_step (shuffle_total (amen ++ feats)%list w3) shuffled w4 E4.
  eexists. eexists. reflexivity.
Qed.

(** A name splits in one way only into a company and a suffix without
    spaces: fresh companies give fresh names. *)
Lemma name_split (c c' s s' : string) :
  contains " " s = false -> contains " " s' = false ->
  c ++ " " ++ s = c' ++ " " ++ s' -> c = c'.
Proof.
  intros Hs Hs'. revert c'. induction c as [ | x c IH]; intros [ | y c'] H.
  - reflexivity.
  - cbn in H. inversion H as [[Hx Hrest]].
    assert (contains " " s = true) as Habs by (apply contains_spec; exists c', s'; exact Hrest).
    congruence.
  - cbn in H. inversion H as [[Hx Hrest]].
    assert (contains " " s' = true) as Habs
      by (apply contains_spec; exists c, s; symmetry; exact Hrest).
    congruence.
  - cbn in H. inversion H as [[Hx Hrest]]. f_equal. apply IH. exact Hrest.
Qed.

Lemma name_suffixes_no_space (suffix : string) :
  In suffix name_suffixes -> contains " " suffix = false.
Proof.
  revert suffix. apply Forall_forall.
  repeat constructor.
Qed.

(** Every name collected so far is a company already handed out, a space
    and a suffix. *)
Definition names_from (seen names : list string) : Prop :=
  Forall (fun name => exists c s,
            name = c ++ " " ++ s /\ In c seen /\ contains " " s = false) names.

Lemma names_loop_total (n : nat) :
  (forall seen f, (List.length seen < n)%nat -> unique_company seen f <> None) ->
  forall (fuel : nat) (names : list string) (w : world),
    List.length (w_seen w) = List.length names ->
    names_from (w_seen w) names ->
    (n - List.length names <= fuel)%nat ->
    exists out w', names_loop fuel n names w = Ok (out, w').
Proof.
  intros Htotal. induction fuel as [ | fuel IH]; intros names w Hlen Hfrom Hfuel;
    cbn [names_loop]; destruct (Nat.ltb_spec (List.length names) n) as [Hlt | Hge];
    try (eexists; eexists; reflexivity); [lia | ].
  destruct (unique_company (w_seen w) (w_fk w)) as [[c f] | ] eqn:Ec;
    [ | exfalso; eapply Htotal; [ | exact Ec]; lia].
  assert (fake_unique_company w =
          Ok (c, {| w_rng := w_rng w; w_fk := f; w_seen := c :: w_seen w |})) as E1
    by (unfold fake_unique_company; rewrite Ec; reflexivity).
  rewrite (bind_eq _ _ _ _ _ E1). cbv beta.
  run_step (choice_total name_suffixes
              {| w_rng := w_rng w; w_fk := f; w_seen := c :: w_seen w |}
              ltac:(discriminate)) suffix w2 E2.
  pose proof (choice_In _ _ _ _ E2) as Hsuf. apply name_suffixes_no_space in Hsuf.
  apply choice_Ok in E2. destruct E2 as (j & g & _ & _ & ->).
  assert (~ In (c ++ " " ++ suffix) names) as Hnew.
  { intros Hin. unfold names_from in Hfrom. rewrite Forall_forall in Hfrom.
    destruct (Hfrom _ Hin) as (c' & s' & E & Hc' & Hs').
    apply name_split in E; [ | assumption | assumption]. subst c'.
    eapply unique_company_fresh; [exact Ec | exact Hc']. }
  unfold set_add. destruct (in_dec string_dec (c ++ " " ++ suffix) names) as [Hin | _];
    [contradiction | ].
  apply IH; cbn [w_seen].
  - rewrite length_app. cbn [List.length]. lia.
  - unfold names_from in *. apply Forall_app. split.
    + eapply Forall_impl; [ | exact Hfrom]. cbv beta.
      intros name (c' & s' & E & Hc' & Hs'). exists c', s'.
      repeat split; [exact E | right; exact Hc' | exact Hs'].
    + constructor; [ | constructor]. exists c, suffix.
      repeat split; [left; reflexivity | exact Hsuf].
  - rewrite length_app. cbn [List.length]. lia.
Qed.

Lemma countries_have_states (country : string) :
  In country countries ->
  exists states, dict_lookup countries_states country = Some states /\ states <> [].
Proof.
  intros [<- | [<- | [<- | []]]]; eexists; (split; [reflexivity | discriminate]).
Qed.

Lemma make_property_total (names emails : list string) (i : nat) (w : world) :
  (i < List.length names)%nat -> (i < List.length emails)%nat ->
  exists p w', make_property names emails i w = Ok (p, w').
Proof.
  intros Hn He. unfold make_property.
  run_step (choice_total countries w ltac:(discriminate)) country w1 E1.
  apply choice_In in E1. destruct (countries_have_states country E1) as (states & Es & Hne).
  assert (get_country_specific_data country w1 = Ok ((locale_of country, states), w1)) as E2
    by (unfold get_country_specific_data; rewrite Es; reflexivity).
  rewrite (bind_eq _ _ _ _ _ E2). cbv beta iota.
  run_step (choice_total states w1 Hne) state w2 E3.
  run_step (faker_call_total (city (locale_of country)) w2) city_ w3 E4.
  run_step (faker_call_total (address (locale_of country)) w3) address_ w4 E5.
  run_step (faker_call_total (phone_number (locale_of country)) w4) phone w5 E6.
  run_step (choice_total locations w5 ltac:(discriminate)) place w6 E7.
  run_step (randint_total 2 30 w6 ltac:(lia)) miles w7 E8.
  run_step (faker_call_total (city (locale_of country)) w7) airport_city w8 E9.
  run_step (uniform_total (cents 7500) (cents 75000) w8) price_ w9 E10.
  run_step (uniform_total (cents 10) (cents 20) w9) rate w10 E11.
  run_step (choice_total cancellation_policies w10 ltac:(discriminate)) cancellation w11 E12.
  destruct (index_total names i w11 Hn) as (name & E13).
  rewrite (bind_eq _ _ _ _ _ E13). cbv beta.
  run_step (generate_property_description_total name place country w11)
    description w12 E14.
  destruct (index_total emails i w12 He) as (email & E15).
  rewrite (bind_eq _ _ _ _ _ E15). cbv beta.
  eexists. eexists. reflexivity.
Qed.

Lemma properties_loop_total (names emails : list string) (range : list nat) :
  Forall (fun i => (i < List.length names)%nat /\ (i < List.length emails)%nat) range ->
  forall (acc : list property) (w : world),
    exists out w', properties_loop names emails range acc w = Ok (out, w').
Proof.
  induction 1 as [ | i range [Hn He] _ IH]; intros acc w; cbn [properties_loop].
  - eexists. eexists. reflexivity.
  - run_step (make_property_total names emails i w Hn He) p w1 E.
    apply IH.
Qed.

(** With [_randbelow] in range, a Faker that can hand out [n] distinct
    companies and at least [n] iterations allowed to the [while] loop, the
    generator returns a corpus. *)
Lemma generate_total (fuel n : nat) (w : world) :
  (forall seen f, (List.length seen < n)%nat -> unique_company seen f <> None) ->
  w_seen w = [] -> (n <= fuel)%nat ->
  exists props w', generate fuel n w = Ok (props, w').
Proof.
  intros Htotal Hseen Hfuel. unfold generate.
  destruct (names_loop_total n Htotal fuel [] w) as (names & w1 & En).
  { rewrite Hseen. reflexivity. }
  { constructor. }
  { cbn. lia. }
  assert (unique_property_names fuel n w = Ok (set_iter names, w1)) as E
    by (unfold unique_property_names; rewrite (bind_eq _ _ _ _ _ En); reflexivity).
  rewrite (bind_eq _ _ _ _ _ E). cbv beta zeta.
  apply unique_property_names_Ok in E. destruct E as (_ & _ & _ & _ & Hlen).
  apply properties_loop_total. apply Forall_forall. intros i Hi.
  apply in_seq in Hi. unfold unique_emails. rewrite length_map. lia.
Qed.

(** ** Names and addresses *)

Lemma chars_app (a b : string) : chars (a ++ b) = (chars a ++ chars b)%list.
Proof. unfold chars. induction a as [ | x a IH]; cbn; [reflexivity | now rewrite IH]. Qed.











Lemma nodupb_spec (l : list string) : nodupb l = true -> NoDup l.
Proof.
  induction l as [ | x l IH]; cbn [nodupb]; intros H; [constructor | ].
  apply andb_prop in H. destruct H as [Hx Hl]. constructor; [ | apply IH, Hl].
  intros Hin. apply negb_true_iff in Hx.
  assert (existsb (String.eqb x) l = true) as Habs
    by (apply existsb_exists; exists x; split; [exact Hin | apply String.eqb_refl]).
  congruence.
Qed.












(** ** Characters of the derived strings *)

(** A one-character substring test is membership among the characters. *)
Lemma contains_char (c : ascii) (s : string) :
  contains (String c "") s = true <-> In c (chars s).
Proof.
  rewrite contains_spec. split.
  - intros (a & b & ->). rewrite chars_app. apply in_or_app. right. left. reflexivity.
  - induction s as [ | x s IH]; intros H; [contradiction | ].
    destruct H as [-> | H].
    + exists "", s. reflexivity.
    + destruct (IH H) as (a & b & ->). exists (String x a), b. reflexivity.
Qed.

(** What [replace] leaves: characters of the replacement, and characters
    of the original other than the replaced one. *)
Lemma chars_replace (old : ascii) (new s : string) (c : ascii) :
  In c (chars (replace old new s)) ->
  In c (chars new) \/ (In c (chars s) /\ c <> old).
Proof.
  induction s as [ | x s IH]; cbn [replace]; intros H; [contradiction | ].
  destruct (Ascii.eqb_spec x old) as [-> | Hne].
  - rewrite chars_app in H. apply in_app_or in H. destruct H as [H | H].
    + left. exact H.
    + destruct (IH H) as [Hn | [Hs Hc]]; [left; exact Hn | right].
      split; [right; exact Hs | exact Hc].
  - destruct H as [<- | H].
    + right. split; [left; reflexivity | exact Hne].
    + destruct (IH H) as [Hn | [Hs Hc]]; [left; exact Hn | right].
      split; [right; exact Hs | exact Hc].
Qed.

Lemma chars_lower (s : string) (c : ascii) :
  In c (chars (ascii_lower s)) -> exists d, In d (chars s) /\ c = lower_ascii d.
Proof.
  induction s as [ | x s IH]; cbn [ascii_lower]; intros H; [contradiction | ].
  destruct H as [<- | H].
  - exists x. split; [left; reflexivity | reflexivity].
  - destruct (IH H) as (d & Hd & ->). exists d. split; [right; exact Hd | reflexivity].
Qed.

Lemma lower_ascii_not_upper (d : ascii) : is_upper (lower_ascii d) = false.
Proof.
  destruct d as [b0 b1 b2 b3 b4 b5 b6 b7].
  destruct b0, b1, b2, b3, b4, b5, b6, b7; reflexivity.
Qed.

Lemma lower_ascii_idempotent (d : ascii) : lower_ascii (lower_ascii d) = lower_ascii d.
Proof.
  destruct d as [b0 b1 b2 b3 b4 b5 b6 b7].
  destruct b0, b1, b2, b3, b4, b5, b6, b7; reflexivity.
Qed.

Lemma ascii_lower_idempotent (s : string) : ascii_lower (ascii_lower s) = ascii_lower s.
Proof.
  induction s as [ | x s IH]; cbn [ascii_lower]; [reflexivity | ].
  now rewrite lower_ascii_idempotent, IH.
Qed.

Lemma lower_ascii_is_ascii (d : ascii) :
  (nat_of_ascii d <? 128)%nat = true -> (nat_of_ascii (lower_ascii d) <? 128)%nat = true.
Proof.
  destruct d as [b0 b1 b2 b3 b4 b5 b6 b7].
  destruct b0, b1, b2, b3, b4, b5, b6, b7; intros H; try discriminate H; reflexivity.
Qed.

Lemma ascii_lower_is_ascii (s : string) :
  is_ascii s = true -> is_ascii (ascii_lower s) = true.
Proof.
  induction s as [ | x s IH]; cbn [ascii_lower is_ascii]; intros H; [reflexivity | ].
  apply andb_prop in H. destruct H as [Hx Hs].
  rewrite (lower_ascii_is_ascii x Hx), (IH Hs). reflexivity.
Qed.

(** X3: the address that [unique_emails] makes of a name of ASCII text
    holds no space, no "&", no "-", no "," and no upper-case letter. *)
Theorem email_of_name_charset (name : string) (c : ascii) :
  is_ascii name = true ->
  In c (chars (email_of_name name)) ->
  c <> " "%char /\ c <> "&"%char /\ c <> "-"%char /\ c <> ","%char /\
  is_upper c = false.
Proof.
  intros Hascii. unfold email_of_name, slug_of. cbv zeta.
  rewrite (lower_ascii_text name Hascii). rewrite !chars_app. intros H.
  apply in_app_or in H. destruct H as [H | H].
  { cbn in H. repeat (destruct H as [<- | H]; [repeat split; discriminate | ]).
    contradiction. }
  apply in_app_or in H. destruct H as [H | H].
  2:{ cbn in H. repeat (destruct H as [<- | H]; [repeat split; discriminate | ]).
      contradiction. }
  apply chars_replace in H. destruct H as [[] | [H Hcomma]].
  apply chars_replace in H. destruct H as [[] | [H Hhyphen]].
  apply chars_replace in H. destruct H as [H | [H Hamp]].
  { cbn in H. repeat (destruct H as [<- | H]; [repeat split; discriminate | ]).
    contradiction. }
  apply chars_replace in H. destruct H as [[] | [H Hspace]].
  apply chars_lower in H. destruct H as (d & _ & ->).
  repeat split; try assumption. apply lower_ascii_not_upper.
Qed.

(** X4: for a name of ASCII text, the address of the name and of its
    lower-cased form are the same: such names that differ in case only
    share one address. *)
Theorem email_of_name_ignores_case (name : string) :
  is_ascii name = true ->
  email_of_name (lower name) = email_of_name name.
Proof.
  intros Hascii. unfold email_of_name, slug_of.
  rewrite (lower_ascii_text name Hascii).
  rewrite (lower_ascii_text (ascii_lower name)) by (apply ascii_lower_is_ascii, Hascii).
  rewrite ascii_lower_idempotent. reflexivity.
Qed.

(** ** The output document *)

(** *** Numerals are read back *)

Lemma to_uint_nonnil (n : nat) : Nat.to_uint n <> Decimal.Nil.
Proof.
  pose proof (DecimalNat.Unsigned.to_of (Nat.to_uint n)) as H.
  rewrite DecimalNat.Unsigned.of_to in H.
  rewrite H. unfold Decimal.unorm. destruct (Decimal.nzhead (Nat.to_uint n)); discriminate.
Qed.

(** The text does not go on with a digit. *)
Definition no_leading_digit (s : string) : bool :=
  match s with
  | String c _ => negb (is_digit c)
  | EmptyString => true
  end.

Lemma read_digits_of_uint (d : Decimal.uint) :
  forall (acc : nat) (rest : string),
    no_leading_digit rest = true ->
    read_digits (NilEmpty.string_of_uint d ++ rest) acc = (Nat.of_uint_acc d acc, rest).
Proof.
  induction d as [ | d IH | d IH | d IH | d IH | d IH | d IH | d IH | d IH | d IH | d IH];
    intros acc rest Hrest;
    cbn [NilEmpty.string_of_uint append read_digits Nat.of_uint_acc].
  1: { destruct rest as [ | c r]; [reflexivity | ].
       cbn [no_leading_digit] in Hrest. apply negb_true_iff in Hrest.
       cbn [read_digits]. rewrite Hrest. reflexivity. }
  all: match goal with
       | |- context [is_digit ?c] => change (is_digit c) with true; cbv iota;
           rewrite IH by exact Hrest; rewrite Nat.tail_mul_spec; do 2 f_equal;
           let v := eval vm_compute in (digit_value c) in
           change (digit_value c) with v; lia
       end.
Qed.

(** A numeral starts with a digit. *)
Lemma str_of_nat_first (n : nat) :
  exists c r, str_of_nat n = String c r /\ is_digit c = true.
Proof.
  unfold str_of_nat, NilZero.string_of_uint.
  pose proof (to_uint_nonnil n) as Hnil.
  destruct (Nat.to_uint n) as [ | d | d | d | d | d | d | d | d | d | d];
    [congruence | .. ]; cbn [NilEmpty.string_of_uint];
    eexists; eexists; (split; [reflexivity | reflexivity]).
Qed.

Lemma read_nat_str_of_nat (n : nat) (rest : string) :
  no_leading_digit rest = true ->
  read_nat (str_of_nat n ++ rest) = Some (n, rest).
Proof.
  intros Hrest.
  destruct (str_of_nat_first n) as (c & r & E & Hc).
  unfold read_nat. rewrite E. cbn [append]. rewrite Hc.
  change (String c (r ++ rest)) with (String c r ++ rest). rewrite <- E.
  unfold str_of_nat, NilZero.string_of_uint.
  pose proof (to_uint_nonnil n) as Hnil.
  pose proof (DecimalNat.Unsigned.of_to n) as Hof. unfold Nat.of_uint in Hof.
  pose proof (read_digits_of_uint (Nat.to_uint n) 0 rest Hrest) as Hd.
  rewrite Hof in Hd.
  destruct (Nat.to_uint n); [congruence | .. ]; rewrite Hd; reflexivity.
Qed.

Lemma digit_not_minus (c : ascii) : is_digit c = true -> Ascii.eqb "-" c = false.
Proof.
  destruct c as [[] [] [] [] [] [] [] []]; try discriminate; reflexivity.
Qed.

Lemma read_int_str_of_Z (z : Z) (rest : string) :
  no_leading_digit rest = true ->
  read_int (str_of_Z z ++ rest) = Some (z, rest).
Proof.
  intros Hrest.
  assert (forall n, read_int (str_of_nat n ++ rest) = Some (Z.of_nat n, rest)) as Hnat.
  { intros n. unfold read_int.
    destruct (str_of_nat_first n) as (c & r & E & Hc).
    rewrite E at 1. cbn [append strip_prefix]. rewrite (digit_not_minus c Hc).
    rewrite read_nat_str_of_nat by exact Hrest. reflexivity. }
  destruct z as [ | p | p]; unfold str_of_Z.
  - apply (Hnat 0%nat).
  - rewrite Hnat. rewrite Z2Nat.id by lia. reflexivity.
  - unfold read_int. rewrite string_app_assoc.
    change ("-" ++ str_of_nat (Pos.to_nat p) ++ rest)
      with (String "-" (str_of_nat (Pos.to_nat p) ++ rest)).
    cbn [strip_prefix]. change (Ascii.eqb "-" "-") with true. cbv iota.
    rewrite read_nat_str_of_nat by exact Hrest.
    rewrite positive_nat_Z. reflexivity.
Qed.

Lemma strip_prefix_app (p s : string) : strip_prefix p (p ++ s) = Some s.
Proof.
  induction p as [ | c p IH]; cbn [append strip_prefix]; [reflexivity | ].
  rewrite Ascii.eqb_refl. exact IH.
Qed.

(** *** Records and the document are read back *)

(** What [json.loads] documents of its scanners: a string written by the
    encoder is read back whatever follows it, and so is a float written by
    [float.__repr__] when a comma follows it. *)
Hypothesis scan_string_encode :
  forall s rest, scan_string (encode_basestring_ascii s ++ rest) = Some (s, rest).
Hypothesis scan_float_repr :
  forall x rest,
    scan_float (float_repr x ++ String "," rest) = Some (x, String "," rest).

Lemma parse_key_encode (k rest : string) :
  parse_key k (encode_basestring_ascii k ++ ": " ++ rest) = Some rest.
Proof.
  unfold parse_key, obind. rewrite scan_string_encode, String.eqb_refl.
  apply (strip_prefix_app ": ").
Qed.

Lemma parse_string_field_encode (k v rest : string) :
  parse_string_field k
    (encode_basestring_ascii k ++ ": " ++ encode_basestring_ascii v ++ rest) =
  Some (v, rest).
Proof.
  unfold parse_string_field, obind. rewrite parse_key_encode. apply scan_string_encode.
Qed.

Lemma parse_float_field_encode (k : string) (x : float) (rest : string) :
  parse_float_field k
    (encode_basestring_ascii k ++ ": " ++ float_repr x ++ String "," rest) =
  Some (x, String "," rest).
Proof.
  unfold parse_float_field, obind. rewrite parse_key_encode. apply scan_float_repr.
Qed.

Lemma parse_int_field_encode (k : string) (z : Z) (rest : string) :
  no_leading_digit rest = true ->
  parse_int_field k (encode_basestring_ascii k ++ ": " ++ str_of_Z z ++ rest) =
  Some (z, rest).
Proof.
  intros H. unfold parse_int_field, obind. rewrite parse_key_encode.
  apply read_int_str_of_Z. exact H.
Qed.

(** The text of a record at depth 2, field by field. *)
Definition record_text (p : property) : string :=
  "{" ++ newline_indent 2 3 ++
  encode_basestring_ascii "id" ++ ": " ++ str_of_Z (id p) ++ separator 3 ++
  encode_basestring_ascii "propertyName" ++ ": " ++
    encode_basestring_ascii (propertyName p) ++ separator 3 ++
  encode_basestring_ascii "propertyDescription" ++ ": " ++
    encode_basestring_ascii (propertyDescription p) ++ separator 3 ++
  encode_basestring_ascii "propertyLocation" ++ ": " ++
    encode_basestring_ascii (propertyLocation p) ++ separator 3 ++
  encode_basestring_ascii "propertyCity" ++ ": " ++
    encode_basestring_ascii (propertyCity p) ++ separator 3 ++
  encode_basestring_ascii "propertyState" ++ ": " ++
    encode_basestring_ascii (propertyState p) ++ separator 3 ++
  encode_basestring_ascii "propertyCountry" ++ ": " ++
    encode_basestring_ascii (propertyCountry p) ++ separator 3 ++
  encode_basestring_ascii "propertyAddress" ++ ": " ++
    encode_basestring_ascii (propertyAddress p) ++ separator 3 ++
  encode_basestring_ascii "propertyPhoneNumber" ++ ": " ++
    encode_basestring_ascii (propertyPhoneNumber p) ++ separator 3 ++
  encode_basestring_ascii "propertyEmailAddress" ++ ": " ++
    encode_basestring_ascii (propertyEmailAddress p) ++ separator 3 ++
  encode_basestring_ascii "propertyAirportProximity" ++ ": " ++
    encode_basestring_ascii (propertyAirportProximity p) ++ separator 3 ++
  encode_basestring_ascii "propertyPricePerNight" ++ ": " ++
    float_repr (propertyPricePerNight p) ++ separator 3 ++
  encode_basestring_ascii "propertyCommissionAmount" ++ ": " ++
    float_repr (propertyCommissionAmount p) ++ separator 3 ++
  encode_basestring_ascii "propertyCancellationPenalty" ++ ": " ++
    encode_basestring_ascii (propertyCancellationPenalty p) ++
  newline_indent 2 2 ++ "}".

Lemma dumps_record (p : property) : dumps 2 (json_of_property p) = record_text p.
Proof.
  unfold json_of_property, record_text, separator.
  cbn [dumps]. rewrite !string_app_assoc. reflexivity.
Qed.

Lemma strip_prefix_app2 (a b s : string) : strip_prefix (a ++ b) (a ++ b ++ s) = Some s.
Proof. rewrite <- string_app_assoc. apply strip_prefix_app. Qed.

Lemma parse_float_field_sep (k : string) (x : float) (rest : string) :
  parse_float_field k
    (encode_basestring_ascii k ++ ": " ++ float_repr x ++ separator 3 ++ rest) =
  Some (x, separator 3 ++ rest).
Proof.
  change (separator 3 ++ rest) with (String "," (newline_indent 2 3 ++ rest)).
  apply parse_float_field_encode.
Qed.

(** Reading a record's text gives the record back. *)
Lemma parse_property_text (p : property) (rest : string) :
  parse_property (record_text p ++ rest) = Some (p, rest).
Proof.
  unfold parse_property, record_text.
  rewrite !string_app_assoc.
  rewrite strip_prefix_app2. cbn [obind].
  rewrite parse_int_field_encode by reflexivity. cbn [obind].
  rewrite strip_prefix_app. cbn [obind].
  do 10 (rewrite parse_string_field_encode; cbn [obind];
         rewrite strip_prefix_app; cbn [obind]).
  do 2 (rewrite parse_float_field_sep; cbn [obind];
        rewrite strip_prefix_app; cbn [obind]).
  rewrite parse_string_field_encode. cbn [obind].
  rewrite strip_prefix_app2. cbn [obind].
  destruct p. reflexivity.
Qed.

(** The members of a list at depth [level], as [dumps] writes them. *)
Definition items_of (level : nat) : list json -> string :=
  fix items (l : list json) : string :=
    match l with
    | [] => ""
    | x :: r =>
        dumps level x ++
        match r with
        | [] => ""
        | _ => "," ++ newline_indent 2 level ++ items r
        end
    end.

Lemma dumps_list (level : nat) (x : json) (r : list json) :
  dumps level (JList (x :: r)) =
  "[" ++ newline_indent 2 (S level) ++ items_of (S level) (x :: r) ++
  newline_indent 2 level ++ "]".
Proof. reflexivity. Qed.

Fixpoint records_text (l : list property) : string :=
  match l with
  | [] => ""
  | p :: r =>
      record_text p ++
      match r with
      | [] => ""
      | _ => separator 2 ++ records_text r
      end
  end.

Lemma items_of_records (l : list property) :
  items_of 2 (map json_of_property l) = records_text l.
Proof.
  induction l as [ | p l IH]; [reflexivity | ].
  cbn [map records_text]. rewrite <- IH, <- dumps_record.
  destruct l as [ | q l]; [reflexivity | ].
  cbn [map]. unfold separator. rewrite string_app_assoc. reflexivity.
Qed.

Lemma string_app_nil_r (s : string) : s ++ "" = s.
Proof. induction s as [ | c s IH]; cbn; [reflexivity | now rewrite IH]. Qed.

Lemma string_length_app (a b : string) :
  String.length (a ++ b) = (String.length a + String.length b)%nat.
Proof. induction a as [ | c a IH]; cbn; [reflexivity | now rewrite IH]. Qed.

Lemma parse_properties_text (l : list property) :
  forall (fuel : nat) (rest : string),
    l <> [] -> (List.length l <= fuel)%nat ->
    strip_prefix (separator 2) rest = None ->
    parse_properties fuel (records_text l ++ rest) = Some (l, rest).
Proof.
  induction l as [ | p l IH]; intros fuel rest Hne Hfuel Hrest; [congruence | ].
  destruct fuel as [ | fuel]; [cbn in Hfuel; lia | ].
  cbn [parse_properties records_text]. rewrite string_app_assoc.
  rewrite parse_property_text. cbn [obind].
  destruct l as [ | q l].
  - cbn [append]. rewrite Hrest. reflexivity.
  - rewrite string_app_assoc, strip_prefix_app.
    rewrite IH; [reflexivity | discriminate | cbn in *; lia | exact Hrest].
Qed.

Lemma records_text_length (l : list property) (rest : string) :
  (List.length l <= String.length (records_text l ++ rest))%nat.
Proof.
  induction l as [ | p l IH]; [cbn; lia | ].
  cbn [records_text List.length]. rewrite string_app_assoc.
  assert (1 <= String.length (record_text p))%nat as Hp by (cbn; lia).
  rewrite string_length_app.
  destruct l as [ | q l]; [cbn [List.length]; lia | ].
  rewrite string_app_assoc, string_length_app. lia.
Qed.

Lemma dumps_document (props : list property) :
  dumps 0 (data_of props) =
  "{" ++ newline_indent 2 1 ++
  encode_basestring_ascii "properties" ++ ": " ++
  dumps 1 (JList (map json_of_property props)) ++
  newline_indent 2 0 ++ "}".
Proof.
  unfold data_of. generalize (JList (map json_of_property props)). intros v.
  cbn [dumps]. rewrite !string_app_assoc. reflexivity.
Qed.

(** Reading the dumped document gives the records back. *)
Lemma parse_document_dumps (props : list property) :
  parse_document (dumps 0 (data_of props)) = Some props.
Proof.
  rewrite dumps_document. unfold parse_document.
  rewrite strip_prefix_app2. cbn [obind].
  rewrite parse_key_encode. cbn [obind].
  destruct props as [ | p props]; [reflexivity | ].
  cbn [map]. rewrite dumps_list, <- (map_cons json_of_property), items_of_records.
  rewrite !string_app_assoc.
  assert (forall y, strip_prefix "[]" ("[" ++ newline_indent 2 2 ++ y) = None) as ->
    by reflexivity.
  rewrite strip_prefix_app2. cbn [obind].
  rewrite parse_properties_text; [ | discriminate | apply records_text_length | reflexivity].
  reflexivity.
Qed.


(** A JSON object with the fourteen fields of a record, in the order of
    the dict literal: an integer, ten strings, and two floats before the
    last string. *)
Definition record_shape (j : json) : Prop :=
  exists (i : Z) (name description location city_ state country address_ phone email
          airport : string) (price commission : float) (cancellation : string),
    j = JDict
          [ ("id", JInt i);
            ("propertyName", JStr name);
            ("propertyDescription", JStr description);
            ("propertyLocation", JStr location);
            ("propertyCity", JStr city_);
            ("propertyState", JStr state);
            ("propertyCountry", JStr country);
            ("propertyAddress", JStr address_);
            ("propertyPhoneNumber", JStr phone);
            ("propertyEmailAddress", JStr email);
            ("propertyAirportProximity", JStr airport);
            ("propertyPricePerNight", JFloat price);
            ("propertyCommissionAmount", JFloat commission);
            ("propertyCancellationPenalty", JStr cancellation) ].

Lemma json_of_property_shape (p : property) : record_shape (json_of_property p).
Proof.
  unfold record_shape, json_of_property.
  do 14 eexists. reflexivity.
Qed.

(** C7: when Faker can hand out 1000 distinct companies, the script ends
    having written one file, "propertyFiles.json".  Its content is the
    indent-2 dump of one object whose only key is "properties"; the value
    under that key is the list of the 1000 generated records in loop order,
    each an object with exactly the fourteen record fields: an integer id,
    float price and commission, strings elsewhere.  Reading the text back
    gives exactly these 1000 records, in order. *)
Theorem main_writes_one_document (fuel : nat) (w : world) :
  (forall seen f, (List.length seen < 1000)%nat -> unique_company seen f <> None) ->
  w_seen w = [] -> (1000 <= fuel)%nat ->
  exists props w',
    generate fuel 1000 w = Ok (props, w') /\
    List.length props = 1000%nat /\
    Forall record_shape (map json_of_property props) /\
    main fuel w =
      Ok ([("propertyFiles.json",
            dumps 0 (JDict [("properties", JList (map json_of_property props))]))], w') /\
    dumps 0 (JDict [("properties", JList (map json_of_property props))]) =
      "{" ++ newline_indent 2 1 ++
      encode_basestring_ascii "properties" ++ ": " ++
      dumps 1 (JList (map json_of_property props)) ++
      newline_indent 2 0 ++ "}" /\
    parse_document (dumps 0 (JDict [("properties", JList (map json_of_property props))])) =
      Some props.
Proof.
  intros Htotal Hseen Hfuel.
  destruct (generate_total fuel 1000 w Htotal Hseen Hfuel) as (props & w' & E).
  exists props, w'. split; [exact E | ]. split; [ | split; [ | split; [ | split]]];
    [ | | | | exact (parse_document_dumps props)].
  - apply generate_names in E. destruct E as (names & w0 & _ & _ & Hlen & _). exact Hlen.
  - apply Forall_forall. intros j Hj. apply in_map_iff in Hj.
    destruct Hj as (p & <- & _). apply json_of_property_shape.
  - unfold main, script. rewrite (bind_eq _ _ _ _ _ E). reflexivity.
  - generalize (JList (map json_of_property props)). intros v.
    cbn [dumps]. rewrite !string_app_assoc. reflexivity.
Qed.

End Proofs.

(** * The concrete libraries satisfy the assumptions *)

Lemma toy_randbelow_lt (n g : nat) :
  (0 < n)%nat -> (fst (@randbelow ExactFloat ToyRandom n g) < n)%nat.
Proof. intros H. cbn. apply Nat.mod_upper_bound. lia. Qed.

Lemma toy_random_unit (g : nat) :
  @finite ExactFloat (fst (@random ExactFloat ToyRandom g)) = true /\
  (0 <= @value ExactFloat (fst (@random ExactFloat ToyRandom g)))%Q /\
  (@value ExactFloat (fst (@random ExactFloat ToyRandom g)) < 1)%Q.
Proof.
  split; [reflexivity | ].
  cbn [random ToyRandom fst value ExactFloat]. unfold Qle, Qlt. cbn [Qnum Qden].
  pose proof (Nat.mod_upper_bound g 1000 ltac:(lia)). split; lia.
Qed.

Lemma toy_set_iter_perm (l : list string) : Permutation (@set_iter ToyRuntime l) l.
Proof. apply Permutation_refl. Qed.

Lemma rev_set_iter_perm (l : list string) : Permutation (@set_iter ToyRuntimeRev l) l.
Proof. symmetry. apply Permutation_rev. Qed.

Lemma toy_lower_ascii_text (s : string) :
  is_ascii s = true -> @lower ToyRuntime s = ascii_lower s.
Proof. intros _. reflexivity. Qed.

Lemma longest_bound (l : list string) (s : string) :
  In s l -> (String.length s <= String.length (longest l))%nat.
Proof.
  induction l as [ | x l IH]; intros H; [contradiction | ].
  cbn [longest fold_right]. fold (longest l).
  destruct (Nat.ltb_spec (String.length (longest l)) (String.length x)) as [Hlt | Hge];
    destruct H as [<- | H]; try lia; apply IH in H; lia.
Qed.

Lemma toy_unique_company_fresh (seen : list string) (f : nat) (c : string) (f' : nat) :
  @unique_company ToyFaker seen f = Some (c, f') -> ~ In c seen.
Proof.
  cbn [unique_company ToyFaker]. unfold toy_unique_company.
  destruct (in_dec string_dec ("Acme " ++ str_of_nat f) seen) as [Hin | Hout];
    intros H; inversion H; subst; [ | exact Hout].
  intros Habs. apply longest_bound in Habs. cbn [String.length] in Habs. lia.
Qed.

Lemma toy_unique_company_total (seen : list string) (f : nat) :
  @unique_company ToyFaker seen f <> None.
Proof. discriminate. Qed.

(** ** Exact arithmetic satisfies the float laws *)

Lemma exact_ieee_laws : @ieee_laws ExactFloat.
Proof.
  constructor; unfold small; cbn [finite value cents fadd fsub fmul round2 ExactFloat].
  - reflexivity.
  - intros k _. split; lra.
  - intros j k _ H _. unfold Qle. cbn [Qnum Qden]. lia.
  - intros z _. unfold Qeq. cbn [Qnum Qden inject_Z]. lia.
  - reflexivity.
  - reflexivity.
  - reflexivity.
  - intros a x y _ _ _ H. lra.
  - intros a x y _ _ _ Ha H. nra.
  - intros [a1 a2] [b1 b2] _ _. unfold Qmult. cbn [Qnum Qden].
    rewrite Z.mul_comm, Pos.mul_comm. reflexivity.
  - intros a z _ _ H. rewrite H. ring.
  - intros a z _ _ H. rewrite H. ring.
  - intros a u _ _ H. rewrite H. ring.
  - reflexivity.
Qed.

Lemma exact_script_constants : @script_constants ExactFloat.
Proof.
  constructor; cbn [value cents fadd fsub fmul ExactFloat];
    repeat split; try (apply Qeq_bool_eq); try (apply Qle_bool_imp_le); reflexivity.
Qed.

(** ** The doubles give the constants of the script the values assumed *)

Lemma binary64_script_constants : @script_constants Binary64.
Proof.
  constructor; cbn [value cents fadd fsub fmul Binary64];
    repeat split; try (apply Qeq_bool_eq); try (apply Qle_bool_imp_le);
    vm_compute; reflexivity.
Qed.

(** Three roundings on the doubles, as CPython computes them:
    [round(85.55 * 0.1, 2)] is 8.55 (the product is 8.554999...),
    [round(75.0 * (0.1 + (0.2 - 0.1) * 0.75), 2)] is 13.13 (the product is
    13.125000000000002) and [round(75 + 675 * 0.817, 2)] is 626.47 (the sum
    is 626.4749999...); in exact arithmetic the three values are ties and
    round to 8.56, 13.12 and 626.48. *)
Lemma binary64_round2_examples :
  @round2 Binary64 (fmul (cents 8555) (cents 10)) = cents 855 /\
  @round2 Binary64
    (fmul (cents 7500) (fadd (cents 10) (fmul (fsub (cents 20) (cents 10)) (cents 75)))) =
    cents 1313 /\
  @round2 Binary64
    (fadd (cents 7500)
       (fmul (fsub (cents 75000) (cents 7500))
          (PrimFloat.div (of_Z64 817) (of_Z64 1000) : @float Binary64))) =
    cents 62647 /\
  @round2 ExactFloat (fmul (cents 8555) (cents 10)) = cents 856 /\
  @round2 ExactFloat
    (fmul (cents 7500) (fadd (cents 10) (fmul (fsub (cents 20) (cents 10)) (cents 75)))) =
    cents 1312 /\
  @round2 ExactFloat
    (fadd (cents 7500)
       (fmul (fsub (cents 75000) (cents 7500)) ((817 # 1000)%Q : @float ExactFloat))) =
    cents 62648.
Proof. repeat split; vm_compute; reflexivity. Qed.

(** ** The small codec reads back what it writes *)

Lemma toy_unescape_escape (s rest : string) :
  toy_unescape (toy_escape s ++ String "034" rest) = Some (s, rest).
Proof.
  induction s as [ | c s IH]; cbn [toy_escape append toy_unescape].
  - reflexivity.
  - destruct (Ascii.eqb c "034") eqn:Eq; cbn [orb].
    + cbn [append toy_unescape]. change (Ascii.eqb "\" "034") with false.
      change (Ascii.eqb "\" "\") with true. cbv iota. rewrite IH. reflexivity.
    + destruct (Ascii.eqb c "\") eqn:Eb.
      * cbn [append toy_unescape]. change (Ascii.eqb "\" "034") with false.
        change (Ascii.eqb "\" "\") with true. cbv iota. rewrite IH. reflexivity.
      * cbn [append toy_unescape]. rewrite Eq, Eb, IH. reflexivity.
Qed.

Lemma toy_scan_string_encode (s rest : string) :
  @scan_string ExactFloat ToyCodec (@encode_basestring_ascii ExactFloat ToyCodec s ++ rest) =
  Some (s, rest).
Proof.
  cbn [scan_string encode_basestring_ascii ToyCodec]. unfold toy_encode, toy_scan_string.
  cbn [append]. change (Ascii.eqb "034" "034") with true. cbv iota.
  rewrite string_app_assoc. apply toy_unescape_escape.
Qed.

Lemma digit_char_spec (n : nat) :
  (n < 10)%nat -> is_digit (digit_char n) = true /\ digit_value (digit_char n) = n.
Proof.
  intros H. do 10 (destruct n as [ | n]; [split; reflexivity | ]). lia.
Qed.

Lemma toy_scan_unsigned_repr (m : nat) (d : positive) (rest : string) :
  toy_scan_unsigned (toy_unsigned_repr m d ++ String "," rest) =
  Some (m, d, String "," rest).
Proof.
  unfold toy_unsigned_repr, toy_scan_unsigned.
  destruct (Pos.eqb_spec d 100) as [-> | Hd].
  - unfold toy_decimal.
    destruct (digit_char_spec ((m / 10) mod 10)) as [D1 V1];
      [apply Nat.mod_upper_bound; lia | ].
    destruct (digit_char_spec (m mod 10)) as [D2 V2];
      [apply Nat.mod_upper_bound; lia | ].
    assert (m / 100 = m / 10 / 10)%nat as E100
      by (rewrite Nat.Div0.div_div; reflexivity).
    assert (100 * (m / 100) + 10 * ((m / 10) mod 10) + m mod 10 = m)%nat as Em.
    { pose proof (Nat.div_mod_eq m 10). pose proof (Nat.div_mod_eq (m / 10) 10).
      rewrite E100. lia. }
    rewrite !string_app_assoc. rewrite read_nat_str_of_nat by reflexivity.
    cbn [append]. change (Ascii.eqb "." ".") with true. cbv iota. rewrite D1.
    destruct (Nat.eqb_spec (m mod 10) 0) as [E0 | E0]; cbn [append].
    + change (is_digit ",") with false. cbv iota. rewrite V1.
      do 2 f_equal. f_equal. lia.
    + rewrite D2, V1, V2. do 2 f_equal. f_equal. lia.
  - rewrite !string_app_assoc. rewrite read_nat_str_of_nat by reflexivity.
    cbn [append]. change (Ascii.eqb "/" ".") with false.
    change (Ascii.eqb "/" "/") with true. cbv iota.
    rewrite read_nat_str_of_nat by reflexivity.
    destruct (Pos2Nat.is_succ d) as [k Ek]. rewrite Ek, <- Ek, Pos2Nat.id. reflexivity.
Qed.

Lemma toy_unsigned_repr_first (m : nat) (d : positive) :
  exists c r, toy_unsigned_repr m d = String c r /\ is_digit c = true.
Proof.
  unfold toy_unsigned_repr, toy_decimal.
  destruct (d =? 100)%positive.
  - destruct (str_of_nat_first (m / 100)) as (c & r & E & Hc). rewrite E.
    eexists. eexists. split; [reflexivity | exact Hc].
  - destruct (str_of_nat_first m) as (c & r & E & Hc). rewrite E.
    eexists. eexists. split; [reflexivity | exact Hc].
Qed.

Lemma toy_scan_float_repr (x : @float ExactFloat) (rest : string) :
  @scan_float ExactFloat ToyCodec (@float_repr ExactFloat ToyCodec x ++ String "," rest) =
  Some (x, String "," rest).
Proof.
  cbn [scan_float float_repr ToyCodec].
  destruct x as [k d]. unfold toy_float_repr, toy_scan_float. cbn [Qnum Qden].
  destruct (Z.ltb_spec k 0) as [Hneg | Hpos].
  - rewrite string_app_assoc. cbn [append strip_prefix].
    change (Ascii.eqb "-" "-") with true. cbv iota.
    rewrite toy_scan_unsigned_repr.
    replace (- Z.of_nat (Z.abs_nat k))%Z with k by (rewrite Zabs2Nat.id_abs; lia).
    reflexivity.
  - cbn [append].
    destruct (toy_unsigned_repr_first (Z.abs_nat k) d) as (c & r & E & Hc).
    rewrite E at 1. cbn [append strip_prefix]. rewrite (digit_not_minus c Hc).
    rewrite toy_scan_unsigned_repr.
    replace (Z.of_nat (Z.abs_nat k)) with k by (rewrite Zabs2Nat.id_abs; lia).
    reflexivity.
Qed.

(** * The runs used below *)

Definition world_of {PF : PyFloat} {R : RandomGen} {F : Faker} {A : Type}
    (o : outcome (A * @world PF R F)) (default : @world PF R F) : @world PF R F :=
  match o with
  | Ok (_, w) => w
  | _ => default
  end.

(** Two records on the small libraries. *)
Abbreviation toy_run :=
  (@generate ExactFloat ToyRandom ToyFaker ToyRuntime 2 2 toy_world).

Lemma outcome_Ok_eta {PF : PyFloat} {R : RandomGen} {F : Faker}
    (o : outcome (list property * @world PF R F)) (default : @world PF R F)
    (props : list property) (w : @world PF R F) :
  o = Ok (props, w) -> o = Ok (records_of o, world_of o default).
Proof. intros ->. reflexivity. Qed.

Lemma toy_run_Ok : toy_run = Ok (records_of toy_run, world_of toy_run toy_world).
Proof.
  destruct (@generate_total ExactFloat ToyRandom ToyFaker ToyRuntime
              toy_randbelow_lt toy_set_iter_perm toy_unique_company_fresh
              2 2 toy_world) as (props & w' & E);
    [intros seen f _; apply toy_unique_company_total | reflexivity | lia | ].
  exact (outcome_Ok_eta _ toy_world _ _ E).
Qed.

(** The text of the file a run wrote. *)
Definition file_text {PF : PyFloat} {R : RandomGen} {F : Faker}
    (o : outcome (list (string * string) * @world PF R F)) : string :=
  match o with
  | Ok ([(_, text)], _) => text
  | _ => ""
  end.

(** [s.split(char(10))]: the lines of a text. *)
Fixpoint lines (s : string) : list string :=
  match s with
  | EmptyString => [EmptyString]
  | String c r =>
      if Ascii.eqb c "010" then EmptyString :: lines r
      else
        match lines r with
        | l :: ls => String c l :: ls
        | [] => [String c EmptyString]
        end
  end.

(** [s] between double quotes. *)
Definition quoted (s : string) : string := String "034" (s ++ String "034" "").

(** One record on the doubles, whose first [random()] is 2^-16 and whose
    second is 0.0. *)
Abbreviation cent_run :=
  (@generate Binary64 CentRandom ToyFaker ToyRuntime 1 1 cent_world).

(** * The claims on concrete runs *)

Lemma ids_are_one_to_n_witness :
  map id (records_of toy_run) = map Z.of_nat (seq 1 2).
Proof.
  apply (@ids_are_one_to_n ExactFloat ToyRandom ToyFaker ToyRuntime 2 2 toy_world
           (world_of toy_run toy_world) (records_of toy_run)).
  exact toy_run_Ok.
Defined.

Lemma country_is_a_table_key_witness :
  Forall (fun p => propertyCountry p = "USA" \/ propertyCountry p = "Canada" \/
                   propertyCountry p = "Mexico") (records_of toy_run) /\
  keys countries_states = ["USA"; "Canada"; "Mexico"].
Proof.
  apply (@country_is_a_table_key ExactFloat ToyRandom ToyFaker ToyRuntime 2 2 toy_world
           (world_of toy_run toy_world) (records_of toy_run)).
  exact toy_run_Ok.
Defined.

Lemma state_belongs_to_country_witness :
  Forall (fun p =>
    exists g j g1 states k g2,
      @randbelow ExactFloat ToyRandom (List.length countries) g = (j, g1) /\
      nth_error countries j = Some (propertyCountry p) /\
      dict_lookup countries_states (propertyCountry p) = Some states /\
      @randbelow ExactFloat ToyRandom (List.length states) g1 = (k, g2) /\
      nth_error states k = Some (propertyState p) /\
      In (propertyState p) states) (records_of toy_run).
Proof.
  apply (@state_belongs_to_country ExactFloat ToyRandom ToyFaker ToyRuntime 2 2 toy_world
           (world_of toy_run toy_world) (records_of toy_run)).
  exact toy_run_Ok.
Defined.

Lemma email_derived_from_name_witness :
  Forall (fun p =>
    propertyEmailAddress p =
      "info@" ++
      replace "," "" (replace "-" "" (replace "&" "and"
        (replace " " "" (@lower ToyRuntime (propertyName p))))) ++
      ".com") (records_of toy_run).
Proof.
  apply (@email_derived_from_name ExactFloat ToyRandom ToyFaker ToyRuntime 2 2 toy_world
           (world_of toy_run toy_world) (records_of toy_run)).
  exact toy_run_Ok.
Defined.

(** The two records of the run read "5 miles from ..." and "21 miles from
    ...". *)
Lemma airport_proximity_form_witness :
  Forall (fun p =>
    exists d airport_city j g g' loc f0 f1 f2 f3 f4 address_ numeral,
      @randbelow ExactFloat ToyRandom 29 g = (j, g') /\ d = (2 + j)%nat /\
      (2 <= d)%nat /\ (d <= 30)%nat /\
      propertyAirportProximity p =
        str_of_nat d ++ " miles from " ++ airport_city ++ " International Airport" /\
      @city ToyFaker loc f0 = (propertyCity p, f1) /\
      @address ToyFaker loc f1 = (address_, f2) /\
      @phone_number ToyFaker loc f2 = (propertyPhoneNumber p, f3) /\
      @city ToyFaker loc f3 = (airport_city, f4) /\
      nth_error miles_numerals j = Some numeral /\
      propertyAirportProximity p =
        numeral ++ " miles from " ++ airport_city ++ " International Airport")
    (records_of toy_run) /\
  map propertyAirportProximity (records_of toy_run) =
    [ "5 miles from Springfield 1239 International Airport";
      "21 miles from Springfield 1243 International Airport" ].
Proof.
  split.
  - apply (@airport_proximity_form ExactFloat ToyRandom ToyFaker ToyRuntime toy_randbelow_lt
             2 2 toy_world (world_of toy_run toy_world) (records_of toy_run)).
    exact toy_run_Ok.
  - vm_compute. reflexivity.
Defined.

Lemma price_and_commission_ranges_witness :
  Forall (fun p =>
    let price := propertyPricePerNight p in
    let commission := propertyCommissionAmount p in
    (75 <= value price)%Q /\ (value price <= 750)%Q /\
    (exists k : Z, (7500 <= k <= 75000)%Z /\ price = cents k) /\
    (exists k : Z, commission = cents k) /\
    (exists rate : @float ExactFloat,
        finite rate = true /\
        (value (@cents ExactFloat 10) <= value rate)%Q /\
        (value rate <= value (@cents ExactFloat 20))%Q /\
        commission = round2 (fmul price rate)) /\
    (value (round2 (fmul price (cents 10))) <= value commission)%Q /\
    (value commission <= value (round2 (fmul price (cents 20))))%Q) (records_of toy_run).
Proof.
  apply (@price_and_commission_ranges ExactFloat ToyRandom ToyFaker ToyRuntime
           toy_random_unit exact_ieee_laws exact_script_constants
           2 2 toy_world (world_of toy_run toy_world) (records_of toy_run)).
  exact toy_run_Ok.
Defined.


(** C3 as stated fails on the doubles: when the first [random()] of the
    run is 2^-16 and the second 0.0, the price is the float 75.01, within
    range, and the commission [round(75.01 * 0.1, 2)] is 7.5, which is less
    than a tenth of the price, both in exact arithmetic and as Python
    compares the floats [0.1 * price] and [commission].  The commission is
    not below [round(0.1 * price, 2)] and not above
    [round(0.2 * price, 2)]. *)
Lemma commission_below_tenth_of_price :
  Exists (fun p : @property Binary64 =>
    let price := propertyPricePerNight p in
    let commission := propertyCommissionAmount p in
    (value price == value (@cents Binary64 7501))%Q /\
    (75 <= value price)%Q /\ (value price <= 750)%Q /\
    (value commission == 15 # 2)%Q /\
    ~ ((1 # 10) * value price <= value commission)%Q /\
    PrimFloat.leb (PrimFloat.mul (cents64 10) price) commission = false /\
    (value (round2 (fmul price (cents 10))) <= value commission)%Q /\
    (value commission <= value (round2 (fmul price (cents 20))))%Q)
    (records_of cent_run).
Proof.
  assert (existsb (fun p : @property Binary64 =>
            let price := propertyPricePerNight p in
            let commission := propertyCommissionAmount p in
            Qeq_bool (value price) (value (@cents Binary64 7501)) &&
            Qle_bool 75 (value price) &&
            Qle_bool (value price) 750 &&
            Qeq_bool (value commission) (15 # 2) &&
            negb (Qle_bool ((1 # 10) * value price) (value commission)) &&
            negb (PrimFloat.leb (PrimFloat.mul (cents64 10) price) commission) &&
            Qle_bool (value (round2 (fmul price (cents 10)))) (value commission) &&
            Qle_bool (value commission) (value (round2 (fmul price (cents 20)))))%bool
            (records_of cent_run) = true) as H by (vm_compute; reflexivity).
  apply existsb_exists in H. destruct H as (p & Hin & H).
  apply Exists_exists. exists p. split; [exact Hin | ]. cbv zeta in *.
  repeat (apply andb_prop in H; destruct H as [H ?]).
  repeat split.
  - apply Qeq_bool_eq. assumption.
  - apply Qle_bool_imp_le. assumption.
  - apply Qle_bool_imp_le. assumption.
  - apply Qeq_bool_eq. assumption.
  - intros Habs. apply Qle_bool_iff in Habs.
    match goal with
    | Hn : negb (Qle_bool _ _) = true |- _ => rewrite Habs in Hn; discriminate Hn
    end.
  - apply negb_true_iff. assumption.
  - apply Qle_bool_imp_le. assumption.
  - apply Qle_bool_imp_le. assumption.
Qed.

(** The two descriptions of the run. *)
Lemma description_composition_witness :
  Forall (fun p =>
    let name := propertyName p in
    let location := propertyLocation p in
    let property_type := property_type_of name in
    ((exists before after,
         keys property_type_features = (before ++ property_type :: after)%list /\
         contains property_type name = true /\
         Forall (fun k => contains k name = false) before) \/
     (Forall (fun k => contains k name = false) (keys property_type_features) /\
      property_type = "Hotel")) /\
    exists amenities type_features closing opening location_desc
           selected_amenities selected_features f0 f1 f2 f3 f4 f5 f6,
      dict_lookup location_amenities location = Some amenities /\
      dict_lookup property_type_features property_type = Some type_features /\
      dict_lookup country_closings (propertyCountry p) = Some closing /\
      In opening (@opening_lines ToyRuntime name location) /\
      (dict_lookup location_descriptions location = Some location_desc \/
       (dict_lookup location_descriptions location = None /\
        location_desc = "in a beautiful " ++ @lower ToyRuntime location ++ " setting")) /\
      List.length selected_amenities = 4%nat /\
      (exists rest, Permutation (selected_amenities ++ rest)%list amenities) /\
      List.length selected_features = 3%nat /\
      (exists rest, Permutation (selected_features ++ rest)%list type_features) /\
      Permutation [f0; f1; f2; f3; f4; f5; f6]
        (selected_amenities ++ selected_features)%list /\
      propertyDescription p =
        opening ++ " Located " ++ location_desc ++
        ", our property combines modern comfort with local charm. " ++
        ("Enjoy " ++ f0 ++ ", " ++ f1 ++ ", and " ++ f2 ++
         ", along with " ++ f3 ++ ", " ++ f4 ++ ", " ++ f5 ++ ", " ++ f6) ++
        ", " ++ closing /\
      exists g g' j0 a0 a1 a2 a3 b0 b1 b2 s6 s5 s4 s3 s2 s1,
        @draw_sequence ExactFloat ToyRandom
          [5; 5; 4; 3; 2; 5; 4; 3; 7; 6; 5; 4; 3; 2]%nat g =
          ([j0; a0; a1; a2; a3; b0; b1; b2; s6; s5; s4; s3; s2; s1], g') /\
        nth_error (@opening_lines ToyRuntime name location) j0 = Some opening /\
        selected_amenities = pool_pick amenities 5 [a0; a1; a2; a3] /\
        selected_features = pool_pick type_features 5 [b0; b1; b2] /\
        [f0; f1; f2; f3; f4; f5; f6] =
          fisher_yates 6 [s6; s5; s4; s3; s2; s1]
            (selected_amenities ++ selected_features)%list) (records_of toy_run) /\
  map propertyDescription (records_of toy_run) =
    [ "Experience exceptional hospitality at Acme 1234 Lodge. " ++
      "Located in a beautiful valley setting, " ++
      "our property combines modern comfort with local charm. " ++
      "Enjoy fresh air, hiking paths, and rustic charm, " ++
      "along with scenic drives, nature setting, valley panoramas, lodge dining, " ++
      "providing an authentic Canadian hospitality experience.";
      "Discover the perfect blend of comfort and luxury at Acme 1235 Resort. " ++
      "Located in a beautiful valley setting, " ++
      "our property combines modern comfort with local charm. " ++
      "Enjoy mountain backdrops, valley panoramas, and multiple restaurants, " ++
      "along with concierge service, hiking paths, fresh air, spa services, " ++
      "making it the perfect choice for your American adventure." ].
Proof.
  split.
  - apply (@description_composition ExactFloat ToyRandom ToyFaker ToyRuntime
             toy_randbelow_lt
             2 2 toy_world (world_of toy_run toy_world) (records_of toy_run)).
    exact toy_run_Ok.
  - vm_compute. reflexivity.
Defined.

(** The run of [main] on the small libraries, and the lines of the file
    that the same script writes for one record. *)
Lemma main_writes_one_document_witness :
  (exists props w',
    @generate ExactFloat ToyRandom ToyFaker ToyRuntime 1000 1000 toy_world =
      Ok (props, w') /\
    List.length props = 1000%nat /\
    Forall record_shape (map json_of_property props) /\
    @main ExactFloat ToyRandom ToyFaker ToyRuntime ToyCodec 1000 toy_world =
      Ok ([("propertyFiles.json",
            @dumps ExactFloat ToyCodec 0
              (JDict [("properties", JList (map json_of_property props))]))], w') /\
    @dumps ExactFloat ToyCodec 0
      (JDict [("properties", JList (map json_of_property props))]) =
      "{" ++ newline_indent 2 1 ++
      @encode_basestring_ascii ExactFloat ToyCodec "properties" ++ ": " ++
      @dumps ExactFloat ToyCodec 1 (JList (map json_of_property props)) ++
      newline_indent 2 0 ++ "}" /\
    @parse_document ExactFloat ToyCodec
      (@dumps ExactFloat ToyCodec 0
         (JDict [("properties", JList (map json_of_property props))])) =
      Some props) /\
  lines (file_text (@script ExactFloat ToyRandom ToyFaker ToyRuntime ToyCodec 1 1 toy_world)) =
    [ "{";
      "  " ++ quoted "properties" ++ ": [";
      "    {";
      "      " ++ quoted "id" ++ ": 1,";
      "      " ++ quoted "propertyName" ++ ": " ++ quoted "Acme 1234 Lodge" ++ ",";
      "      " ++ quoted "propertyDescription" ++ ": " ++
        quoted ("Experience exceptional hospitality at Acme 1234 Lodge. " ++
                "Located in a beautiful forest setting, " ++
                "our property combines modern comfort with local charm. " ++
                "Enjoy nature setting, cabin atmosphere, and nature immersion, " ++
                "along with forest trails, rustic charm, wildlife viewing, " ++
                "cozy atmosphere, " ++
                "providing an authentic Canadian hospitality experience.") ++ ",";
      "      " ++ quoted "propertyLocation" ++ ": " ++ quoted "Forest" ++ ",";
      "      " ++ quoted "propertyCity" ++ ": " ++ quoted "Springfield 1235" ++ ",";
      "      " ++ quoted "propertyState" ++ ": " ++ quoted "New Brunswick" ++ ",";
      "      " ++ quoted "propertyCountry" ++ ": " ++ quoted "Canada" ++ ",";
      "      " ++ quoted "propertyAddress" ++ ": " ++
        quoted "1236 Main Street, Springfield" ++ ",";
      "      " ++ quoted "propertyPhoneNumber" ++ ": " ++ quoted "555-1237" ++ ",";
      "      " ++ quoted "propertyEmailAddress" ++ ": " ++
        quoted "info@acme1234lodge.com" ++ ",";
      "      " ++ quoted "propertyAirportProximity" ++ ": " ++
        quoted "28 miles from Springfield 1238 International Airport" ++ ",";
      "      " ++ quoted "propertyPricePerNight" ++ ": 488.1,";
      "      " ++ quoted "propertyCommissionAmount" ++ ": 64.38,";
      "      " ++ quoted "propertyCancellationPenalty" ++ ": " ++
        quoted "30% penalty if cancelled within 72 hours";
      "    }";
      "  ]";
      "}" ].
Proof.
  split.
  - apply (@main_writes_one_document ExactFloat ToyRandom ToyFaker ToyRuntime ToyCodec
             toy_randbelow_lt toy_set_iter_perm toy_unique_company_fresh
             toy_scan_string_encode toy_scan_float_repr 1000 toy_world).
    + intros seen f _. apply toy_unique_company_total.
    + reflexivity.
    + lia.
  - vm_compute. reflexivity.
Defined.

(** * The order of the names follows the interpreter's set order *)

(** The names a run collects do not depend on the interpreter; the order in
    which the records carry them is the order in which that interpreter
    iterates the set. *)
Lemma names_follow_set_order {PF : PyFloat} {R : RandomGen} {F : Faker} (P1 P2 : Runtime)
    (fuel n : nat) (w w1 w2 : world) (props1 props2 : list property) :
  (forall l, Permutation (@set_iter P1 l) l) ->
  (forall l, Permutation (@set_iter P2 l) l) ->
  @generate PF R F P1 fuel n w = Ok (props1, w1) ->
  @generate PF R F P2 fuel n w = Ok (props2, w2) ->
  exists names,
    NoDup names /\ List.length names = n /\
    map propertyName props1 = @set_iter P1 names /\
    map propertyName props2 = @set_iter P2 names.
Proof.
  intros Hp1 Hp2 H1 H2.
  apply (generate_names Hp1) in H1. apply (generate_names Hp2) in H2.
  destruct H1 as (names & wa & Ha & Hnd & Hlen & Hn1 & _).
  destruct H2 as (names' & wb & Hb & _ & _ & Hn2 & _).
  rewrite Ha in Hb. inversion Hb; subst names' wb.
  exists names. repeat split.
  - eapply Permutation_NoDup; [apply Hp1 | exact Hnd].
  - rewrite <- Hlen, <- (length_map propertyName), Hn1.
    symmetry. apply Permutation_length, Hp1.
  - exact Hn1.
  - exact Hn2.
Qed.

Lemma NoDup_rev_neq {A : Type} (l : list A) :
  NoDup l -> (2 <= List.length l)%nat -> l <> rev l.
Proof.
  intros Hnd Hlen E. destruct l as [ | a [ | b l]]; cbn in Hlen; try lia.
  inversion Hnd as [ | ? ? Hout _]; subst.
  cbn [rev] in E. destruct (rev l ++ [b])%list as [ | c t] eqn:Er.
  - apply (f_equal (@List.length A)) in Er. rewrite length_app in Er. cbn in Er. lia.
  - cbn in E. inversion E; subst c. apply Hout.
    assert (In a (rev l ++ [b])%list) as Hin by (rewrite Er; left; reflexivity).
    apply in_app_or in Hin. destruct Hin as [Hin | [-> | []]].
    + right. apply in_rev. exact Hin.
    + left. reflexivity.
Qed.

(** Both runs wrote one file, and the two texts are not the same. *)
Definition texts_differ {PF : PyFloat} {R : RandomGen} {F : Faker}
    (o1 o2 : outcome (list (string * string) * @world PF R F)) : bool :=
  match o1, o2 with
  | Ok ([(_, text1)], _), Ok ([(_, text2)], _) => negb (String.eqb text1 text2)
  | _, _ => false
  end.

Lemma texts_differ_irrefl {PF : PyFloat} {R : RandomGen} {F : Faker}
    (o : outcome (list (string * string) * @world PF R F)) :
  texts_differ o o = true -> False.
Proof.
  unfold texts_differ. destruct o as [[[ | [path text] [ | ? ?]] w] | e | ]; try discriminate.
  rewrite String.eqb_refl. discriminate.
Qed.

(** C1 fails on the code: with the same generator seeds, an interpreter
    that iterates the set of names in insertion order and one that iterates
    it in the opposite order both finish the 1000-record run, and the second
    corpus carries the names of the first in reverse, so the corpora differ;
    on the two-record run the texts written to the file differ as well. *)
Theorem same_seeds_different_output :
  (exists props1 w1 props2 w2,
      @generate ExactFloat ToyRandom ToyFaker ToyRuntime 1000 1000 toy_world =
        Ok (props1, w1) /\
      @generate ExactFloat ToyRandom ToyFaker ToyRuntimeRev 1000 1000 toy_world =
        Ok (props2, w2) /\
      map propertyName props2 = rev (map propertyName props1) /\
      props1 <> props2) /\
  @script ExactFloat ToyRandom ToyFaker ToyRuntime ToyCodec 2 2 toy_world <>
  @script ExactFloat ToyRandom ToyFaker ToyRuntimeRev ToyCodec 2 2 toy_world.
Proof.
  split.
  - destruct (@generate_total ExactFloat ToyRandom ToyFaker ToyRuntime
                toy_randbelow_lt toy_set_iter_perm toy_unique_company_fresh
                1000 1000 toy_world) as (props1 & w1 & E1);
      [intros seen f _; apply toy_unique_company_total | reflexivity | lia | ].
    destruct (@generate_total ExactFloat ToyRandom ToyFaker ToyRuntimeRev
                toy_randbelow_lt rev_set_iter_perm toy_unique_company_fresh
                1000 1000 toy_world) as (props2 & w2 & E2);
      [intros seen f _; apply toy_unique_company_total | reflexivity | lia | ].
    exists props1, w1, props2, w2. split; [exact E1 | ]. split; [exact E2 | ].
    destruct (names_follow_set_order ToyRuntime ToyRuntimeRev 1000 1000 toy_world w1 w2
                props1 props2 toy_set_iter_perm rev_set_iter_perm E1 E2)
      as (names & Hnd & Hlen & Hn1 & Hn2).
    cbn [set_iter ToyRuntime ToyRuntimeRev] in Hn1, Hn2.
    split; [rewrite Hn1, Hn2; reflexivity | ].
    intros ->. rewrite Hn1 in Hn2. revert Hn2. apply NoDup_rev_neq; [exact Hnd | lia].
  - intros E.
    assert (texts_differ
              (@script ExactFloat ToyRandom ToyFaker ToyRuntime ToyCodec 2 2 toy_world)
              (@script ExactFloat ToyRandom ToyFaker ToyRuntimeRev ToyCodec 2 2 toy_world) =
            true) as H
      by (vm_compute; reflexivity).
    rewrite E in H. apply texts_differ_irrefl in H. exact H.
Qed.

(** * Further properties of the generator *)

(** ** Dictionary lookups *)

Lemma dict_lookup_None {V : Type} (d : list (string * V)) (k : string) :
  dict_lookup d k = None <-> ~ In k (keys d).
Proof.
  induction d as [ | [k' v] d IH]; cbn [dict_lookup keys map fst].
  - split; [intros _ [] | reflexivity].
  - destruct (String.eqb_spec k' k) as [-> | Hne].
    + split; [discriminate | intros H; exfalso; apply H; left; reflexivity].
    + rewrite IH. unfold keys. split.
      * intros H [E | Hin]; [congruence | exact (H Hin)].
      * intros H Hin. apply H. right. exact Hin.
Qed.

Section Records.

Context {PF : PyFloat} {R : RandomGen} {F : Faker} {P : Runtime}.

Hypothesis randbelow_lt :
  forall n g, (0 < n)%nat -> (fst (randbelow n g) < n)%nat.
Hypothesis set_iter_perm :
  forall l, Permutation (set_iter l) l.
Hypothesis unique_company_fresh :
  forall seen f c f', unique_company seen f = Some (c, f') -> ~ In c seen.

(** X1: the location of every generated record is one of the thirty
    entries of [locations], and its cancellation penalty one of the nine
    entries of [cancellation_policies]. *)
Theorem location_and_policy_enumerated (fuel n : nat) (w w' : world)
    (props : list property) :
  generate fuel n w = Ok (props, w') ->
  Forall (fun p => In (propertyLocation p) locations /\
                   In (propertyCancellationPenalty p) cancellation_policies) props.
Proof.
  apply generate_Forall.
  intros names i w0 p wn H. apply make_property_Ok in H.
  destruct H as (country & states & state & city_ & address_ & phone & location & miles &
    airport_city & price_ & rate & cancellation & name & description & email &
    w1 & w2 & w3 & w4 & w5 & w6 & w7 & w8 & w9 & w10 & w11 & H).
  destruct H as (_ & _ & _ & _ & _ & _ & E7 & _ & _ & _ & _ & E12 & _ & _ & _ & ->).
  cbn [propertyLocation propertyCancellationPenalty].
  split; eapply choice_In; eassumption.
Qed.

(** X2: the address of every generated record is one line: it holds no
    newline character, whatever Faker returned. *)
Theorem address_is_single_line (fuel n : nat) (w w' : world) (props : list property) :
  generate fuel n w = Ok (props, w') ->
  Forall (fun p => ~ In "010"%char (chars (propertyAddress p))) props.
Proof.
  apply generate_Forall.
  intros names i w0 p wn H. apply make_property_Ok in H.
  destruct H as (country & states & state & city_ & address_ & phone & location & miles &
    airport_city & price_ & rate & cancellation & name & description & email &
    w1 & w2 & w3 & w4 & w5 & w6 & w7 & w8 & w9 & w10 & w11 & H).
  destruct H as (_ & _ & _ & _ & _ & _ & _ & _ & _ & _ & _ & _ & _ & _ & _ & ->).
  cbn [propertyAddress]. intros Hin. apply chars_replace in Hin.
  destruct Hin as [Hin | [_ Hne]].
  - cbn in Hin. destruct Hin as [E | [E | []]]; discriminate E.
  - apply Hne. reflexivity.
Qed.

(** X5: [get_country_specific_data] returns for a country of the table its
    subdivision list, which is not empty, with the locale of that country,
    and leaves the generators untouched; for any other country it raises
    [KeyError]: the en_US fallback of its last branch is never returned. *)
Theorem get_country_specific_data_cases (country : string) (w : world) :
  (In country (keys countries_states) ->
   exists states,
     dict_lookup countries_states country = Some states /\ states <> [] /\
     get_country_specific_data country w = Ok ((locale_of country, states), w)) /\
  (~ In country (keys countries_states) ->
   get_country_specific_data country w = Raise KeyError).
Proof.
  unfold get_country_specific_data. split.
  - intros H. destruct (countries_have_states country H) as (states & Es & Hne).
    exists states. rewrite Es. repeat split; assumption.
  - intros H. apply dict_lookup_None in H. rewrite H. reflexivity.
Qed.

(** X6: the city, the address, the phone number and the airport city of a
    generated record come from the Faker locale of the record's country:
    en_US for "USA", en_CA for "Canada", es_MX for "Mexico"; the record's
    address is Faker's with every newline replaced by ", ", and the airport
    city is the one its airport proximity names. *)
Theorem locale_follows_country (fuel n : nat) (w w' : world) (props : list property) :
  generate fuel n w = Ok (props, w') ->
  Forall (fun p =>
    exists loc f0 f1 f2 f3 f4 raw_address airport_city,
      ((propertyCountry p = "USA" /\ loc = en_US) \/
       (propertyCountry p = "Canada" /\ loc = en_CA) \/
       (propertyCountry p = "Mexico" /\ loc = es_MX)) /\
      city loc f0 = (propertyCity p, f1) /\
      address loc f1 = (raw_address, f2) /\
      propertyAddress p = replace "010" ", " raw_address /\
      phone_number loc f2 = (propertyPhoneNumber p, f3) /\
      city loc f3 = (airport_city, f4) /\
      exists miles,
        propertyAirportProximity p =
          str_of_nat miles ++ " miles from " ++ airport_city ++ " International Airport")
    props.
Proof.
  apply generate_Forall.
  intros names i w0 p wn H. apply make_property_Ok in H.
  destruct H as (country & states & state & city_ & address_ & phone & location & miles &
    airport_city & price_ & rate & cancellation & name & description & email &
    w1 & w2 & w3 & w4 & w5 & w6 & w7 & w8 & w9 & w10 & w11 & H).
  destruct H as (E1 & _ & _ & E4 & E5 & E6 & E7 & E8 & E9 & _ & _ & _ & _ & _ & _ & ->).
  cbn [propertyCountry propertyCity propertyAddress propertyPhoneNumber
       propertyAirportProximity].
  apply choice_In in E1.
  apply faker_call_Ok in E4. destruct E4 as (f1 & E4 & ->).
  apply faker_call_Ok in E5. destruct E5 as (f2 & E5 & ->).
  apply faker_call_Ok in E6. destruct E6 as (f3 & E6 & ->).
  apply choice_Ok in E7. destruct E7 as (j7 & g7 & _ & _ & ->).
  apply randint_Ok in E8. destruct E8 as (j & g' & _ & _ & ->).
  apply faker_call_Ok in E9. destruct E9 as (f4 & E9 & _).
  cbn [w_fk] in *.
  exists (locale_of country), (w_fk w2), f1, f2, f3, f4, address_, airport_city.
  split; [ | repeat split; try assumption; exists miles; reflexivity].
  destruct E1 as [<- | [<- | [<- | []]]]; [left | right; left | right; right];
    split; reflexivity.
Qed.

(** ** The form of the names *)

Lemma set_add_Forall (Q : string -> Prop) (x : string) (l : list string) :
  Q x -> Forall Q l -> Forall Q (set_add x l).
Proof.
  intros Hx Hl. unfold set_add. destruct (in_dec string_dec x l); [exact Hl | ].
  apply Forall_app. split; [exact Hl | constructor; [exact Hx | constructor]].
Qed.

(** The loop only ever adds a company, a space and one of the suffixes. *)
Lemma names_loop_form (fuel n : nat) :
  forall (names : list string) (w w' : world) (out : list string),
    Forall (fun name => exists c s, name = c ++ " " ++ s /\ In s name_suffixes) names ->
    names_loop fuel n names w = Ok (out, w') ->
    Forall (fun name => exists c s, name = c ++ " " ++ s /\ In s name_suffixes) out.
Proof.
  induction fuel as [ | fuel IH]; intros names w w' out Hf H; cbn [names_loop] in H;
    destruct (Nat.ltb_spec (List.length names) n) as [Hlt | Hge];
    try discriminate; try (apply ret_Ok in H; destruct H as [-> _]; exact Hf).
  apply bind_Ok in H. destruct H as (company & w1 & _ & H).
  apply bind_Ok in H. destruct H as (suffix & w2 & Es & H).
  apply choice_In in Es. eapply IH; [ | exact H].
  apply set_add_Forall; [ | exact Hf]. exists company, suffix. split; [reflexivity | exact Es].
Qed.

(** X7: the name of every generated record is a company, one space and
    one of the eight suffixes; the property type inferred from it is a key
    of the type table that occurs in the name, so the "Hotel" default and
    the fallback feature list are never needed for a generated name. *)
Theorem names_are_company_and_suffix (fuel n : nat) (w w' : world)
    (props : list property) :
  generate fuel n w = Ok (props, w') ->
  Forall (fun p =>
    (exists company suffix,
        propertyName p = company ++ " " ++ suffix /\ In suffix name_suffixes) /\
    In (property_type_of (propertyName p)) (keys property_type_features) /\
    contains (property_type_of (propertyName p)) (propertyName p) = true) props.
Proof.
  intros H. apply (generate_names set_iter_perm) in H.
  destruct H as (names & w0 & Hn & _ & _ & Hmap & _).
  apply names_loop_form in Hn; [ | constructor].
  assert (Forall (fun name => exists c s, name = c ++ " " ++ s /\ In s name_suffixes)
            (map propertyName props)) as Hall.
  { rewrite Hmap. eapply Permutation_Forall; [ | exact Hn].
    symmetry. apply set_iter_perm. }
  rewrite Forall_map in Hall. eapply Forall_impl; [ | exact Hall]. cbv beta.
  intros p (c & s & E & Hs). split; [exists c, s; split; assumption | ].
  assert (contains s (propertyName p) = true) as Hc.
  { apply contains_spec. exists (c ++ " "), "". rewrite E.
    rewrite string_app_assoc. f_equal. f_equal.
    clear. induction s as [ | x s IH]; cbn; [reflexivity | now rewrite <- IH]. }
  destruct (property_type_of_spec (propertyName p))
    as [(before & after & Ek & Hin & _) | [Hnone _]].
  - split; [ | exact Hin]. rewrite Ek. apply in_or_app. right. left. reflexivity.
  - exfalso. rewrite Forall_forall in Hnone.
    specialize (Hnone s Hs). congruence.
Qed.

(** ** Distinct phrases *)

(** No list of either table, and neither fallback list, repeats a phrase. *)
Lemma phrase_lists_NoDup (d : list (string * list string)) (k : string)
    (default : list string) :
  forallb (fun kv => nodupb (snd kv)) d = true -> nodupb default = true ->
  NoDup (dict_get d k default).
Proof.
  intros Hd Hdef. unfold dict_get. destruct (dict_lookup d k) as [l | ] eqn:E.
  - apply nodupb_spec. rewrite forallb_forall in Hd.
    assert (In (k, l) d) as Hin.
    { clear Hd. induction d as [ | [k' v] d IH]; cbn [dict_lookup] in E; [discriminate | ].
      destruct (String.eqb_spec k' k) as [-> | Hne].
      - inversion E. left. reflexivity.
      - right. apply IH. exact E. }
    exact (Hd _ Hin).
  - apply nodupb_spec. exact Hdef.
Qed.

Lemma NoDup_app_l {A : Type} (l l' : list A) : NoDup (l ++ l') -> NoDup l.
Proof.
  induction l as [ | x l IH]; cbn; intros H; [constructor | ].
  inversion H as [ | ? ? Hout Hnd]; subst. constructor; [ | apply IH, Hnd].
  intros Hin. apply Hout. apply in_or_app. left. exact Hin.
Qed.

(** X8: for every name, location and country, the amenities selected for
    a description are pairwise distinct members of the location's list (of
    the fallback list for an unknown location), the features selected are
    pairwise distinct members of the type's list, and the phrases of the
    text are a rearrangement of the two selections. *)
Theorem description_selections_distinct (property_name location country : string)
    (w w' : world) (description : string) :
  generate_property_description property_name location country w = Ok (description, w') ->
  let amenities :=
    dict_get location_amenities location
      ["scenic views"; "comfortable accommodations"; "friendly service"] in
  let type_features :=
    dict_get property_type_features (property_type_of property_name)
      ["quality accommodations"; "excellent service"] in
  exists opening selected_amenities selected_features all_features,
    NoDup selected_amenities /\ incl selected_amenities amenities /\
    List.length selected_amenities = Nat.min 4 (List.length amenities) /\
    NoDup selected_features /\ incl selected_features type_features /\
    List.length selected_features = Nat.min 3 (List.length type_features) /\
    Permutation all_features (selected_amenities ++ selected_features)%list /\
    description =
      opening ++ " Located " ++
      dict_get location_descriptions location
        ("in a beautiful " ++ lower location ++ " setting") ++
      ", our property combines modern comfort with local charm. " ++
      feature_text_of all_features ++ ", " ++
      dict_get country_closings country "ensuring a memorable stay for every guest.".
Proof.
  intros H. apply (generate_property_description_Ok randbelow_lt) in H. cbv zeta in *.
  destruct H as (opening & amen & feats & all & _ & La & (ra & Pa) & Lf & (rf & Pf) & Hall & E).
  exists opening, amen, feats, all.
  assert (NoDup (amen ++ ra)) as Na.
  { eapply Permutation_NoDup; [symmetry; exact Pa | ].
    apply phrase_lists_NoDup; vm_compute; reflexivity. }
  assert (NoDup (feats ++ rf)) as Nf.
  { eapply Permutation_NoDup; [symmetry; exact Pf | ].
    apply phrase_lists_NoDup; vm_compute; reflexivity. }
  repeat split; try assumption.
  - eapply NoDup_app_l. exact Na.
  - intros x Hx. eapply Permutation_in; [exact Pa | ]. apply in_or_app. left. exact Hx.
  - eapply NoDup_app_l. exact Nf.
  - intros x Hx. eapply Permutation_in; [exact Pf | ]. apply in_or_app. left. exact Hx.
Qed.

(** ** The fallback branches of the description *)

Lemma location_descriptions_keys (location : string) :
  dict_lookup location_amenities location = None ->
  dict_lookup location_descriptions location = None.
Proof.
  rewrite !dict_lookup_None. intros H Hin. apply H.
  assert (forallb (fun k => existsb (String.eqb k) (keys location_amenities))
            (keys location_descriptions) = true) as Hall by (vm_compute; reflexivity).
  rewrite forallb_forall in Hall. specialize (Hall _ Hin).
  apply existsb_exists in Hall. destruct Hall as (k & Hk & E).
  apply String.eqb_eq in E. subst k. exact Hk.
Qed.

(** X10: for a location outside the amenity table and a country outside
    the closing table, the description uses the generic location clause
    with the lower-cased location, all three fallback amenities with three
    features of the type, six phrases in all, and the generic closing. *)
Theorem description_fallbacks (property_name location country : string)
    (w w' : world) (description : string) :
  dict_lookup location_amenities location = None ->
  dict_lookup country_closings country = None ->
  generate_property_description property_name location country w = Ok (description, w') ->
  exists opening type_features selected_features f0 f1 f2 f3 f4 f5,
    In opening (opening_lines property_name location) /\
    dict_lookup property_type_features (property_type_of property_name) =
      Some type_features /\
    List.length selected_features = 3%nat /\
    incl selected_features type_features /\
    Permutation [f0; f1; f2; f3; f4; f5]
      (["scenic views"; "comfortable accommodations"; "friendly service"] ++
       selected_features)%list /\
    description =
      opening ++ " Located " ++
      ("in a beautiful " ++ lower location ++ " setting") ++
      ", our property combines modern comfort with local charm. " ++
      ("Enjoy " ++ f0 ++ ", " ++ f1 ++ ", and " ++ f2 ++
       ", along with " ++ f3 ++ ", " ++ f4 ++ ", " ++ f5) ++
      ", " ++ "ensuring a memorable stay for every guest.".
Proof.
  intros Hloc Hcountry H.
  apply (generate_property_description_Ok randbelow_lt) in H. cbv zeta in H.
  destruct (property_type_has_features property_name) as (type_features & Lf & Nf).
  pose proof (location_descriptions_keys location Hloc) as Hdesc.
  unfold dict_get in H. rewrite Hloc, Hcountry, Hdesc, Lf, Nf in H.
  destruct H as (opening & amen & feats & all & Ho & Hla & (ra & Pa) & Hlf & (rf & Pf) & Hall & ->).
  cbn [Nat.min List.length] in Hla, Hlf.
  assert (ra = []) as ->.
  { apply Permutation_length in Pa. rewrite length_app, Hla in Pa. cbn in Pa.
    destruct ra; [reflexivity | cbn in Pa; lia]. }
  rewrite app_nil_r in Pa.
  assert (List.length all = 6%nat) as Hlen.
  { rewrite (Permutation_length Hall), length_app, Hla, Hlf. reflexivity. }
  destruct all as [ | f0 [ | f1 [ | f2 [ | f3 [ | f4 [ | f5 [ | f6 all]]]]]]];
    try discriminate Hlen.
  exists opening, type_features, feats, f0, f1, f2, f3, f4, f5.
  repeat split; try assumption.
  - intros x Hx. eapply Permutation_in; [exact Pf | ]. apply in_or_app. left. exact Hx.
  - rewrite Hall. apply Permutation_app_tail. exact Pa.
Qed.

(** ** One company per name *)

Lemma fake_unique_company_Ok (w w' : world) (c : string) :
  fake_unique_company w = Ok (c, w') ->
  exists f, unique_company (w_seen w) (w_fk w) = Some (c, f) /\
            w' = {| w_rng := w_rng w; w_fk := f; w_seen := c :: w_seen w |}.
Proof.
  unfold fake_unique_company.
  destruct (unique_company (w_seen w) (w_fk w)) as [[c0 f] | ]; [ | discriminate].
  intros H. inversion H; subst. exists f. split; reflexivity.
Qed.

Lemma names_loop_seen (fuel n : nat) :
  forall (names : list string) (w w' : world) (out : list string),
    List.length (w_seen w) = List.length names ->
    names_from (w_seen w) names ->
    NoDup (w_seen w) ->
    (List.length names <= n)%nat ->
    names_loop fuel n names w = Ok (out, w') ->
    List.length (w_seen w') = n /\ NoDup (w_seen w') /\
    List.length out = n /\ names_from (w_seen w') out.
Proof.
  induction fuel as [ | fuel IH]; intros names w w' out Hlen Hfrom Hnd Hle H;
    cbn [names_loop] in H;
    destruct (Nat.ltb_spec (List.length names) n) as [Hlt | Hge];
    try discriminate;
    try (apply ret_Ok in H; destruct H as [-> ->]; repeat split; try assumption; lia).
  apply bind_Ok in H. destruct H as (c & w1 & Ec & H).
  apply bind_Ok in H. destruct H as (suffix & w2 & Es & H).
  apply fake_unique_company_Ok in Ec. destruct Ec as (f & Ec & ->).
  pose proof (choice_In _ _ _ _ Es) as Hsuf. apply name_suffixes_no_space in Hsuf.
  apply choice_Ok in Es. destruct Es as (j & g & _ & _ & ->).
  pose proof (unique_company_fresh _ _ _ _ Ec) as Hfresh.
  assert (~ In (c ++ " " ++ suffix) names) as Hnew.
  { intros Hin. unfold names_from in Hfrom. rewrite Forall_forall in Hfrom.
    destruct (Hfrom _ Hin) as (c' & s' & E & Hc' & Hs').
    apply name_split in E; [ | assumption | assumption]. subst c'. exact (Hfresh Hc'). }
  unfold set_add in H.
  destruct (in_dec string_dec (c ++ " " ++ suffix) names) as [Hin | _]; [contradiction | ].
  apply IH in H; cbn [w_seen]; try exact H.
  - rewrite length_app. cbn [List.length]. lia.
  - unfold names_from in *. apply Forall_app. split.
    + eapply Forall_impl; [ | exact Hfrom]. cbv beta.
      intros name (c' & s' & E & Hc' & Hs'). exists c', s'.
      repeat split; [exact E | right; exact Hc' | exact Hs'].
    + constructor; [ | constructor]. exists c, suffix.
      repeat split; [left; reflexivity | exact Hsuf].
  - constructor; assumption.
  - rewrite length_app. cbn [List.length]. lia.
Qed.

(** X11: when [fake.unique] has handed out nothing before,
    [unique_property_names(n)] leaves it with exactly [n] companies handed
    out, pairwise distinct: the loop runs [n] times, the set never absorbs
    a repeated name, and each of the [n] names returned is one of those
    companies, a space and a suffix without spaces. *)
Theorem unique_property_names_draws_n_companies (fuel n : nat) (w w' : world)
    (names : list string) :
  w_seen w = [] ->
  unique_property_names fuel n w = Ok (names, w') ->
  List.length (w_seen w') = n /\ NoDup (w_seen w') /\
  List.length names = n /\
  Forall (fun name => exists c s,
            name = c ++ " " ++ s /\ In c (w_seen w') /\ contains " " s = false) names.
Proof.
  intros Hseen H. unfold unique_property_names in H.
  apply bind_Ok in H. destruct H as (collected & w1 & Hn & H).
  apply ret_Ok in H. destruct H as [-> ->].
  apply names_loop_seen in Hn.
  - destruct Hn as (Hlen & Hnd & Hout & Hfrom). repeat split; try assumption.
    + rewrite <- Hout. apply Permutation_length, set_iter_perm.
    + eapply Permutation_Forall; [symmetry; apply set_iter_perm | exact Hfrom].
  - rewrite Hseen. reflexivity.
  - constructor.
  - rewrite Hseen. constructor.
  - cbn. lia.
Qed.

(** ** The report *)

Lemma count_country_sum (props : list property) :
  Forall (fun p => propertyCountry p = "USA" \/ propertyCountry p = "Canada" \/
                   propertyCountry p = "Mexico") props ->
  (count_country "USA" props + count_country "Canada" props +
   count_country "Mexico" props)%nat = List.length props.
Proof.
  unfold count_country. induction 1 as [ | p props Hp _ IH]; [reflexivity | ].
  cbn [filter List.length].
  destruct Hp as [-> | [-> | ->]]; cbn [String.eqb Ascii.eqb Bool.eqb List.length]; lia.
Qed.

(** X12: after a run that generated [n] records, the first line printed
    gives [n], the three per-country counts printed add up to [n], and the
    printing ends without an exception exactly when [n] is not 0 (on an
    empty corpus [properties[0]] raises [IndexError]). *)
Theorem report_counts_add_up (fuel n : nat) (w w' : world) (props : list property) :
  generate fuel n w = Ok (props, w') ->
  hd_error (fst (report props)) =
    Some ("Generated " ++ str_of_nat n ++ " properties with descriptions:") /\
  (count_country "USA" props + count_country "Canada" props +
   count_country "Mexico" props)%nat = n /\
  (snd (report props) = None <-> (0 < n)%nat) /\
  (snd (report props) = Some IndexError <-> n = 0%nat).
Proof.
  intros H.
  assert (List.length props = n) as Hlen.
  { apply (generate_names set_iter_perm) in H.
    destruct H as (names & w0 & _ & _ & Hlen & _). exact Hlen. }
  assert (Forall (fun p => propertyCountry p = "USA" \/ propertyCountry p = "Canada" \/
                           propertyCountry p = "Mexico") props) as Hc.
  { eapply generate_Forall; [ | exact H].
    intros names i w1 p w2 Hp. apply make_property_country in Hp.
    destruct Hp as (j & g1 & states & k & g2 & _ & Hin & _).
    apply nth_error_In in Hin. destruct Hin as [E | [E | [E | []]]]; auto. }
  split; [ | split; [ | split]].
  - unfold report. rewrite Hlen. destruct (nth_error props 0); reflexivity.
  - rewrite count_country_sum by exact Hc. exact Hlen.
  - unfold report. destruct props as [ | p0 props]; cbn in *; subst n.
    + split; [discriminate | lia].
    + split; [lia | reflexivity].
  - unfold report. destruct props as [ | p0 props]; cbn in *; subst n.
    + split; reflexivity.
    + split; [discriminate | lia].
Qed.

Lemma unique_property_names_total (fuel n : nat) (w : world) :
  (forall seen f, (List.length seen < n)%nat -> unique_company seen f <> None) ->
  w_seen w = [] -> (n <= fuel)%nat ->
  exists names w', unique_property_names fuel n w = Ok (names, w').
Proof.
  intros Htotal Hseen Hfuel.
  destruct (names_loop_total randbelow_lt unique_company_fresh n Htotal fuel [] w)
    as (names & w1 & En).
  { rewrite Hseen. reflexivity. }
  { constructor. }
  { cbn. lia. }
  exists (set_iter names), w1. unfold unique_property_names.
  rewrite (bind_eq _ _ _ _ _ En). reflexivity.
Qed.

End Records.

(** * The further properties on concrete runs *)

Definition value_of {PF : PyFloat} {R : RandomGen} {F : Faker} {A : Type}
    (o : outcome (A * @world PF R F)) (default : A) : A :=
  match o with
  | Ok (a, _) => a
  | _ => default
  end.

Lemma outcome_value_eta {PF : PyFloat} {R : RandomGen} {F : Faker} {A : Type}
    (o : outcome (A * @world PF R F)) (da : A) (dw : @world PF R F)
    (a : A) (w : @world PF R F) :
  o = Ok (a, w) -> o = Ok (value_of o da, world_of o dw).
Proof. intros ->. reflexivity. Qed.

Abbreviation toy_description :=
  (@generate_property_description ExactFloat ToyRandom ToyFaker ToyRuntime
     "Acme Inn" "Valley" "USA" toy_world).

Lemma toy_description_Ok :
  toy_description = Ok (value_of toy_description "", world_of toy_description toy_world).
Proof.
  destruct (@generate_property_description_total ExactFloat ToyRandom ToyFaker ToyRuntime
              toy_randbelow_lt "Acme Inn" "Valley" "USA" toy_world) as (d & w' & E).
  exact (outcome_value_eta _ "" toy_world _ _ E).
Qed.

Abbreviation fallback_description :=
  (@generate_property_description ExactFloat ToyRandom ToyFaker ToyRuntime
     "Acme Inn" "Moon" "France" toy_world).

Lemma fallback_description_Ok :
  fallback_description =
    Ok (value_of fallback_description "", world_of fallback_description toy_world).
Proof.
  destruct (@generate_property_description_total ExactFloat ToyRandom ToyFaker ToyRuntime
              toy_randbelow_lt "Acme Inn" "Moon" "France" toy_world) as (d & w' & E).
  exact (outcome_value_eta _ "" toy_world _ _ E).
Qed.

Abbreviation toy_names :=
  (@unique_property_names ExactFloat ToyRandom ToyFaker ToyRuntime 2 2 toy_world).

Lemma toy_names_Ok :
  toy_names = Ok (value_of toy_names [], world_of toy_names toy_world).
Proof.
  destruct (@unique_property_names_total ExactFloat ToyRandom ToyFaker ToyRuntime
              toy_randbelow_lt toy_unique_company_fresh 2 2 toy_world)
    as (names & w' & E);
    [intros seen f _; apply toy_unique_company_total | reflexivity | lia | ].
  exact (outcome_value_eta _ [] toy_world _ _ E).
Qed.

Lemma location_and_policy_enumerated_witness :
  Forall (fun p => In (propertyLocation p) locations /\
                   In (propertyCancellationPenalty p) cancellation_policies)
    (records_of toy_run).
Proof.
  apply (@location_and_policy_enumerated ExactFloat ToyRandom ToyFaker ToyRuntime
           2 2 toy_world (world_of toy_run toy_world) (records_of toy_run)).
  exact toy_run_Ok.
Defined.

Lemma address_is_single_line_witness :
  Forall (fun p => ~ In "010"%char (chars (propertyAddress p))) (records_of toy_run).
Proof.
  apply (@address_is_single_line ExactFloat ToyRandom ToyFaker ToyRuntime 2 2 toy_world
           (world_of toy_run toy_world) (records_of toy_run)).
  exact toy_run_Ok.
Defined.

(** The "s" that the address of "Smith-Jones, Brown & Co Inn" makes of the
    initial "S" of the name. *)
Lemma email_of_name_charset_witness :
  @email_of_name ToyRuntime "Smith-Jones, Brown & Co Inn" =
    "info@smithjonesbrownandcoinn.com" /\
  nth_error (chars (@email_of_name ToyRuntime "Smith-Jones, Brown & Co Inn")) 5 =
    Some "s"%char /\
  "s"%char <> " "%char /\ "s"%char <> "&"%char /\ "s"%char <> "-"%char /\
  "s"%char <> ","%char /\ is_upper "s" = false.
Proof.
  split; [reflexivity | ]. split; [reflexivity | ].
  apply (@email_of_name_charset ToyRuntime toy_lower_ascii_text
           "Smith-Jones, Brown & Co Inn" "s").
  - reflexivity.
  - apply (nth_error_In _ 5). reflexivity.
Defined.

Lemma email_of_name_ignores_case_witness :
  @email_of_name ToyRuntime (@lower ToyRuntime "Smith-Jones INN") =
    @email_of_name ToyRuntime "Smith-Jones INN" /\
  @email_of_name ToyRuntime "Smith-Jones INN" = "info@smithjonesinn.com".
Proof.
  split; [ | reflexivity].
  apply (@email_of_name_ignores_case ToyRuntime toy_lower_ascii_text "Smith-Jones INN").
  reflexivity.
Defined.

Lemma locale_follows_country_witness :
  Forall (fun p =>
    exists loc f0 f1 f2 f3 f4 raw_address airport_city,
      ((propertyCountry p = "USA" /\ loc = en_US) \/
       (propertyCountry p = "Canada" /\ loc = en_CA) \/
       (propertyCountry p = "Mexico" /\ loc = es_MX)) /\
      @city ToyFaker loc f0 = (propertyCity p, f1) /\
      @address ToyFaker loc f1 = (raw_address, f2) /\
      propertyAddress p = replace "010" ", " raw_address /\
      @phone_number ToyFaker loc f2 = (propertyPhoneNumber p, f3) /\
      @city ToyFaker loc f3 = (airport_city, f4) /\
      exists miles,
        propertyAirportProximity p =
          str_of_nat miles ++ " miles from " ++ airport_city ++ " International Airport")
    (records_of toy_run).
Proof.
  apply (@locale_follows_country ExactFloat ToyRandom ToyFaker ToyRuntime 2 2 toy_world
           (world_of toy_run toy_world) (records_of toy_run)).
  exact toy_run_Ok.
Defined.

Lemma names_are_company_and_suffix_witness :
  Forall (fun p =>
    (exists company suffix,
        propertyName p = company ++ " " ++ suffix /\ In suffix name_suffixes) /\
    In (property_type_of (propertyName p)) (keys property_type_features) /\
    contains (property_type_of (propertyName p)) (propertyName p) = true)
    (records_of toy_run).
Proof.
  apply (@names_are_company_and_suffix ExactFloat ToyRandom ToyFaker ToyRuntime
           toy_set_iter_perm
           2 2 toy_world (world_of toy_run toy_world) (records_of toy_run)).
  exact toy_run_Ok.
Defined.

Lemma description_selections_distinct_witness :
  let amenities :=
    dict_get location_amenities "Valley"
      ["scenic views"; "comfortable accommodations"; "friendly service"] in
  let type_features :=
    dict_get property_type_features (property_type_of "Acme Inn")
      ["quality accommodations"; "excellent service"] in
  exists opening selected_amenities selected_features all_features,
    NoDup selected_amenities /\ incl selected_amenities amenities /\
    List.length selected_amenities = Nat.min 4 (List.length amenities) /\
    NoDup selected_features /\ incl selected_features type_features /\
    List.length selected_features = Nat.min 3 (List.length type_features) /\
    Permutation all_features (selected_amenities ++ selected_features)%list /\
    value_of toy_description "" =
      opening ++ " Located " ++
      dict_get location_descriptions "Valley"
        ("in a beautiful " ++ @lower ToyRuntime "Valley" ++ " setting") ++
      ", our property combines modern comfort with local charm. " ++
      feature_text_of all_features ++ ", " ++
      dict_get country_closings "USA" "ensuring a memorable stay for every guest.".
Proof.
  apply (@description_selections_distinct ExactFloat ToyRandom ToyFaker ToyRuntime
           toy_randbelow_lt
           "Acme Inn" "Valley" "USA" toy_world (world_of toy_description toy_world)
           (value_of toy_description "")).
  exact toy_description_Ok.
Defined.


Lemma description_fallbacks_witness :
  exists opening type_features selected_features f0 f1 f2 f3 f4 f5,
    In opening (@opening_lines ToyRuntime "Acme Inn" "Moon") /\
    dict_lookup property_type_features (property_type_of "Acme Inn") =
      Some type_features /\
    List.length selected_features = 3%nat /\
    incl selected_features type_features /\
    Permutation [f0; f1; f2; f3; f4; f5]
      (["scenic views"; "comfortable accommodations"; "friendly service"] ++
       selected_features)%list /\
    value_of fallback_description "" =
      opening ++ " Located " ++
      ("in a beautiful " ++ @lower ToyRuntime "Moon" ++ " setting") ++
      ", our property combines modern comfort with local charm. " ++
      ("Enjoy " ++ f0 ++ ", " ++ f1 ++ ", and " ++ f2 ++
       ", along with " ++ f3 ++ ", " ++ f4 ++ ", " ++ f5) ++
      ", " ++ "ensuring a memorable stay for every guest.".
Proof.
  apply (@description_fallbacks ExactFloat ToyRandom ToyFaker ToyRuntime toy_randbelow_lt
           "Acme Inn" "Moon" "France" toy_world (world_of fallback_description toy_world)
           (value_of fallback_description "")).
  - reflexivity.
  - reflexivity.
  - exact fallback_description_Ok.
Defined.

Lemma unique_property_names_draws_n_companies_witness :
  List.length (w_seen (world_of toy_names toy_world)) = 2%nat /\
  NoDup (w_seen (world_of toy_names toy_world)) /\
  List.length (value_of toy_names []) = 2%nat /\
  Forall (fun name => exists c s,
            name = c ++ " " ++ s /\ In c (w_seen (world_of toy_names toy_world)) /\
            contains " " s = false) (value_of toy_names []).
Proof.
  apply (@unique_property_names_draws_n_companies ExactFloat ToyRandom ToyFaker ToyRuntime
           toy_set_iter_perm toy_unique_company_fresh 2 2 toy_world).
  - reflexivity.
  - exact toy_names_Ok.
Defined.

Lemma report_counts_add_up_witness :
  hd_error (fst (report (records_of toy_run))) =
    Some ("Generated " ++ str_of_nat 2 ++ " properties with descriptions:") /\
  (count_country "USA" (records_of toy_run) + count_country "Canada" (records_of toy_run) +
   count_country "Mexico" (records_of toy_run))%nat = 2%nat /\
  (snd (report (records_of toy_run)) = None <-> (0 < 2)%nat) /\
  (snd (report (records_of toy_run)) = Some IndexError <-> 2%nat = 0%nat).
Proof.
  apply (@report_counts_add_up ExactFloat ToyRandom ToyFaker ToyRuntime toy_set_iter_perm
           2 2 toy_world (world_of toy_run toy_world) (records_of toy_run)).
  exact toy_run_Ok.
Defined.
